(** * TouchManager: the device / registry state-reconciliation core

    A shallow embedding of
      - [touchdc/system/command/run/run.py]      (the command runner),
      - [touchdc/system/command/run/cmd_errors.py],
        [touchdc/system/command/reg/reg_errors.py],
        [touchdc/system/pnp_errors.py]           (the three error classifiers),
      - [touchdc/system/command/reg/reg.py]      (the registry accessor),
      - [touchdc/system/model.py]                (the device state model),
      - [touchdc/utils/observe.py]               (the notification channel).

    Python text is modelled as [string]; the text functions below follow
    CPython on 7-bit ASCII text.  External processes, the consent dialog and
    the observers are collaborators of the core: they are the methods of the
    [Host] class, and every call to one of them is recorded in a trace. *)

From Stdlib Require Import ZArith Ascii String List Bool Lia.
From stdpp Require Import base strings gmap list pretty.

Local Open Scope Z_scope.

(** ** Python text primitives *)

Module Str.

Definition code (c : ascii) : nat := nat_of_ascii c.

Definition in_range (lo hi : nat) (c : ascii) : bool :=
  (Nat.leb lo (code c)) && (Nat.leb (code c) hi).

Definition is_upper (c : ascii) : bool := in_range 65 90 c.
Definition is_lower (c : ascii) : bool := in_range 97 122 c.
Definition is_digit (c : ascii) : bool := in_range 48 57 c.

(** [str.isspace] on ASCII: TAB..CR, FS..US and the blank. *)
Definition is_space (c : ascii) : bool := in_range 9 13 c || in_range 28 32 c.

(** [\w] on ASCII. *)
Definition is_word (c : ascii) : bool :=
  is_upper c || is_lower c || is_digit c || Nat.eqb (code c) 95.

Definition lower_char (c : ascii) : ascii :=
  if is_upper c then ascii_of_nat (code c + 32) else c.
Definition upper_char (c : ascii) : ascii :=
  if is_lower c then ascii_of_nat (code c - 32) else c.

Fixpoint map (f : ascii -> ascii) (s : string) : string :=
  match s with
  | EmptyString => EmptyString
  | String c s' => String (f c) (map f s')
  end.

Definition lower : string -> string := map lower_char.
Definition upper : string -> string := map upper_char.

Fixpoint lstrip (s : string) : string :=
  match s with
  | EmptyString => EmptyString
  | String c s' => if is_space c then lstrip s' else s
  end.
Definition rstrip (s : string) : string := String.rev (lstrip (String.rev s)).
Definition strip (s : string) : string := rstrip (lstrip s).

(** [s.capitalize()] *)
Definition capitalize (s : string) : string :=
  match s with
  | EmptyString => EmptyString
  | String c s' => String (upper_char c) (lower s')
  end.

(** Truth value of a string: [if s:]. *)
Definition nonempty (s : string) : bool :=
  match s with EmptyString => false | _ => true end.

Definition eqb (a b : string) : bool := bool_decide (a = b).

(** [s.startswith(p)]; on success also the rest of [s]. *)
Fixpoint strip_prefix (p s : string) : option string :=
  match p with
  | EmptyString => Some s
  | String a p' =>
      match s with
      | EmptyString => None
      | String b s' => if bool_decide (a = b) then strip_prefix p' s' else None
      end
  end.
Definition startswith (p s : string) : bool :=
  match strip_prefix p s with Some _ => true | None => false end.

(** [sub in s]. *)
Fixpoint contains (sub s : string) : bool :=
  if startswith sub s then true else
  match s with
  | EmptyString => false
  | String _ s' => contains sub s'
  end.

(** [s.split(sep)] for a non-empty separator: left to right, no overlap. *)
Fixpoint split_go (sep : string) (cur : string) (fuel : nat) (s : string) : list string :=
  match fuel with
  | O => [String.rev cur]
  | S fuel' =>
      match strip_prefix sep s with
      | Some rest =>
          match s with
          | EmptyString => [String.rev cur]
          | String _ _ => String.rev cur :: split_go sep EmptyString fuel' rest
          end
      | None =>
          match s with
          | EmptyString => [String.rev cur]
          | String c s' => split_go sep (String c cur) fuel' s'
          end
      end
  end.
Definition split (sep s : string) : list string :=
  split_go sep EmptyString (S (String.length s)) s.

(** [s.split(sep, 1)] when [sep] is a single character that occurs in [s]:
    the text before and after its first occurrence. *)
Fixpoint partition_go (sep : ascii) (cur : string) (s : string) : option (string * string) :=
  match s with
  | EmptyString => None
  | String c s' =>
      if bool_decide (c = sep) then Some (String.rev cur, s')
      else partition_go sep (String c cur) s'
  end.
Definition split1 (sep : ascii) (s : string) : option (string * string) :=
  partition_go sep EmptyString s.

Definition has_char (c : ascii) (s : string) : bool :=
  match split1 c s with Some _ => true | None => false end.

(** Line boundaries of [str.splitlines] on ASCII: LF, VT, FF, CR, FS, GS, RS,
    with CR LF counting once. *)
Definition is_linebreak (c : ascii) : bool := in_range 10 13 c || in_range 28 30 c.

Fixpoint splitlines_go (cur : string) (s : string) : list string :=
  match s with
  | EmptyString =>
      match cur with EmptyString => [] | _ => [String.rev cur] end
  | String c s' =>
      if is_linebreak c then
        String.rev cur ::
          match s' with
          | String d s'' =>
              if Nat.eqb (code c) 13 && Nat.eqb (code d) 10
              then splitlines_go EmptyString s''
              else splitlines_go EmptyString s'
          | EmptyString => splitlines_go EmptyString s'
          end
      else splitlines_go (String c cur) s'
  end.
Definition splitlines (s : string) : list string := splitlines_go EmptyString s.

(** [str(rc)] for an optional integer: [str(None)] is the text [None]. *)
Definition of_rc (rc : option Z) : string :=
  match rc with
  | None => "None"
  | Some z => pretty z
  end.

(** [int(s)] on ASCII text: optional sign, digits, single underscores between
    digits; [None] stands for [ValueError]. *)
Fixpoint digits_go (acc : Z) (prev_digit : bool) (s : string) : option Z :=
  match s with
  | EmptyString => if prev_digit then Some acc else None
  | String c s' =>
      if is_digit c then digits_go (10 * acc + Z.of_nat (code c - 48)) true s'
      else if Nat.eqb (code c) 95 && prev_digit then
        match s' with
        | String d _ => if is_digit d then digits_go acc false s' else None
        | EmptyString => None
        end
      else None
  end.
Definition to_int (s : string) : option Z :=
  match strip s with
  | String "-" s' => Z.opp <$> digits_go 0 false s'
  | String "+" s' => digits_go 0 false s'
  | s' => digits_go 0 false s'
  end.

End Str.

Definition LF : string := String "010"%char EmptyString.

(** ** The fragment of Python's [re] that the classifiers use

    [re.search] only asks whether some match exists, so greedy and lazy
    quantifiers ([.*] and [.*?]) denote the same thing here. *)

Module Re.

Inductive regex : Type :=
| Chr (c : ascii)            (* a literal character *)
| AnyChar                    (* [.]: anything but a line feed *)
| Space                      (* [\s] *)
| OneOf (cs : list ascii)    (* [[sz]] *)
| Bound                      (* [\b] *)
| Eps
| Seq (r1 r2 : regex)
| Opt (r : regex)            (* [r?] *)
| Star (r : regex)           (* [r*], [r*?] *)
| Plus (r : regex).          (* [r+] *)

Fixpoint lit (s : string) : regex :=
  match s with
  | EmptyString => Eps
  | String c EmptyString => Chr c
  | String c s' => Seq (Chr c) (lit s')
  end.

Definition char_eq (ignorecase : bool) (p c : ascii) : bool :=
  if ignorecase then bool_decide (Str.lower_char p = Str.lower_char c)
  else bool_decide (p = c).

Definition word_opt (c : option ascii) : bool :=
  match c with Some c => Str.is_word c | None => false end.

Definition head (s : string) : option ascii :=
  match s with String c _ => Some c | EmptyString => None end.

(** One character that satisfies [p], then the continuation. *)
Definition step (p : ascii -> bool) (s : string)
    (k : option ascii -> string -> bool) : bool :=
  match s with
  | String c s' => if p c then k (Some c) s' else false
  | EmptyString => false
  end.

(** [matches ic r prev s k]: [r] matches a prefix of [s] (the character
    before [s] is [prev]) and [k] accepts what is left. *)
Fixpoint matches (ic : bool) (r : regex) (prev : option ascii) (s : string)
    (k : option ascii -> string -> bool) {struct r} : bool :=
  match r with
  | Chr p => step (char_eq ic p) s k
  | AnyChar => step (fun c => negb (Nat.eqb (Str.code c) 10)) s k
  | Space => step Str.is_space s k
  | OneOf cs => step (fun c => existsb (fun p => char_eq ic p c) cs) s k
  | Bound => if xorb (word_opt prev) (word_opt (head s)) then k prev s else false
  | Eps => k prev s
  | Seq r1 r2 => matches ic r1 prev s (fun p' s' => matches ic r2 p' s' k)
  | Opt r1 => if matches ic r1 prev s k then true else k prev s
  | Star r1 =>
      (fix star (fuel : nat) (prev : option ascii) (s : string) : bool :=
         if k prev s then true else
         match fuel with
         | O => false
         | S fuel' =>
             matches ic r1 prev s (fun p' s' =>
               if Nat.ltb (String.length s') (String.length s)
               then star fuel' p' s' else false)
         end) (String.length s) prev s
  | Plus r1 =>
      matches ic r1 prev s (fun p0 s0 =>
      (fix star (fuel : nat) (prev : option ascii) (s : string) : bool :=
         if k prev s then true else
         match fuel with
         | O => false
         | S fuel' =>
             matches ic r1 prev s (fun p' s' =>
               if Nat.ltb (String.length s') (String.length s)
               then star fuel' p' s' else false)
         end) (String.length s0) p0 s0)
  end.

Definition accept : option ascii -> string -> bool := fun _ _ => true.

Fixpoint search_from (ic : bool) (r : regex) (prev : option ascii) (s : string) : bool :=
  if matches ic r prev s accept then true else
  match s with
  | EmptyString => false
  | String c s' => search_from ic r (Some c) s'
  end.

(** [re.search(r, s, re.IGNORECASE)] (with [ic]) or [re.search(r, s)], as a
    truth value. *)
Definition search (ic : bool) (r : regex) (s : string) : bool :=
  search_from ic r None s.

End Re.

Declare Scope re_scope.
Delimit Scope re_scope with re.
Infix "@@" := Re.Seq (at level 60, right associativity) : re_scope.

(** [\b], [\s+] and [.*?] as they occur in the patterns. *)
Definition WB : Re.regex := Re.Bound.
Definition SP : Re.regex := Re.Plus Re.Space.
Definition ANY : Re.regex := Re.Star Re.AnyChar.

(** ** Exceptions *)

Inductive Exn : Type :=
(* cmd_errors.py *)
| CommandError | AccessDeniedError | UserAbortedError
| CommandNotFoundError | PowershellDisabledError
(* reg_errors.py *)
| RegistryError | RegistryOperationAbortedError | RegistryPermissionError
| RegistryItemNotFoundError | RegistryItemExistsError
(* pnp_errors.py *)
| PnpError | DeviceNotFoundError | DevicePropertyNotFoundError
| DevicePropertyExistsError | DevicePermissionError
| DeviceInvalidOperationError | DeviceOperationAbortedError
(* builtins *)
| RuntimeError | ValueError | TypeError | AssertionError
| NotImplementedError | KeyError
(* the call depth of the model is exhausted *)
| RecursionError.

Global Instance Exn_eq_dec : EqDecision Exn.
Proof. solve_decision. Defined.

(** [isinstance(e, CommandError)]. *)
Definition is_CommandError (e : Exn) : bool :=
  match e with
  | CommandError | AccessDeniedError | UserAbortedError
  | CommandNotFoundError | PowershellDisabledError => true
  | _ => false
  end.

(** What a classifier does: it returns [None] or raises. *)
Definition Raised := option Exn.

(** The loop shared by the three [check_error] functions: kinds in mapping
    order, skipping those not asked for, first matching pattern wins. *)
Section Classifier.

Variable hit : Re.regex -> bool.

Fixpoint scan (errors : list Exn) (error_map : list (Exn * list Re.regex)) : Raised :=
  match error_map with
  | [] => None
  | (error, patterns) :: rest =>
      if bool_decide (error ∈ errors) then
        if existsb hit patterns then Some error else scan errors rest
      else scan errors rest
  end.

End Classifier.

Definition keys (error_map : list (Exn * list Re.regex)) : list Exn :=
  fst <$> error_map.

(** The [errors] argument of [check_error]: absent, one error class, or a
    list of classes. *)
Inductive Errors : Type :=
| ErrorsNone
| ErrorsOne (error : Exn)
| ErrorsList (errors : list Exn).

(** The first lines of [check_error]: the kinds to look for. *)
Definition asked (error_map : list (Exn * list Re.regex)) (errors : Errors) : list Exn :=
  match errors with
  | ErrorsNone => keys error_map
  | ErrorsOne error => [error]
  | ErrorsList errors => errors
  end.

Module cmd_errors.
Import Re.
Local Open Scope re_scope.

Definition ERROR_MAP : list (Exn * list regex) :=
  [ (AccessDeniedError,
      [ WB @@ lit "access" @@ ANY @@ lit "not" @@ SP @@ lit "allowed" @@ WB;
        WB @@ lit "access" @@ ANY @@ lit "denied" @@ WB;
        lit "PermissionDenied" @@ Opt (lit "Exception");
        lit "SecurityException" ]);
    (UserAbortedError,
      [ WB @@ lit "operation" @@ ANY @@ lit "cancel" @@ Opt (Chr "l") @@ lit "ed" @@ WB;
        WB @@ lit "cancel" @@ Opt (Chr "l") @@ lit "ed" @@ SP @@ lit "by" @@ ANY @@ lit "user" @@ WB ]);
    (CommandNotFoundError,
      [ WB @@ lit "the" @@ SP @@ lit "term" @@ ANY @@ lit "is" @@ SP @@ lit "not" @@ SP
           @@ lit "recogni" @@ OneOf ["s"; "z"]%char @@ lit "ed" @@ WB;
        WB @@ lit "not" @@ SP @@ lit "recogni" @@ OneOf ["s"; "z"]%char @@ lit "ed" @@ SP
           @@ lit "as" @@ SP @@ lit "the" @@ SP @@ lit "name" @@ SP @@ lit "of" @@ WB;
        lit "CommandNotFound" @@ Opt (lit "Exception") ]);
    (PowershellDisabledError,
      [ WB @@ Opt (lit "program" @@ ANY @@ lit "blocked") @@ ANY @@ lit "group" @@ SP
           @@ lit "policy" @@ WB;
        WB @@ Opt (lit "contact" @@ SP @@ lit "your" @@ SP) @@ lit "system" @@ SP
           @@ lit "admin" @@ Opt (Chr "s")
           @@ Opt (lit "istrator" @@ Opt (Chr "s")) @@ WB ]) ].

Definition check_error (output : string) (rc : option Z) (errors : Errors) : Raised :=
  let errors := asked ERROR_MAP errors in
  scan (fun regex => search true regex output) errors ERROR_MAP.
End cmd_errors.

Module reg_errors.
Import Re.
Local Open Scope re_scope.

Definition ERROR_MAP : list (Exn * list regex) :=
  [ (RegistryPermissionError,
      [ WB @@ lit "access" @@ ANY @@ lit "not" @@ SP @@ lit "allowed" @@ WB;
        WB @@ lit "access" @@ ANY @@ lit "denied" @@ WB;
        lit "PermissionDenied" @@ Opt (lit "Exception");
        lit "SecurityException" ]);
    (RegistryItemNotFoundError,
      [ WB @@ lit "cannot" @@ SP @@ lit "find" @@ SP @@ lit "path" @@ WB;
        WB @@ lit "does" @@ SP @@ lit "not" @@ SP @@ lit "exist" @@ WB;
        lit "PathNotFound" @@ Opt (lit "Exception");
        lit "ItemNotFound" @@ Opt (lit "Exception") ]);
    (RegistryItemExistsError,
      [ WB @@ lit "already" @@ SP @@ lit "exists" @@ WB;
        lit "ResourceExists" @@ Opt (lit "Exception") ]) ].

Definition check_error (output : string) (rc : option Z) (errors : Errors) : Raised :=
  let errors := asked ERROR_MAP errors in
  scan (fun regex => search true regex output) errors ERROR_MAP.
End reg_errors.

Module pnp_errors.
Import Re.
Local Open Scope re_scope.

Definition ERROR_MAP : list (Exn * list regex) :=
  [ (DevicePermissionError,
      [ WB @@ lit "access" @@ ANY @@ lit "not allowed" @@ WB;
        WB @@ lit "access" @@ ANY @@ lit "denied" @@ WB ]);
    (DeviceOperationAbortedError,
      [ WB @@ lit "operation" @@ ANY @@ lit "cancel" @@ Opt (Chr "l") @@ lit "ed" @@ WB;
        WB @@ lit "cancel" @@ Opt (Chr "l") @@ lit "ed" @@ SP @@ lit "by" @@ ANY @@ lit "user" @@ WB ]);
    (DeviceNotFoundError,
      [ WB @@ lit "no" @@ SP @@ lit "devices" @@ SP @@ lit "were" @@ SP @@ lit "found" @@ WB ]);
    (DevicePropertyExistsError,
      [ WB @@ lit "already" @@ SP @@ lit "enabled" @@ WB;
        WB @@ lit "already" @@ SP @@ lit "disabled" @@ WB;
        lit "50" ]) ].

(** Unlike the other two, this classifier also searches the patterns in
    [str(rc)] (case-sensitively). *)
Definition check_error (output : string) (rc : option Z) (errors : Errors) : Raised :=
  let errors := asked ERROR_MAP errors in
  scan (fun regex => search true regex output || search false regex (Str.of_rc rc))
       errors ERROR_MAP.
End pnp_errors.

(** ** Results of fallible code *)

Inductive Outcome (A : Type) : Type :=
| Return (a : A)
| Raise (e : Exn).
Arguments Return {A} a.
Arguments Raise {A} e.

Definition raised {A} (o : Outcome A) : bool :=
  match o with Raise _ => true | Return _ => false end.

(** ** Registry types and data *)

(** What callers pass where a registry type is expected: an [int], a [str],
    or some other object. *)
Inductive RegType : Type :=
| TInt (i : Z)
| TStr (s : string)
| TOther.

(** A registry payload as [json.loads] delivers it. *)
Inductive RegData : Type :=
| DInt (i : Z)
| DStr (s : string)
| DInts (l : list Z).

Global Instance RegData_eq_dec : EqDecision RegData.
Proof. solve_decision. Defined.

(** The result of a variadic helper: the single item when exactly one
    argument was passed, the list otherwise. *)
Inductive OneOrMany (A : Type) : Type :=
| One (a : A)
| Many (l : list A).
Arguments One {A} a.
Arguments Many {A} l.

Definition one_or_many {A} (l : list A) : OneOrMany A :=
  match l with
  | [a] => One a
  | _ => Many l
  end.

Module RegTypes.

Definition WINAPI_REG_TYPES : gmap string Z :=
  list_to_map
    [ ("REG_NONE", 0); ("REG_SZ", 1); ("REG_EXPAND_SZ", 2); ("REG_BINARY", 3);
      ("REG_DWORD", 4); ("REG_DWORD_LITTLE_ENDIAN", 4);
      ("REG_DWORD_BIG_ENDIAN", 5); ("REG_LINK", 6); ("REG_MULTI_SZ", 7);
      ("REG_RESOURCE_LIST", 8); ("REG_FULL_RESOURCE_DESCRIPTOR", 9);
      ("REG_RESOURCE_REQUIREMENTS_LIST", 10);
      ("REG_QWORD", 11); ("REG_QWORD_LITTLE_ENDIAN", 11) ].

Definition REG_VALUE_KINDS : gmap string Z :=
  list_to_map
    [ ("NONE", -1); ("UNKNOWN", 0); ("STRING", 1); ("EXPANDSTRING", 2);
      ("BINARY", 3); ("DWORD", 4); ("MULTISTRING", 7); ("QWORD", 11) ].

Definition REG_VALUE_KIND_NAMES : gmap Z string :=
  list_to_map
    [ (-1, "NONE"); (0, "UNKNOWN"); (1, "STRING"); (2, "EXPANDSTRING");
      (3, "BINARY"); (4, "DWORD"); (7, "MULTISTRING"); (11, "QWORD") ].

Definition REG_FRIENDLY_NAMES : gmap string string :=
  list_to_map
    [ ("NONE", "None"); ("UNKNOWN", "Unknown"); ("STRING", "String");
      ("EXPANDSTRING", "ExpandString"); ("BINARY", "Binary");
      ("DWORD", "DWord"); ("MULTISTRING", "MultiString"); ("QWORD", "QWord") ].

Definition SUPPORTED_REG_TYPES : gset Z := {[ -1; 0; 1; 2; 3; 4; 7; 11 ]}.

(** The body of the loop of [Reg.normalise], for one argument. *)
Definition normalise_item (t : RegType) : Outcome Z :=
  let found :=
    match t with
    | TInt i => Return i
    | TStr t =>
        let t := Str.upper (Str.strip t) in
        if Str.startswith "REG_" t then
          match WINAPI_REG_TYPES !! t with
          | Some i => Return i
          | None => Raise ValueError
          end
        else
          match WINAPI_REG_TYPES !! ("REG_" +:+ t) with
          | Some i => Return i
          | None =>
              match REG_VALUE_KINDS !! t with
              | Some i => Return i
              | None => Raise ValueError
              end
          end
    | TOther => Raise TypeError
    end in
  match found with
  | Return i => Return (if bool_decide (i ∈ SUPPORTED_REG_TYPES) then i else 0)
  | Raise e => Raise e
  end.

Fixpoint normalise_loop (types : list RegType) (norm_types : list Z) : Outcome (list Z) :=
  match types with
  | [] => Return norm_types
  | t :: rest =>
      match normalise_item t with
      | Return i => normalise_loop rest (norm_types ++ [i])
      | Raise e => Raise e
      end
  end.

(** [Reg.normalise], called with any number of positional arguments. *)
Definition normalise (types : list RegType) : Outcome (OneOrMany Z) :=
  match normalise_loop types [] with
  | Return norm_types => Return (one_or_many norm_types)
  | Raise e => Raise e
  end.

(** The body of the loop of [Reg.get_name], for one argument. *)
Definition get_name_item (pretty : bool) (t : RegType) : Outcome string :=
  match normalise [t] with
  | Raise e => Raise e
  | Return (Many _) => Raise ValueError
  | Return (One i) =>
      match REG_VALUE_KIND_NAMES !! i with
      | None => Raise ValueError
      | Some t =>
          if pretty then
            match REG_FRIENDLY_NAMES !! t with
            | None => Raise ValueError
            | Some t => Return t
            end
          else Return t
      end
  end.

Fixpoint get_name_loop (pretty : bool) (types : list RegType) (name_types : list string)
    : Outcome (list string) :=
  match types with
  | [] => Return name_types
  | t :: rest =>
      match get_name_item pretty t with
      | Return n => get_name_loop pretty rest (name_types ++ [n])
      | Raise e => Raise e
      end
  end.

(** [Reg.get_name], called with any number of positional arguments. *)
Definition get_name (types : list RegType) (pretty : bool) : Outcome (OneOrMany string) :=
  match get_name_loop pretty types [] with
  | Return name_types => Return (one_or_many name_types)
  | Raise e => Raise e
  end.

(** The call with a single positional argument, as every caller in the
    repository makes it. *)
Definition normalise1 (t : RegType) : Outcome Z :=
  match normalise [t] with
  | Return (One i) => Return i
  | Return (Many _) => Raise TypeError
  | Raise e => Raise e
  end.

End RegTypes.

(** ** The collaborators of the core *)

(** One [subprocess.run] of PowerShell, as [Run.run_ps] issues it: the
    command text, whether it goes through the elevation wrapper, and which
    exit code the wrapper reports. *)
Record Invocation : Type := {
  inv_cmd : string;
  inv_elevate : bool;
  inv_propogate : bool
}.

Global Instance Invocation_eq_dec : EqDecision Invocation.
Proof. solve_decision. Defined.

Record CompletedProcess : Type := {
  returncode : Z;
  stdout : string;
  stderr : string
}.

(** What comes back from one run: the result of [subprocess.run], and, for an
    elevated run, the three capture files. *)
Record Reply : Type := {
  res : CompletedProcess;
  stdout_file : string;
  stderr_file : string;
  retcode_file : string
}.

(** The exchange file of [Reg.get_reg], read back, stripped and decoded. *)
Inductive JsonFile : Type :=
| JBlank                                    (* empty: [assert output] fails *)
| JInvalid                                  (* [json.JSONDecodeError] *)
| JTable (data : RegData) (type : RegType). (* a table with data and type *)

Class Host (World : Type) : Type := {
  (** [subprocess.run(ps_cmd, ...)] *)
  subprocess_run : Invocation -> World -> Reply * World;
  (** [Ask.elevate()] *)
  Ask_elevate : World -> bool * World;
  (** [tempfile.NamedTemporaryFile(...).name] *)
  NamedTemporaryFile : World -> string * World;
  (** the exchange file of that name *)
  read_json : string -> World -> JsonFile;
  (** [observer.update(observable)], the callback of an observer: an
      abstract method, so what it does is the host's; it may change the world
      and it may raise *)
  observer_update : nat -> World -> Outcome unit * World
}.

Inductive Event : Type :=
| EvRun (i : Invocation)
| EvAsk (granted : bool)
| EvNotify
| EvUpdate (observer : nat).

Global Instance Event_eq_dec : EqDecision Event.
Proof. solve_decision. Defined.

Record St (World : Type) : Type := {
  world : World;
  trace : list Event
}.
Arguments world {World} s.
Arguments trace {World} s.
Arguments Build_St {World} world trace.

(** ** A state and exception monad *)

Definition M (World : Type) (A : Type) : Type := St World -> Outcome A * St World.

Section Monad.
Context {World : Type}.

Definition ret {A} (a : A) : M World A := fun st => (Return a, st).
Definition raise {A} (e : Exn) : M World A := fun st => (Raise e, st).

Definition bind {A B} (m : M World A) (k : A -> M World B) : M World B :=
  fun st =>
    match m st with
    | (Return a, st') => k a st'
    | (Raise e, st') => (Raise e, st')
    end.

(** [try: m  except Exception as e: h e]; a handler re-raises what its
    [except] clauses do not name. *)
Definition try_except {A} (m : M World A) (h : Exn -> M World A) : M World A :=
  fun st =>
    match m st with
    | (Return a, st') => (Return a, st')
    | (Raise e, st') => h e st'
    end.

Definition lift {A} (o : Outcome A) : M World A :=
  match o with
  | Return a => ret a
  | Raise e => raise e
  end.

Definition emit (ev : Event) : M World unit :=
  fun st => (Return tt, {| world := world st; trace := trace st ++ [ev] |}).

Definition call {A} (f : World -> A * World) (log : A -> list Event) : M World A :=
  fun st =>
    let '(a, w) := f (world st) in
    (Return a, {| world := w; trace := trace st ++ log a |}).

End Monad.

Declare Scope prog_scope.
Delimit Scope prog_scope with prog.
Notation "x <- m ;; k" := (bind m (fun x => k))
  (at level 100, m at next level, right associativity) : prog_scope.
Notation "m ;;; k" := (bind m (fun _ => k))
  (at level 100, right associativity) : prog_scope.
Local Open Scope prog_scope.

(** ** run.py *)

Module Run.
Section Run.
Context {World : Type} `{Host World}.

Definition APOS : string := "'".

Fixpoint replace_apos (s : string) : string :=
  match s with
  | EmptyString => EmptyString
  | String c s' =>
      if bool_decide (c = "'"%char) then String c (String c (replace_apos s'))
      else String c (replace_apos s')
  end.

(** [Run.safe_path]: every single quote is doubled. *)
Definition safe_path (path : string) : string := replace_apos path.

Definition run_process (cmd : string) (elevate propogate : bool) : M World Reply :=
  let i := {| inv_cmd := cmd; inv_elevate := elevate; inv_propogate := propogate |} in
  call (subprocess_run i) (fun _ => [EvRun i]).

Definition ask : M World bool := call Ask_elevate (fun b => [EvAsk b]).

(** [Run.run_ps]; [depth] bounds the nesting of calls. *)
Fixpoint run_ps_rec (depth : nat) (cmd : string)
    (elevate auto_elevate propogate check : bool) : M World (Z * string * string) :=
  match depth with
  | O => raise RecursionError
  | S depth' =>
      reply <- run_process cmd elevate propogate ;;
      result <-
        (if elevate then
           let resout := Str.strip (stdout (res reply)) in
           let reserr := Str.strip (stderr (res reply)) in
           let resrc := returncode (res reply) in
           (if Str.nonempty resout || Str.nonempty reserr then
              lift (A := unit)
                (match cmd_errors.check_error (resout +:+ LF +:+ reserr) (Some resrc) ErrorsNone with
                 | Some e => Raise e
                 | None => Raise RuntimeError
                 end)
            else ret tt) ;;;
           let out := stdout_file reply in
           let err := stderr_file reply in
           match Str.to_int (Str.strip (retcode_file reply)) with
           | Some rc => ret (rc, out, err)
           | None => raise RuntimeError
           end
         else
           ret (returncode (res reply), stdout (res reply), stderr (res reply))) ;;
      let '(rc, out, err) := result in
      match cmd_errors.check_error (out +:+ LF +:+ err) (Some rc) (ErrorsOne AccessDeniedError) with
      | Some e =>
          if bool_decide (e = AccessDeniedError) then
            if auto_elevate && negb elevate then
              granted <- ask ;;
              if granted then run_ps_rec depth' cmd true true true false
              else raise UserAbortedError
            else
              if check then raise e else ret (rc, out, err)
          else if is_CommandError e then
            if check then raise e else ret (rc, out, err)
          else raise e
      | None => ret (rc, out, err)
      end
  end.

(** An elevated call never calls itself again, so two levels are all a
    call can use. *)
Definition run_ps (cmd : string) (elevate auto_elevate propogate check : bool)
    : M World (Z * string * string) :=
  run_ps_rec 2 cmd elevate auto_elevate propogate check.

(** [Run.test_ps] *)
Definition test_ps : M World bool :=
  try_except
    (run_ps "echo hello" false false true false ;;; ret true)
    (fun e => if bool_decide (e = PowershellDisabledError) then ret false else raise e).

End Run.
End Run.

(** ** reg.py *)

Module Reg.
Section Reg.
Context {World : Type} `{Host World}.
Import RegTypes.

(** [Reg.handle_error]: errors of [Run] become errors of [Reg]. *)
Definition handle_error {A} (func : M World A) : M World A :=
  try_except func (fun e =>
    match e with
    | UserAbortedError => raise RegistryOperationAbortedError
    | AccessDeniedError => raise RegistryPermissionError
    | _ => raise e
    end).

(** [str(value)] inside an f-string. *)
Definition ints_text (l : list Z) : string :=
  match l with
  | [] => ""
  | i :: rest => pretty i +:+ foldr (fun j acc => ", " +:+ pretty j +:+ acc) "" rest
  end.
Definition format_data (value : RegData) : string :=
  match value with
  | DInt i => pretty i
  | DStr s => s
  | DInts l => "[" +:+ ints_text l +:+ "]"
  end.

Definition get_script (path name json_file : string) : string :=
  "$key = Get-Item -LiteralPath '" +:+ Run.safe_path path +:+ "'; "
  +:+ "$data = $key.GetValue('" +:+ name +:+ "', $null); "
  +:+ "if ($data -eq $null) { throw [System.Management.Automation.ItemNotFoundException] }; "
  +:+ "$type = $key.GetValueKind('" +:+ name +:+ "'); "
  +:+ "$table = @{data = $data; type = $type}; "
  +:+ "$json = $table | ConvertTo-Json -Compress; "
  +:+ "$json_file = '" +:+ Run.safe_path json_file +:+ "'; "
  +:+ "$json >$json_file; "
  +:+ "New-Item -Path $json_file -Force -Value (Get-Content -Raw -LiteralPath $json_file) | Out-Null".

Definition test_path_cmd (path : string) : string :=
  "Test-Path -LiteralPath '" +:+ Run.safe_path path +:+ "'".

Definition set_item_property_cmd (path name : string) (value : RegData) (type_name : string) : string :=
  "Set-ItemProperty -LiteralPath '" +:+ Run.safe_path path +:+ "' -Name '" +:+ name
  +:+ "' -Value '" +:+ format_data value +:+ "' -Type '" +:+ type_name +:+ "' -Force | Out-Null".

Definition new_item_cmd (path : string) (property : option (string * RegData * string)) : string :=
  "New-Item -Path '" +:+ Run.safe_path path +:+ "' -Force"
  +:+ match property with
      | Some (name, value, type_name) =>
          " | New-ItemProperty -Name '" +:+ name +:+ "' -Value '" +:+ format_data value
          +:+ "' -PropertyType '" +:+ type_name +:+ "' -Force | Out-Null"
      | None => " | Out-Null"
      end.

(** [str(name)] for an optional name. *)
Definition format_name (name : option string) : string := default "None" name.

Definition remove_cmd (path : string) (name : option string) : string :=
  match name with
  | None =>
      if Str.nonempty path
      then "Remove-Item -LiteralPath '" +:+ path +:+ "' -Recurse -Force | Out-Null"
      else "Remove-ItemProperty -LiteralPath '" +:+ path +:+ "' -Name '"
           +:+ format_name name +:+ "' -Force | Out-Null"
  | Some _ =>
      "Remove-ItemProperty -LiteralPath '" +:+ path +:+ "' -Name '"
      +:+ format_name name +:+ "' -Force | Out-Null"
  end.

(** [cls.get_name(reg_type)] with one argument, as the commands embed it. *)
Definition type_name (reg_type : RegType) : M World string :=
  match get_name [reg_type] false with
  | Return (One n) => ret n
  | Return (Many _) => raise TypeError
  | Raise e => raise e
  end.

Definition has_output (out err : string) : bool :=
  Str.nonempty (Str.strip out) || Str.nonempty (Str.strip err).

(** [Reg.get_reg] *)
Fixpoint get_reg_rec (depth : nat) (path name : string) (elevate auto_elevate : bool)
    : M World (RegData * Z) :=
  match depth with
  | O => raise RecursionError
  | S depth' =>
      handle_error (
        json_file <- call NamedTemporaryFile (fun _ => []) ;;
        result <- Run.run_ps (get_script path name json_file) elevate auto_elevate true false ;;
        let '(rc, out, err) := result in
        if has_output out err then
          match reg_errors.check_error (out +:+ LF +:+ err) (Some rc) ErrorsNone with
          | Some e =>
              if bool_decide (e = RegistryPermissionError) then
                if auto_elevate && negb elevate then
                  granted <- Run.ask ;;
                  if granted then get_reg_rec depth' path name true true
                  else raise e
                else raise e
              else raise e
          | None => raise RuntimeError
          end
        else
          output <- (fun st => (Return (read_json json_file (world st)), st)) ;;
          match output with
          | JBlank => raise AssertionError
          | JInvalid => raise RuntimeError
          | JTable data type =>
              t <- lift (normalise1 type) ;;
              ret (data, t)
          end)
  end.

Definition get_reg (path name : string) (elevate auto_elevate : bool) : M World (RegData * Z) :=
  get_reg_rec 2 path name elevate auto_elevate.

(** [Reg.test_reg] *)
Definition test_reg (path : string) (name : option string) (elevate auto_elevate : bool)
    : M World bool :=
  handle_error (
    match name with
    | None =>
        result <- Run.run_ps (test_path_cmd path) elevate auto_elevate true false ;;
        let '(rc, out, err) := result in
        if Str.eqb (Str.lower (Str.strip out)) "true" then ret true
        else if Str.eqb (Str.lower (Str.strip out)) "false" then ret false
        else raise RuntimeError
    | Some name =>
        try_except
          (get_reg path name elevate auto_elevate ;;; ret true)
          (fun e => if bool_decide (e = RegistryItemNotFoundError) then ret false else raise e)
    end).

(** The check that follows a mutating command in [set_reg] and [del_reg]:
    any output is an error; [retry] is the elevated call of the same
    method. *)
Definition after_mutation (out err : string) (elevate auto_elevate : bool)
    (retry : M World unit) : M World unit :=
  if has_output out err then
    match reg_errors.check_error (out +:+ LF +:+ err) None ErrorsNone with
    | Some e =>
        if bool_decide (e = RegistryPermissionError) then
          if auto_elevate && negb elevate then
            granted <- Run.ask ;;
            if granted then retry else raise e
          else raise e
        else raise e
    | None => raise RuntimeError
    end
  else ret tt.

(** [Reg.set_reg] *)
Fixpoint set_reg_rec (depth : nat) (path : string) (name : option string)
    (value : option RegData) (reg_type : option RegType)
    (skip elevate auto_elevate : bool) : M World unit :=
  match depth with
  | O => raise RecursionError
  | S depth' =>
      handle_error (
        new_property <-
          match name, value, reg_type with
          | Some _, Some _, Some _ => ret true
          | None, None, None => ret false
          | _, _, _ => raise ValueError
          end ;;
        already_set <-
          match skip, name, value, reg_type with
          | true, Some n, Some v, Some t =>
              try_except
                (got <- get_reg path n elevate auto_elevate ;;
                 let '(get_val, get_type) := got in
                 have <- lift (normalise1 (TInt get_type)) ;;
                 want <- lift (normalise1 t) ;;
                 ret (bool_decide ((get_val, have) = (v, want))))
                (fun e =>
                   if bool_decide (e = RegistryItemNotFoundError) then ret false
                   else raise e)
          | _, _, _, _ => ret false
          end ;;
        if already_set : bool then ret tt else
        path_exists <- test_reg path None elevate auto_elevate ;;
        if path_exists : bool then
          match name, value, reg_type with
          | Some n, Some v, Some t =>
              (* Path already exists, use Set-ItemProperty *)
              tn <- type_name t ;;
              result <- Run.run_ps (set_item_property_cmd path n v tn)
                          elevate auto_elevate true false ;;
              let '(_, out, err) := result in
              after_mutation out err elevate auto_elevate
                (set_reg_rec depth' path name None None true true true)
          | _, _, _ => ret tt
          end
        else
          (* Ensure we don't overwrite an existing key *)
          path_exists' <- test_reg path None elevate auto_elevate ;;
          if negb path_exists' then raise RuntimeError else
          property <-
            match name, value, reg_type with
            | Some n, Some v, Some t =>
                tn <- type_name t ;; ret (Some (n, v, tn))
            | _, _, _ => ret None
            end ;;
          result <- Run.run_ps (new_item_cmd path property) elevate auto_elevate true false ;;
          let '(_, out, err) := result in
          after_mutation out err elevate auto_elevate
            (set_reg_rec depth' path name None None true true true))
  end.

Definition set_reg (path : string) (name : option string) (value : option RegData)
    (reg_type : option RegType) (skip elevate auto_elevate : bool) : M World unit :=
  set_reg_rec 2 path name value reg_type skip elevate auto_elevate.

(** [Reg.del_reg] *)
Fixpoint del_reg_rec (depth : nat) (path : string) (name : option string)
    (elevate auto_elevate : bool) : M World unit :=
  match depth with
  | O => raise RecursionError
  | S depth' =>
      handle_error (
        found <- test_reg path name elevate auto_elevate ;;
        if negb found then ret tt else
        result <- Run.run_ps (remove_cmd path name) elevate auto_elevate true false ;;
        let '(_, out, err) := result in
        after_mutation out err elevate auto_elevate
          (del_reg_rec depth' path name true true))
  end.

Definition del_reg (path : string) (name : option string) (elevate auto_elevate : bool)
    : M World unit :=
  del_reg_rec 2 path name elevate auto_elevate.

End Reg.
End Reg.

(** ** observe.py *)

(** An [Observable] and its registered observers (a set); the device classes
    of model.py add only class attributes, so the class is all an instance
    carries besides. *)
Inductive DeviceClass : Type :=
| BaseDevice
| Touchscreen
| Touchpad.

Record Device : Type := {
  cls : DeviceClass;
  _observers : gset nat
}.


Module Observable.
Section Observable.
Context {World : Type} `{Host World}.



Definition update (observer : nat) : M World unit :=
  fun st =>
    let '(result, w) := observer_update observer (world st) in
    (result, {| world := w; trace := trace st ++ [EvUpdate observer] |}).

(** [for observer in self._observers: observer.update(self)]; what an
    update raises ends the loop. *)
Fixpoint update_all (observers : list nat) : M World unit :=
  match observers with
  | [] => ret tt
  | observer :: rest => update observer ;;; update_all rest
  end.

(** [Observable.notify] *)
Definition notify (self : Device) : M World unit :=
  emit EvNotify ;;; update_all (elements (_observers self)).

(** [Observable.observed]: the decorated method, then [notify] unless the
    method raised. *)
Definition observed {A} (self : Device) (f : M World A) : M World A :=
  result <- f ;;
  notify self ;;;
  ret result.

End Observable.
End Observable.

(** ** model.py *)

Definition DQUOTE : string := String (ascii_of_nat 34) EmptyString.

(** What [get_device] returns: the dict of one device, or with [get_all] the
    list of all dicts. *)
Inductive DeviceInfo : Type :=
| Dict (d : gmap string string)
| DictList (l : list (gmap string string)).

(** The [names] argument of [get_device]: absent, one name, or a list. *)
Inductive Names : Type :=
| NamesNone
| NamesStr (n : string)
| NamesList (l : list string).

Module Model.
Section Model.
Context {World : Type} `{Host World}.

Definition DEVICE : string := "device".
Definition SYSTEM : string := "system".
Definition USER : string := "user".
Definition MODES : list string := [DEVICE; SYSTEM; USER].

Definition DISABLE : string := "disable".
Definition ENABLE : string := "enable".
Definition NONE : string := "none".
Definition STATES : list string := [DISABLE; ENABLE; NONE].

(** Registry values for toggling devices: key path, value name, type; the
    touchpad's system key is the empty tuple. *)
Definition SYSTEM_KEY (c : DeviceClass) : option (string * string * Z) :=
  match c with
  | BaseDevice => Some ("", "", 0)
  | Touchscreen => Some ("HKLM:\SOFTWARE\Microsoft\Wisp\Touch", "TouchGate", 4)
  | Touchpad => None
  end.

Definition USER_KEY (c : DeviceClass) : option (string * string * Z) :=
  match c with
  | BaseDevice => Some ("", "", 0)
  | Touchscreen => Some ("HKCU:\SOFTWARE\Microsoft\Wisp\Touch", "TouchGate", 4)
  | Touchpad =>
      Some ("HKCU:\Software\Microsoft\Windows\CurrentVersion\PrecisionTouchPad\Status",
            "Enabled", 4)
  end.

Definition DEVICE_NAMES (c : DeviceClass) : list string :=
  match c with
  | BaseDevice => []
  | Touchscreen => ["touch screen"; "touchscreen"]
  | Touchpad => ["touch pad"; "touchpad"]
  end.

(** [Device.handle_error] *)
Definition handle_error {A} (func : M World A) : M World A :=
  try_except func (fun e =>
    match e with
    | UserAbortedError | RegistryOperationAbortedError => raise DeviceOperationAbortedError
    | AccessDeniedError | RegistryPermissionError => raise DevicePermissionError
    | _ => raise e
    end).

(** The filter of [get_device]:
    [any([n.lower() in b.lower() for n in names]) and ':' in b]. *)
Definition wanted (names : list string) (b : string) : bool :=
  existsb (fun n => Str.contains (Str.lower n) (Str.lower b)) names
  && Str.has_char ":" b.

(** [blocks[-1][k.strip()] = v.strip()] *)
Definition set_in_last (k v : string) (blocks : list (gmap string string))
    : list (gmap string string) :=
  alter (fun d => <[Str.strip k := Str.strip v]> d) (pred (length blocks)) blocks.

(** The inner loop: one block's lines into the last dict. *)
Definition add_fields (b : string) (blocks : list (gmap string string))
    : list (gmap string string) :=
  fold_left
    (fun blocks l =>
       match Str.split1 ":" l with
       | Some (k, v) => set_in_last k v blocks
       | None => blocks
       end)
    (Str.splitlines b) blocks.

(** The outer loop over the raw blocks. *)
Definition collect (names : list string) (_blocks : list string)
    : list (gmap string string) :=
  fold_left
    (fun blocks b =>
       if wanted names b then add_fields b (blocks ++ [∅]) else blocks)
    _blocks [].

Definition enum_cmd : string := "pnputil /enum-devices /class HIDClass".

(** [Device.get_device] *)
Fixpoint get_device_rec (depth : nat) (self : Device) (names : Names)
    (get_all elevate auto_elevate : bool) : M World DeviceInfo :=
  match depth with
  | O => raise RecursionError
  | S depth' =>
      handle_error (
        let names :=
          match names with
          | NamesNone => DEVICE_NAMES (cls self)
          | NamesStr n => [n]
          | NamesList l => l
          end in
        result <- Run.run_ps enum_cmd elevate false true false ;;
        let '(rc, out, err) := result in
        let output := Str.strip (Str.lower (out +:+ LF +:+ err)) in
        match pnp_errors.check_error output None ErrorsNone with
        | Some e =>
            if bool_decide (e = DevicePermissionError) then
              if auto_elevate && negb elevate then
                granted <- Run.ask ;;
                if granted
                then get_device_rec depth' self (NamesList names) get_all true true
                else raise DeviceOperationAbortedError
              else raise e
            else raise e
        | None =>
            let blocks := collect names (Str.split (LF +:+ LF) out) in
            if get_all then ret (DictList blocks)
            else
              match blocks with
              | [d] => ret (Dict d)
              | _ => raise DeviceNotFoundError
              end
        end)
  end.

Definition get_device (self : Device) (names : Names)
    (get_all elevate auto_elevate : bool) : M World DeviceInfo :=
  get_device_rec 2 self names get_all elevate auto_elevate.

(** [device[key]] and [device.get(key)] on what [get_device] returned
    without [get_all]. *)
Definition item (device : DeviceInfo) (key : string) : M World string :=
  match device with
  | Dict d => match d !! key with Some v => ret v | None => raise KeyError end
  | DictList _ => raise TypeError
  end.
Definition get (device : DeviceInfo) (key : string) : M World (option string) :=
  match device with
  | Dict d => ret (d !! key)
  | DictList _ => raise TypeError
  end.

(** [Device.get_field] *)
Definition get_field (self : Device) (field : string) (strict : bool) (names : Names)
    : M World (option string) :=
  device <- get_device self names false false true ;;
  value <- get device (Str.capitalize field) ;;
  match value with
  | None => if strict then raise DevicePropertyNotFoundError else ret None
  | Some v => ret (Some v)
  end.

(** [self.get_field()], whose value the status properties then lower. *)
Definition status (self : Device) : M World string :=
  value <- get_field self "Status" true NamesNone ;;
  match value with
  | Some v => ret v
  | None => raise TypeError
  end.

Definition device_exists (self : Device) : M World bool :=
  try_except
    (get_device self NamesNone false false true ;;; ret true)
    (fun e => if bool_decide (e = DeviceNotFoundError) then ret false else raise e).

Definition device_enabled (self : Device) : M World bool :=
  s <- status self ;;
  if Str.eqb (Str.lower s) "disabled" then ret false else ret true.

Definition device_running (self : Device) : M World bool :=
  s <- status self ;;
  if Str.eqb (Str.lower s) "started" then ret true else ret false.

Definition device_working (self : Device) : M World bool :=
  s <- status self ;;
  if Str.eqb (Str.lower s) "problem" then ret false else ret true.

Definition get_problem (self : Device) : M World (option string * option string) :=
  prob_code <- get_field self "Problem Code" false NamesNone ;;
  prob_status <- get_field self "Problem Status" false NamesNone ;;
  ret (prob_code, prob_status).

(** [path, name, type_ = key] *)
Definition unpack (key : option (string * string * Z)) : M World (string * string * Z) :=
  match key with
  | Some k => ret k
  | None => raise ValueError
  end.

(** [Device._check_key] *)
Definition _check_key (key : option (string * string * Z)) : M World (option bool) :=
  handle_error (
    k <- unpack key ;;
    let '(path, name, type_) := k in
    got <- try_except
             (r <- Reg.get_reg path name false true ;; ret (Some r))
             (fun e => if bool_decide (e = RegistryItemNotFoundError) then ret None
                       else raise e) ;;
    match got with
    | None => ret None (* Item doesn't exist *)
    | Some (reg_val, reg_type) =>
        have <- lift (RegTypes.normalise1 (TInt reg_type)) ;;
        want <- lift (RegTypes.normalise1 (TInt type_)) ;;
        if negb (bool_decide (have = want)) then ret None (* Type doesn't match *)
        else if bool_decide (reg_val = DInt 0) then ret (Some false)
        else if bool_decide (reg_val = DInt 1) then ret (Some true)
        else ret None (* Unknown value *)
    end).

(** [Device.system_enabled], overridden by [Touchpad]. *)
Definition system_enabled (self : Device) : M World (option bool) :=
  match cls self with
  | Touchpad => raise NotImplementedError
  | c => _check_key (SYSTEM_KEY c)
  end.

Definition user_enabled (self : Device) : M World (option bool) :=
  _check_key (USER_KEY (cls self)).

(** [Device.user_active] *)
Definition user_active (self : Device) : M World bool :=
  enabled <- device_enabled self ;;
  if negb enabled then ret false (* Device disabled, cannot run *)
  else
    try_except
      (sys <- system_enabled self ;;
       if bool_decide (sys ∈ [Some true; None]) then
         usr <- user_enabled self ;;
         if bool_decide (usr = Some false) then ret false else ret true
       else
         usr <- user_enabled self ;;
         if bool_decide (usr ∈ [Some false; None]) then ret false else ret true)
      (fun e =>
         if bool_decide (e = NotImplementedError) then
           (* There is no system key (touchpad) *)
           usr <- user_enabled self ;;
           if bool_decide (usr = Some false) then ret false else ret true
         else raise e).

(** [Device._check]: the assertions of the base class. *)
Definition _check_base (state mode : string) : Outcome unit :=
  if negb (bool_decide (state ∈ [ENABLE; DISABLE; NONE])) then Raise AssertionError
  else if negb (bool_decide (mode ∈ [DEVICE; SYSTEM; USER])) then Raise AssertionError
  else if Str.eqb mode DEVICE && Str.eqb state NONE
  then Raise AssertionError (* Device is either En. or Dis. *)
  else Return tt.

(** [_check], as [Touchpad] overrides it. *)
Definition _check (self : Device) (state mode : string) : Outcome unit :=
  match cls self with
  | Touchpad =>
      match _check_base state mode with
      | Return _ =>
          if Str.eqb mode SYSTEM then Raise NotImplementedError (* There is no system key *)
          else Return tt
      | Raise e => Raise e
      end
  | _ => _check_base state mode
  end.

Definition toggle_cmd (state instance_id : string) : string :=
  "pnputil /" +:+ state +:+ "-device " +:+ DQUOTE +:+ instance_id +:+ DQUOTE.

(** [Device._toggle] *)
Fixpoint _toggle_rec (depth : nat) (self : Device) (state mode : string)
    (elevate auto_elevate : bool) : M World unit :=
  match depth with
  | O => raise RecursionError
  | S depth' =>
      handle_error (
        try_except (lift (_check self state mode))
          (fun e =>
             if bool_decide (e = AssertionError) || bool_decide (e = NotImplementedError)
             then raise DeviceInvalidOperationError
             else raise e) ;;;
        if Str.eqb mode DEVICE then
          device <- get_device self NamesNone false false true ;;
          instance_id <- item device "Instance ID" ;;
          result <- Run.run_ps (toggle_cmd state instance_id) elevate false true false ;;
          let '(rc, out, err) := result in
          let out := Str.strip (Str.lower out) in
          let err := Str.strip (Str.lower err) in
          let output := out +:+ LF +:+ err in
          let finish : M World unit :=
            if Str.contains "success" output then ret tt else raise PnpError in
          if Str.nonempty out || Str.nonempty err then
            match pnp_errors.check_error output None ErrorsNone with
            | Some e =>
                if bool_decide (e = DevicePermissionError) then
                  if auto_elevate && negb elevate then
                    granted <- Run.ask ;;
                    if granted
                    then _toggle_rec depth' self state mode true true
                    else raise DeviceOperationAbortedError
                  else raise e
                else if bool_decide (e = DevicePropertyExistsError) then
                  ret tt (* Device already enabled/disabled, nothing to do *)
                else raise e
            | None => finish
            end
          else finish
        else
          key <-
            (if Str.eqb mode SYSTEM then unpack (SYSTEM_KEY (cls self))
             else if Str.eqb mode USER then unpack (USER_KEY (cls self))
             else raise RuntimeError (* not reached: _check admits no other mode *)) ;;
          let '(path, name, reg_type) := key in
          if Str.eqb state DISABLE then
            Reg.set_reg path (Some name) (Some (DInt 0)) (Some (TInt reg_type)) true false true
          else if Str.eqb state ENABLE then
            Reg.set_reg path (Some name) (Some (DInt 1)) (Some (TInt reg_type)) true false true
          else if Str.eqb state NONE then
            found <- Reg.test_reg path (Some name) false true ;;
            if found : bool then Reg.del_reg path (Some name) false true else ret tt
          else ret tt)
  end.

Definition _toggle (self : Device) (state mode : string) (elevate auto_elevate : bool)
    : M World unit :=
  _toggle_rec 2 self state mode elevate auto_elevate.

(** [Device.toggle]: [_toggle] under [Observable.observed]. *)
Definition toggle (self : Device) (state mode : string) (elevate auto_elevate : bool)
    : M World unit :=
  Observable.observed self (_toggle self state mode elevate auto_elevate).

Definition disable (self : Device) (mode : string) : M World unit :=
  toggle self DISABLE mode false true.
Definition enable (self : Device) (mode : string) : M World unit :=
  toggle self ENABLE mode false true.
Definition clear (self : Device) (mode : string) : M World unit :=
  toggle self NONE mode false true.

End Model.
End Model.

(** ** Two hosts to run the model on *)

Definition completed (rc : Z) (out err : string) : CompletedProcess :=
  {| returncode := rc; stdout := out; stderr := err |}.

(** The reply to a run that is not elevated. *)
Definition plain (rc : Z) (out err : string) : Reply :=
  {| res := completed rc out err;
     stdout_file := ""; stderr_file := ""; retcode_file := "" |}.

(** The reply to an elevated run whose wrapper printed nothing. *)
Definition captured (retcode out err : string) : Reply :=
  {| res := completed 0 "" "";
     stdout_file := out; stderr_file := err; retcode_file := retcode |}.

(** A host that replays a script: one step per process, one answer per
    consent dialog. *)
Module Scripted.

Record Step : Type := {
  reply : Reply;
  wrote : JsonFile    (* what the process left in the exchange file *)
}.

Record tape : Type := {
  script : list Step;
  answers : list bool;
  exchange : JsonFile
}.

Definition says (r : Reply) : Step := {| reply := r; wrote := JBlank |}.

Definition run (i : Invocation) (w : tape) : Reply * tape :=
  match script w with
  | [] => (plain 0 "" "", w)
  | s :: rest =>
      (reply s, {| script := rest; answers := answers w; exchange := wrote s |})
  end.

Definition answer (w : tape) : bool * tape :=
  match answers w with
  | [] => (false, w)
  | a :: rest => (a, {| script := script w; answers := rest; exchange := exchange w |})
  end.

Global Instance host : Host tape := {|
  subprocess_run := run;
  Ask_elevate := answer;
  NamedTemporaryFile := fun w => ("tmp0", w);
  read_json := fun _ w => exchange w;
  observer_update := fun _ w => (Return tt, w)
|}.


Definition start (steps : list Step) (consents : list bool) : St tape :=
  {| world := {| script := steps; answers := consents; exchange := JBlank |};
     trace := [] |}.

End Scripted.

(** A host whose replies depend on the command alone: a machine that does
    not change while it is queried.  Its state is the last command run. *)
Module Steady.

Record machine : Type := {
  enumeration : string;               (* what pnputil lists *)
  system_value : JsonFile;            (* under HKLM *)
  user_value : JsonFile               (* under HKCU *)
}.

Section Steady.
Variable m : machine.

Definition run_on (i : Invocation) (last : string) : Reply * string :=
  (if Str.startswith "pnputil /enum-devices" (inv_cmd i)
   then plain 0 (enumeration m) ""
   else plain 0 "" "",
   inv_cmd i).

Definition read (name last : string) : JsonFile :=
  if Str.contains "HKLM:" last then system_value m else user_value m.

Definition host : Host string := {|
  subprocess_run := run_on;
  Ask_elevate := fun w => (false, w);
  NamedTemporaryFile := fun w => ("tmp0", w);
  read_json := read;
  observer_update := fun _ w => (Return tt, w)
|}.
End Steady.

End Steady.

(** A machine with one touch screen, switched off system-wide and on for
    the user. *)
Module Demo.

Definition listing : string :=
  "Microsoft PnP Utility" +:+ LF +:+ LF +:+
  "Instance ID:                HID\ELAN2514&Col01\5&3a1afda2" +:+ LF +:+
  "Device Description:         HID-compliant touch screen" +:+ LF +:+
  "Status:                     Started" +:+ LF +:+ LF +:+
  "Instance ID:                HID\VID_046D&PID_C52B" +:+ LF +:+
  "Device Description:         HID-compliant mouse" +:+ LF +:+
  "Status:                     Started" +:+ LF.

(** The block of the touch screen in [listing]. *)
Definition touchscreen_block : string :=
  "Instance ID:                HID\ELAN2514&Col01\5&3a1afda2" +:+ LF +:+
  "Device Description:         HID-compliant touch screen" +:+ LF +:+
  "Status:                     Started".

Definition instance_id : string := "HID\ELAN2514&Col01\5&3a1afda2".

Definition machine : Steady.machine :=
  {| Steady.enumeration := listing;
     Steady.system_value := JTable (DInt 0) (TStr "DWord");
     Steady.user_value := JTable (DInt 1) (TInt 4) |}.

Definition touchscreen : Device := {| cls := Touchscreen; _observers := {[ 1%nat ]} |}.

(** The touch screen reports a problem. *)
Definition problem_block : string :=
  "Instance ID:                HID\ELAN2514&Col01\5&3a1afda2" +:+ LF +:+
  "Device Description:         HID-compliant touch screen" +:+ LF +:+
  "Status:                     Problem" +:+ LF +:+
  "Problem Code:               28 (0x1C) [CM_PROB_FAILED_INSTALL]" +:+ LF +:+
  "Problem Status:             0xC0000490".

Definition problem_listing : string :=
  "Microsoft PnP Utility" +:+ LF +:+ LF +:+ problem_block +:+ LF.

(** A listing whose touch screen block has no instance id. *)
Definition anonymous_block : string :=
  "Device Description:         HID-compliant touch screen" +:+ LF +:+
  "Status:                     Started".

Definition anonymous_listing : string :=
  "Microsoft PnP Utility" +:+ LF +:+ LF +:+ anonymous_block +:+ LF.

End Demo.

(** Scripts for the scripted host. *)
Module Scenario.
Import Scripted.

Definition denied : Reply := plain 1 "" "Set-ItemProperty : Access is denied.".
Definition silence : Reply := captured "0" "" "".
Definition denied_again : Reply := captured "1" "" "Set-ItemProperty : Access is denied.".
Definition missing : Reply :=
  plain 1 "" "Get-Item : Cannot find path 'HKCU:\Software\TouchDC' because it does not exist.".
Definition answer_false : Reply := plain 0 ("False" +:+ LF) "".
Definition answer_true : Reply := plain 0 ("True" +:+ LF) "".

Definition path : string := "HKCU:\Software\TouchDC".
Definition name : string := "TouchGate".

(** The command is denied, consent is given, the elevated run is silent. *)
Definition elevation : St tape := start [says denied; says silence] [true].

(** The key path does not exist. *)
Definition fresh_path : St tape :=
  start [says missing; says answer_false; says answer_false] [].

(** The key path appears between the two tests of [set_reg]. *)
Definition racing_path : St tape :=
  start [says missing; says answer_false; says answer_true] [].

(** The key exists, the value does not; writing is denied, consent is
    given, and the elevated run goes through. *)
Definition guarded_key : St tape :=
  start [says missing; says answer_true; says denied; says silence] [true].

(** The same, but writing is denied with elevation as well, and consent is
    given each time. *)
Definition locked_key : St tape :=
  start [says missing; says answer_true; says denied; says denied_again] [true; true].

(** The touch screen is listed and already enabled. *)
Definition already_enabled : St tape :=
  start [ says (plain 0 Demo.listing "");
          says (plain 0 ("Device is already enabled." +:+ LF) "") ] [].

(** Enumeration itself is refused. *)
Definition refused : St tape :=
  start [ says (plain 1 "" "Access is denied.") ] [].

(** The state a computation leaves. *)
Definition after {A} (m : M tape A) (st : St tape) : St tape := snd (m st).

(** PowerShell does not know the command. *)
Definition unknown_command : St tape :=
  start [ says (plain 1 ""
            "The term 'frobnicate' is not recognized as the name of a cmdlet.") ] [].

(** An elevated run whose command was refused all the same. *)
Definition denied_elevated : St tape :=
  start [ says (captured "5" "" "Access is denied.") ] [].

(** The value is there: a DWord with data 1. *)
Definition value_set : St tape :=
  start [ {| reply := plain 0 "" ""; wrote := JTable (DInt 1) (TStr "DWord") |} ] [].

(** The touch screen is listed; pnputil then prints its banner and nothing
    else, as it does for an instance id it does not know. *)
Definition silent_failure : St tape :=
  start [ says (plain 0 Demo.listing "");
          says (plain 0 ("Microsoft PnP Utility" +:+ LF +:+ LF) "") ] [].

(** The touch screen has a problem; it is enumerated twice. *)
Definition troubled : St tape :=
  start [ says (plain 0 Demo.problem_listing "");
          says (plain 0 Demo.problem_listing "") ] [].

(** The touch screen is listed without an instance id. *)
Definition anonymous : St tape :=
  start [ says (plain 0 Demo.anonymous_listing "") ] [].

End Scenario.

(** * Vocabulary of the properties *)

(** [sub] occurs in [s]. *)
Definition occurs (sub s : string) : Prop :=
  exists pre post, s = pre +:+ sub +:+ post.

(** [sep.join(l)] *)
Fixpoint join (sep : string) (l : list string) : string :=
  match l with
  | [] => ""
  | [x] => x
  | x :: rest => x +:+ sep +:+ join sep rest
  end.

(** What the end of the loop body of [normalise] does to the code it
    found. *)
Definition clamp (i : Z) : Z :=
  if bool_decide (i ∈ RegTypes.SUPPORTED_REG_TYPES) then i else 0.

(** Keys of the two name tables. *)
Definition low_level_names : list string :=
  [ "REG_NONE"; "REG_SZ"; "REG_EXPAND_SZ"; "REG_BINARY"; "REG_DWORD";
    "REG_DWORD_LITTLE_ENDIAN"; "REG_DWORD_BIG_ENDIAN"; "REG_LINK"; "REG_MULTI_SZ";
    "REG_RESOURCE_LIST"; "REG_FULL_RESOURCE_DESCRIPTOR";
    "REG_RESOURCE_REQUIREMENTS_LIST"; "REG_QWORD"; "REG_QWORD_LITTLE_ENDIAN" ].
Definition kind_names : list string :=
  [ "NONE"; "UNKNOWN"; "STRING"; "EXPANDSTRING"; "BINARY"; "DWORD";
    "MULTISTRING"; "QWORD" ].

(** The low-level names whose code [RegistryValueKind] does not support. *)
Definition unsupported_names : list string :=
  [ "REG_DWORD_BIG_ENDIAN"; "REG_LINK"; "REG_RESOURCE_LIST";
    "REG_FULL_RESOURCE_DESCRIPTOR"; "REG_RESOURCE_REQUIREMENTS_LIST" ].

(** A registry type in one of the spellings in use: a low-level name with
    or without its prefix, or a kind name (which covers the human-friendly
    names), in any casing and with blanks around it. *)
Definition spelled (s : string) : Prop :=
  let k := Str.upper (Str.strip s) in
  k ∈ low_level_names \/ ("REG_" +:+ k) ∈ low_level_names \/ k ∈ kind_names.

Definition spelled_unsupported (s : string) : Prop :=
  let k := Str.upper (Str.strip s) in
  k ∈ unsupported_names \/ ("REG_" +:+ k) ∈ unsupported_names.

(** What callers may pass as a registry type: any integer code, or a name
    in one of the spellings above. *)
Definition representation (t : RegType) : Prop :=
  match t with
  | TInt _ => True
  | TStr s => spelled s
  | TOther => False
  end.

Definition unsupported (t : RegType) : Prop :=
  match t with
  | TInt i => i ∉ RegTypes.SUPPORTED_REG_TYPES
  | TStr s => spelled_unsupported s
  | TOther => False
  end.

(** No pattern of any kind in [m] matches. *)
Definition no_hit (hit : Re.regex -> bool) (m : list (Exn * list Re.regex)) : Prop :=
  Forall (fun entry => existsb hit entry.2 = false) m.

(** The kinds that come before property-already-set in the device map. *)
Definition earlier : list Exn :=
  [DevicePermissionError; DeviceOperationAbortedError; DeviceNotFoundError].

(** [m] returns [a], whatever the state it is run in. *)
Definition yields {World A} (m : M World A) (a : A) : Prop :=
  forall st, fst (m st) = Return a.

(** The precedence table, in the words of the spec. *)
Definition precedence_table (c : DeviceClass) (device : bool) (system user : option bool) : bool :=
  if negb device then false
  else
    match c with
    | Touchpad => negb (bool_decide (user = Some false))
    | _ =>
        match system with
        | Some false => bool_decide (user = Some true)
        | _ => negb (bool_decide (user = Some false))
        end
    end.

Definition invocation (cmd : string) (elevate propogate : bool) : Invocation :=
  {| inv_cmd := cmd; inv_elevate := elevate; inv_propogate := propogate |}.

(** The output of a run classifies as access-denied for [Run.run_ps]. *)
Definition access_denied (p : CompletedProcess) : Prop :=
  cmd_errors.check_error (stdout p +:+ LF +:+ stderr p) (Some (returncode p))
    (ErrorsOne AccessDeniedError)
  = Some AccessDeniedError.

(** The colon-delimited fields of a block, in order. *)
Definition fields (b : string) : list (string * string) :=
  omap (fun l =>
          match Str.split1 ":" l with
          | Some (k, v) => Some (Str.strip k, Str.strip v)
          | None => None
          end) (Str.splitlines b).

(** The field map of a block: a later line overrides an earlier one with
    the same field name. *)
Definition parse (b : string) : gmap string string :=
  fold_left (fun d kv => <[kv.1 := kv.2]> d) (fields b) ∅.

(** The names [get_device] matches against. *)
Definition names_of (self : Device) (names : Names) : list string :=
  match names with
  | NamesNone => Model.DEVICE_NAMES (cls self)
  | NamesStr n => [n]
  | NamesList l => l
  end.

(** The blank-line-separated blocks of an enumeration output that contain
    one of the names and a colon. *)
Definition kept (names : list string) (out : string) : list string :=
  filter (fun b => Model.wanted names b = true) (Str.split (LF +:+ LF) out).

(** An event that is a process run or a consent dialog, not a notification. *)
Definition silent (ev : Event) : Prop :=
  match ev with
  | EvRun _ | EvAsk _ => True
  | EvNotify | EvUpdate _ => False
  end.

(** [m] only appends to the trace, and nothing but silent events. *)
Definition quiet {World A} (m : M World A) : Prop :=
  forall st, exists evs, trace (snd (m st)) = trace st ++ evs /\ Forall silent evs.

(** What [notify] appends: the call, then one update per observer. *)
Definition notification (self : Device) : list Event :=
  EvNotify :: (EvUpdate <$> elements (_observers self)).

(** The number of calls of [notify] in a trace. *)
Definition notifications (t : list Event) : nat :=
  length (filter (fun ev => ev = EvNotify) t).

(** The processes a trace ran. *)
Definition runs (t : list Event) : list Invocation :=
  omap (fun ev => match ev with EvRun i => Some i | _ => None end) t.

(** The text that a single-quoted PowerShell literal with body [s] stands
    for: two quotes read as one, and a quote on its own would end the literal
    early. *)
Fixpoint unescape (s : string) : option string :=
  match s with
  | EmptyString => Some EmptyString
  | String c s' =>
      if bool_decide (c = "'"%char) then
        match s' with
        | String d s'' =>
            if bool_decide (d = "'"%char) then String c <$> unescape s'' else None
        | EmptyString => None
        end
      else String c <$> unescape s'
  end.

(** Two continuations that agree up to the letter case of what they are
    given. *)
Definition agree (k' k : option ascii -> string -> bool) : Prop :=
  forall p t, k' (Str.lower_char <$> p) (Str.lower t) = k p t.

(** The items of the result of a variadic helper, as a list. *)
Definition items {A} (r : OneOrMany A) : list A :=
  match r with
  | One a => [a]
  | Many l => l
  end.

(** What [Run.run_ps] returns for a process that was not elevated. *)
Definition triple (p : CompletedProcess) : Z * string * string :=
  (returncode p, stdout p, stderr p).

(** [m] only appends to the trace, and only events that satisfy [ok]. *)
Definition confined {World A} (ok : Event -> Prop) (m : M World A) : Prop :=
  forall st, exists evs, trace (snd (m st)) = trace st ++ evs /\ Forall ok evs.

(** A consent dialog, or the run of a command that satisfies [P]. *)
Definition runs_only (P : string -> Prop) (ev : Event) : Prop :=
  match ev with
  | EvRun i => P (inv_cmd i)
  | EvAsk _ => True
  | EvNotify | EvUpdate _ => False
  end.

(** Any event but the run of a command that does not satisfy [P]. *)
Definition commands (P : string -> Prop) (ev : Event) : Prop :=
  match ev with
  | EvRun i => P (inv_cmd i)
  | _ => True
  end.

(** The commands that only read: the enumeration of devices and the script
    of [Reg.get_reg]. *)
Definition reads (c : string) : Prop :=
  c = Model.enum_cmd \/ exists path name json_file, c = Reg.get_script path name json_file.

(** The data that a toggle to [state] writes to the registry. *)
Definition written (state : string) : RegData :=
  DInt (if Str.eqb state Model.DISABLE then 0 else 1).

(** The commands of the registry accessor that read, test, write [value]
    with the type [reg_type] to, or remove the value [name] under the key
    [path]; the exchange file of the read script is the host's. *)
Definition registry_cmd (path name : string) (value : RegData) (reg_type : RegType)
    (c : string) : Prop :=
  (exists json_file, c = Reg.get_script path name json_file)
  \/ c = Reg.test_path_cmd path
  \/ (exists type_name,
        RegTypes.get_name [reg_type] false = Return (One type_name)
        /\ c = Reg.set_item_property_cmd path name value type_name)
  \/ (exists type_name,
        RegTypes.get_name [reg_type] false = Return (One type_name)
        /\ c = Reg.new_item_cmd path (Some (name, value, type_name)))
  \/ c = Reg.remove_cmd path (Some name).

(** The commands of a device-mode toggle. *)
Definition device_cmd (state : string) (c : string) : Prop :=
  c = Model.enum_cmd \/ exists instance_id, c = Model.toggle_cmd state instance_id.

(** The arguments [_check] lets through. *)
Definition accepted (self : Device) (state mode : string) : Prop :=
  state ∈ Model.STATES /\ mode ∈ Model.MODES
  /\ ~ (mode = Model.DEVICE /\ state = Model.NONE)
  /\ ~ (cls self = Touchpad /\ mode = Model.SYSTEM).

(** [m] raises nothing but the exceptions in [allowed]. *)
Definition raises_only {World A} (allowed : list Exn) (m : M World A) : Prop :=
  forall st e, fst (m st) = Raise e -> e ∈ allowed.

(** What the command runner raises. *)
Definition run_errors : list Exn :=
  [AccessDeniedError; UserAbortedError; CommandNotFoundError; PowershellDisabledError;
   RuntimeError].

(** What escapes the registry accessor, and what its methods meet inside
    before [Reg.handle_error] translates it. *)
Definition reg_layer_errors : list Exn :=
  [RegistryOperationAbortedError; RegistryPermissionError; RegistryItemNotFoundError;
   RegistryItemExistsError; CommandNotFoundError; PowershellDisabledError;
   RuntimeError; AssertionError; ValueError; TypeError].

Definition reg_body_errors : list Exn :=
  [AccessDeniedError; UserAbortedError] ++ reg_layer_errors.

(** What escapes the device model once [_check] has accepted the
    arguments, and what its methods meet inside before [Device.handle_error]
    translates it. *)
Definition model_errors : list Exn :=
  [DeviceOperationAbortedError; DevicePermissionError; DeviceNotFoundError;
   DevicePropertyExistsError; DevicePropertyNotFoundError; PnpError;
   RegistryItemNotFoundError; RegistryItemExistsError;
   CommandNotFoundError; PowershellDisabledError;
   RuntimeError; AssertionError; ValueError; TypeError; KeyError].

Definition model_body_errors : list Exn :=
  [AccessDeniedError; UserAbortedError; RegistryOperationAbortedError;
   RegistryPermissionError] ++ model_errors.

(** The exceptions of the layers below that the device model translates,
    and the one it uses inside for a key that does not exist. *)
Definition translated : list Exn :=
  [AccessDeniedError; UserAbortedError; RegistryOperationAbortedError;
   RegistryPermissionError; NotImplementedError].

(** Whatever [m] returns satisfies [Q]. *)
Definition returns {World A} (Q : A -> Prop) (m : M World A) : Prop :=
  forall st a, fst (m st) = Return a -> Q a.

(** How [_check_key] reads the data of a value of the expected type. *)
Definition flag (data : RegData) : option bool :=
  match data with
  | DInt 0 => Some false
  | DInt 1 => Some true
  | _ => None
  end.



(** * Properties *)

(** ** Text primitives *)

Example split_blank_lines :
  Str.split (LF +:+ LF) ("a" +:+ LF +:+ LF +:+ LF +:+ "b" +:+ LF +:+ LF)
  = ["a"; LF +:+ "b"; ""].
Proof. reflexivity. Qed.

Example split_empty : Str.split (LF +:+ LF) "" = [""].
Proof. reflexivity. Qed.

Example splitlines_mixed :
  Str.splitlines ("a" +:+ String (ascii_of_nat 13) LF +:+ LF +:+ "b:c" +:+ LF)
  = ["a"; ""; "b:c"].
Proof. reflexivity. Qed.

Example strip_blanks : Str.strip ("  Started " +:+ LF) = "Started".
Proof. reflexivity. Qed.

Example capitalize_lowers_the_rest : Str.capitalize "Problem Code" = "Problem code".
Proof. reflexivity. Qed.

Example to_int_examples :
  Str.to_int " -12 " = Some (-12) /\ Str.to_int "1_0" = Some 10
  /\ Str.to_int "" = None /\ Str.to_int "0x1" = None.
Proof. repeat split; reflexivity. Qed.

Example of_rc_examples : Str.of_rc (Some (-50)) = "-50" /\ Str.of_rc None = "None".
Proof. split; reflexivity. Qed.

(** [.] does not cross a line break, and [\b] needs a word boundary. *)
Example search_examples :
  let denied := (WB @@ Re.lit "access" @@ ANY @@ Re.lit "denied" @@ WB)%re in
  Re.search true denied "Access is denied." = true
  /\ Re.search true denied ("access" +:+ LF +:+ "is denied") = false
  /\ Re.search true denied "xaccess denied" = false
  /\ Re.search false denied "Access is denied." = false.
Proof. repeat split; reflexivity. Qed.

Lemma strip_prefix_spec p s rest :
  Str.strip_prefix p s = Some rest <-> s = p +:+ rest.
Proof.
  revert s. induction p as [|a p IH]; intros s; simpl.
  - split; [by intros [= ->]|by intros ->].
  - destruct s as [|b s].
    + split; [done|]. unfold String.app. simpl. done.
    + case_bool_decide as Hab.
      * subst b. rewrite IH. unfold String.app. simpl. split; [by intros ->|by intros [= ->]].
      * split; [done|]. unfold String.app. simpl. intros [= ? _]. by subst.
Qed.

Lemma startswith_spec p s : Str.startswith p s = true <-> exists rest, s = p +:+ rest.
Proof.
  unfold Str.startswith. destruct (Str.strip_prefix p s) as [rest|] eqn:Hp.
  - apply strip_prefix_spec in Hp. split; eauto.
  - split; [done|]. intros [rest Hrest]. apply strip_prefix_spec in Hrest. congruence.
Qed.

(** [sub in s] is the substring test. *)
Lemma contains_spec sub s : Str.contains sub s = true <-> occurs sub s.
Proof.
  unfold occurs. induction s as [|c s IH]; cbn [Str.contains].
  - destruct (Str.startswith sub "") eqn:Hs.
    + apply startswith_spec in Hs as [rest Hs]. split; [|done]. intros _.
      exists "", rest. exact Hs.
    + split; [done|]. intros (pre & post & Hpp).
      destruct pre; [|done]. simpl in Hpp.
      assert (Str.startswith sub "" = true) by (apply startswith_spec; eauto). congruence.
  - destruct (Str.startswith sub (String c s)) eqn:Hs.
    + apply startswith_spec in Hs as [rest Hs]. split; [|done]. intros _.
      exists "", rest. exact Hs.
    + rewrite IH. split.
      * intros (pre & post & ->). by exists (String c pre), post.
      * intros (pre & post & Hpp). destruct pre as [|c' pre].
        -- assert (Str.startswith sub (String c s) = true)
             by (apply startswith_spec; eauto).
           congruence.
        -- injection Hpp as -> ->. eauto.
Qed.

Lemma app_nil_r_string s : s +:+ "" = s.
Proof. induction s as [|c s IH]; [done|]. unfold String.app in *. simpl. by rewrite IH. Qed.

Lemma app_assoc_string s1 s2 s3 : (s1 +:+ s2) +:+ s3 = s1 +:+ s2 +:+ s3.
Proof. induction s1 as [|c s1 IH]; [done|]. unfold String.app in *. simpl. by rewrite IH. Qed.

Lemma length_app_string s1 s2 :
  String.length (s1 +:+ s2) = (String.length s1 + String.length s2)%nat.
Proof. induction s1 as [|c s1 IH]; [done|]. unfold String.app in *. simpl. by rewrite IH. Qed.

Lemma rev_app_spec s acc : String.rev_app s acc = String.rev s +:+ acc.
Proof.
  unfold String.rev. revert acc. induction s as [|c s IH]; intros acc; [done|].
  simpl. rewrite IH, (IH (String c "")), app_assoc_string. reflexivity.
Qed.

Lemma rev_cons c s : String.rev (String c s) = String.rev s +:+ String c "".
Proof. unfold String.rev at 1. simpl. apply rev_app_spec. Qed.

Lemma split_go_cons sep cur fuel s : exists b rest, Str.split_go sep cur fuel s = b :: rest.
Proof.
  revert cur s. induction fuel as [|fuel IH]; intros cur s; simpl; [eauto|].
  destruct (Str.strip_prefix sep s); destruct s; eauto.
Qed.

Lemma join_cons sep b l : l <> [] -> join sep (b :: l) = b +:+ sep +:+ join sep l.
Proof. by destruct l. Qed.

Lemma split_go_join sep cur fuel s :
  sep <> "" -> (String.length s < fuel)%nat ->
  join sep (Str.split_go sep cur fuel s) = String.rev cur +:+ s.
Proof.
  intros Hsep. revert cur s. induction fuel as [|fuel IH]; intros cur s Hlen; [lia|].
  simpl. destruct (Str.strip_prefix sep s) as [rest|] eqn:Hp.
  - apply strip_prefix_spec in Hp. destruct s as [|c s].
    + simpl. by rewrite app_nil_r_string.
    + destruct (split_go_cons sep "" fuel rest) as (b & l & Hbl).
      rewrite join_cons by (by rewrite Hbl).
      rewrite IH.
      * change (String.rev "") with "". rewrite Hp. reflexivity.
      * assert (String.length (String c s) = (String.length sep + String.length rest)%nat)
          as Hl by (by rewrite Hp, length_app_string).
        destruct sep; [done|]. simpl in *. lia.
  - destruct s as [|c s].
    + simpl. by rewrite app_nil_r_string.
    + rewrite IH by (simpl in Hlen; lia).
      rewrite rev_cons, app_assoc_string. reflexivity.
Qed.

(** Joining the pieces of [s.split(sep)] with [sep] gives [s] back: the
    blocks of an enumeration output are its text between blank lines. *)
Lemma split_join sep s : sep <> "" -> join sep (Str.split sep s) = s.
Proof.
  intros Hsep. unfold Str.split. rewrite split_go_join by (done || lia). reflexivity.
Qed.

(** ** Registry type normalisation *)

Module RegTypesFacts.
Import RegTypes.

Lemma clamp_supported i : clamp i ∈ SUPPORTED_REG_TYPES.
Proof.
  unfold clamp. case_bool_decide; [done|].
  apply (bool_decide_unpack _). vm_compute. exact I.
Qed.

Lemma clamp_unsupported i : i ∉ SUPPORTED_REG_TYPES -> clamp i = 0.
Proof. intros Hi. unfold clamp. by rewrite bool_decide_eq_false_2. Qed.

Lemma clamp_idem i : clamp (clamp i) = clamp i.
Proof.
  unfold clamp at 1. rewrite bool_decide_eq_true_2; [done|apply clamp_supported].
Qed.

Lemma normalise_int i : normalise [TInt i] = Return (One (clamp i)).
Proof. reflexivity. Qed.

Lemma normalise_item_clamped t i : normalise_item t = Return i -> exists j, i = clamp j.
Proof.
  unfold normalise_item.
  match goal with |- context [match ?found with Return _ => _ | Raise _ => _ end] =>
    destruct found as [j|] end; intros Hn; simplify_eq.
  by exists j.
Qed.

Lemma normalise_one_inv t i : normalise [t] = Return (One i) -> normalise_item t = Return i.
Proof.
  unfold normalise. simpl. destruct (normalise_item t); simpl; congruence.
Qed.

Lemma low_level_names_keys k : k ∈ low_level_names <-> is_Some (WINAPI_REG_TYPES !! k).
Proof.
  rewrite <- elem_of_dom. unfold WINAPI_REG_TYPES. rewrite dom_list_to_map_L.
  rewrite elem_of_list_to_set. reflexivity.
Qed.

Lemma kind_names_keys k : k ∈ kind_names <-> is_Some (REG_VALUE_KINDS !! k).
Proof.
  rewrite <- elem_of_dom. unfold REG_VALUE_KINDS. rewrite dom_list_to_map_L.
  rewrite elem_of_list_to_set. reflexivity.
Qed.

Ltac each_member H :=
  repeat (apply elem_of_cons in H as [H|H]; [|]); [..|by apply elem_of_nil in H].

Ltac finish_name :=
  eexists; split; [vm_compute; reflexivity|apply (bool_decide_unpack _); vm_compute; exact I].

Lemma unsupported_names_codes k :
  k ∈ unsupported_names <->
  exists c, WINAPI_REG_TYPES !! k = Some c /\ c ∉ SUPPORTED_REG_TYPES.
Proof.
  split.
  - unfold unsupported_names. intros Hk.
    each_member Hk; subst k; eexists; (split; [vm_compute; reflexivity|]);
      intros Hc; apply (bool_decide_pack _) in Hc; vm_compute in Hc; exact Hc.
  - intros (c & Hc & Hn).
    assert (k ∈ low_level_names) as Hk by (apply low_level_names_keys; eauto).
    unfold low_level_names in Hk.
    each_member Hk; subst k; vm_compute in Hc; injection Hc as <-;
      first [ by apply (bool_decide_unpack _); vm_compute
            | exfalso; apply Hn; apply (bool_decide_unpack _); vm_compute; exact I ].
Qed.

(** Every spelling is accepted, and gives a supported code. *)
Lemma normalise_name s :
  spelled s ->
  exists i, normalise [TStr s] = Return (One i) /\ i ∈ SUPPORTED_REG_TYPES.
Proof.
  unfold spelled, normalise, normalise_loop, normalise_item.
  generalize (Str.upper (Str.strip s)). intros k [Hk|[Hk|Hk]].
  - unfold low_level_names in Hk. each_member Hk; subst k; finish_name.
  - unfold low_level_names in Hk.
    each_member Hk; vm_compute in Hk; injection Hk as ->; finish_name.
  - unfold kind_names in Hk. each_member Hk; subst k; finish_name.
Qed.

Lemma normalise_unsupported_name s :
  spelled_unsupported s -> normalise [TStr s] = Return (One 0).
Proof.
  unfold spelled_unsupported, normalise, normalise_loop, normalise_item.
  generalize (Str.upper (Str.strip s)). intros k [Hk|Hk].
  - unfold unsupported_names in Hk. each_member Hk; subst k; vm_compute; reflexivity.
  - unfold unsupported_names in Hk.
    each_member Hk; vm_compute in Hk; injection Hk as ->; vm_compute; reflexivity.
Qed.

Lemma get_name_int i pretty :
  get_name [TInt i] pretty =
    match REG_VALUE_KIND_NAMES !! clamp i with
    | None => Raise ValueError
    | Some t =>
        if pretty then
          match REG_FRIENDLY_NAMES !! t with
          | None => Raise ValueError
          | Some t => Return (One t)
          end
        else Return (One t)
    end.
Proof.
  unfold get_name, get_name_loop, get_name_item. rewrite normalise_int.
  destruct (REG_VALUE_KIND_NAMES !! clamp i) as [t|]; [|done].
  destruct pretty; [|done]. by destruct (REG_FRIENDLY_NAMES !! t).
Qed.

(** The kind name [NONE] (code -1) is shadowed by the low-level name
    [REG_NONE] (code 0). *)
Example normalise_none : normalise [TStr "None"] = Return (One 0).
Proof. reflexivity. Qed.

End RegTypesFacts.

(** C7: for every representation [t] of a registry type that [normalise]
    accepts, [normalise (normalise t) = normalise t]; and an integer code
    outside the supported set normalises to the sentinel 0. *)
Theorem normalise_idempotent (t : RegType) (i : Z) :
  RegTypes.normalise [t] = Return (One i) ->
  RegTypes.normalise [TInt i] = Return (One i)
  /\ (forall z, t = TInt z -> z ∉ RegTypes.SUPPORTED_REG_TYPES -> i = 0).
Proof.
  intros Hn. apply RegTypesFacts.normalise_one_inv in Hn. split.
  - apply RegTypesFacts.normalise_item_clamped in Hn as [j ->].
    rewrite RegTypesFacts.normalise_int. by rewrite RegTypesFacts.clamp_idem.
  - intros z -> Hz. unfold RegTypes.normalise_item in Hn.
    rewrite bool_decide_eq_false_2 in Hn by done. congruence.
Qed.

Lemma normalise_idempotent_witness :
  RegTypes.normalise [TStr " reg_dword "] = Return (One 4)
  /\ RegTypes.normalise [TInt 4] = Return (One 4)
  /\ (forall z, TStr " reg_dword " = TInt z -> z ∉ RegTypes.SUPPORTED_REG_TYPES -> 4 = 0).
Proof.
  split; [reflexivity|].
  apply (normalise_idempotent (TStr " reg_dword ") 4). reflexivity.
Defined.

(** C6, as the code has it: for every registry type given as an integer
    code, a low-level name or a kind name, [normalise] returns a supported
    code without raising, and it returns the code 0 of [UNKNOWN] when the type
    is unsupported; [get_name] of an unsupported code does not fail: it returns
    the name of code 0. *)
Theorem normalise_total_unknown_named (t : RegType) :
  representation t ->
  (exists i, RegTypes.normalise [t] = Return (One i)
             /\ i ∈ RegTypes.SUPPORTED_REG_TYPES)
  /\ (unsupported t ->
      RegTypes.normalise [t] = Return (One 0)
      /\ RegTypes.get_name [t] false = Return (One "UNKNOWN")
      /\ RegTypes.get_name [t] true = Return (One "Unknown")).
Proof.
  destruct t as [i|s|]; simpl; [intros _|intros Hs|done].
  - split.
    + exists (clamp i). split; [done|apply RegTypesFacts.clamp_supported].
    + intros Hi. rewrite !RegTypesFacts.get_name_int, RegTypesFacts.normalise_int.
      rewrite (RegTypesFacts.clamp_unsupported i Hi). done.
  - split; [by apply RegTypesFacts.normalise_name|].
    intros Hu. pose proof (RegTypesFacts.normalise_unsupported_name s Hu) as Hn.
    unfold RegTypes.get_name, RegTypes.get_name_loop, RegTypes.get_name_item.
    rewrite Hn. done.
Qed.

Lemma normalise_total_unknown_named_witness :
  representation (TInt 5)
  /\ unsupported (TInt 5)
  /\ RegTypes.get_name [TInt 5] false = Return (One "UNKNOWN").
Proof.
  assert (unsupported (TInt 5)) as Hu.
  { intros H5. apply (bool_decide_pack _) in H5. vm_compute in H5. exact H5. }
  split; [exact I|]. split; [exact Hu|].
  exact (proj1 (proj2 (proj2 (normalise_total_unknown_named (TInt 5) I) Hu))).
Defined.

(** C6 as worded fails: the unsupported code 5 ([REG_DWORD_BIG_ENDIAN]) has
    a name as far as [get_name] is concerned, and nothing is raised. *)
Lemma get_name_unsupported_code_returns :
  (5 ∉ RegTypes.SUPPORTED_REG_TYPES)
  /\ raised (RegTypes.get_name [TInt 5] false) = false
  /\ RegTypes.get_name [TInt 5] false = Return (One "UNKNOWN").
Proof.
  split; [|split; reflexivity].
  intros H5. apply (bool_decide_pack _) in H5. vm_compute in H5. exact H5.
Qed.

(** ** The device error classifier *)

Module ClassifierFacts.

Lemma char_eq_5 ic c : Re.char_eq ic "5" c = bool_decide ("5"%char = c).
Proof. destruct ic, c as [[] [] [] [] [] [] [] []]; reflexivity. Qed.

Lemma char_eq_0 ic c : Re.char_eq ic "0" c = bool_decide ("0"%char = c).
Proof. destruct ic, c as [[] [] [] [] [] [] [] []]; reflexivity. Qed.

Lemma matches_50 ic prev s :
  Re.matches ic (Re.lit "50") prev s Re.accept = Str.startswith "50" s.
Proof.
  unfold Str.startswith. simpl. destruct s as [|c s]; [done|]. simpl.
  rewrite char_eq_5. case_bool_decide; [|done].
  destruct s as [|d s]; [done|]. simpl.
  rewrite char_eq_0. by case_bool_decide.
Qed.

(** Searching for the pattern [50] is the substring test. *)
Lemma search_50 ic s : Re.search ic (Re.lit "50") s = Str.contains "50" s.
Proof.
  unfold Re.search. generalize (@None ascii).
  induction s as [|c s IH]; intros prev.
  - reflexivity.
  - cbn [Re.search_from Str.contains]. rewrite matches_50.
    destruct (Str.startswith "50" (String c s)); [done|]. apply IH.
Qed.

Section Scan.
Variable hit : Re.regex -> bool.

Lemma scan_no_hit errors m : no_hit hit m -> scan hit errors m = None.
Proof.
  induction 1 as [|[e ps] m Hps _ IH]; [done|]. simpl in *.
  rewrite Hps, IH. by case_bool_decide.
Qed.

Lemma scan_none_no_hit errors m :
  (forall e, e ∈ keys m -> e ∈ errors) -> scan hit errors m = None -> no_hit hit m.
Proof.
  induction m as [|[e ps] m IH]; intros Hk Hs; [constructor|].
  simpl in Hs. rewrite bool_decide_eq_true_2 in Hs.
  - destruct (existsb hit ps) eqn:Hps; [done|]. constructor; [done|].
    apply IH; [|done]. intros e' He'. apply Hk. unfold keys. simpl.
    apply elem_of_cons. by right.
  - apply Hk. unfold keys. simpl. apply elem_of_cons. by left.
Qed.

Lemma scan_app errors m1 m2 :
  scan hit errors m1 = None -> scan hit errors (m1 ++ m2) = scan hit errors m2.
Proof.
  induction m1 as [|[e ps] m1 IH]; [done|]. simpl.
  case_bool_decide; [destruct (existsb hit ps); [done|]|]; apply IH.
Qed.

Lemma scan_app_none errors m1 m2 :
  scan hit errors (m1 ++ m2) = None -> scan hit errors m1 = None.
Proof.
  induction m1 as [|[e ps] m1 IH]; [done|]. simpl.
  case_bool_decide; [destruct (existsb hit ps); [done|]|]; apply IH.
Qed.

(** Whatever is raised is a kind that was asked for. *)
Lemma scan_asked errors m e : scan hit errors m = Some e -> e ∈ errors /\ e ∈ keys m.
Proof.
  induction m as [|[e' ps] m IH]; [done|]. simpl. unfold keys. simpl.
  case_bool_decide as He'.
  - destruct (existsb hit ps).
    + intros [= <-]. split; [done|]. apply elem_of_cons. by left.
    + intros Hs. destruct (IH Hs). split; [done|]. apply elem_of_cons. by right.
  - intros Hs. destruct (IH Hs). split; [done|]. apply elem_of_cons. by right.
Qed.
End Scan.

Lemma pnp_map_split :
  pnp_errors.ERROR_MAP =
    take 3 pnp_errors.ERROR_MAP ++
    [(DevicePropertyExistsError,
      [ (WB @@ Re.lit "already" @@ SP @@ Re.lit "enabled" @@ WB)%re;
        (WB @@ Re.lit "already" @@ SP @@ Re.lit "disabled" @@ WB)%re;
        Re.lit "50" ])].
Proof. reflexivity. Qed.

End ClassifierFacts.

(** C10, as the code has it: the device classifier raises
    property-already-set whenever the text [50] occurs in the output or in
    [str(rc)], unless a kind earlier in the map (permission, cancelled,
    not-found) matches first or the kind is not among those asked for. *)
Theorem check_error_50 (output : string) (rc : option Z) (errors : Errors) :
  pnp_errors.check_error output rc (ErrorsList earlier) = None ->
  DevicePropertyExistsError ∈ asked pnp_errors.ERROR_MAP errors ->
  occurs "50" output \/ occurs "50" (Str.of_rc rc) ->
  pnp_errors.check_error output rc errors = Some DevicePropertyExistsError.
Proof.
  unfold pnp_errors.check_error. intros Hearly Hasked H50.
  set (hit := fun regex => _) in *.
  set (wanted := asked _ errors) in *.
  change (asked _ (ErrorsList earlier)) with earlier in Hearly.
  rewrite ClassifierFacts.pnp_map_split in Hearly |- *.
  apply ClassifierFacts.scan_app_none in Hearly.
  apply ClassifierFacts.scan_none_no_hit in Hearly.
  2:{ intros e He. vm_compute in He. exact He. }
  rewrite ClassifierFacts.scan_app by (by apply ClassifierFacts.scan_no_hit).
  cbn [scan]. rewrite bool_decide_eq_true_2 by done.
  assert (hit (Re.lit "50") = true) as H50'.
  { unfold hit. rewrite !ClassifierFacts.search_50.
    destruct H50 as [H50|H50]; apply contains_spec in H50; rewrite H50;
      [done|apply orb_true_r]. }
  cbn [existsb]. rewrite H50'. by rewrite !orb_true_r.
Qed.

Lemma check_error_50_witness :
  pnp_errors.check_error "ok" (Some 150) (ErrorsList earlier) = None
  /\ DevicePropertyExistsError ∈ asked pnp_errors.ERROR_MAP ErrorsNone
  /\ occurs "50" (Str.of_rc (Some 150))
  /\ pnp_errors.check_error "ok" (Some 150) ErrorsNone = Some DevicePropertyExistsError.
Proof.
  assert (DevicePropertyExistsError ∈ asked pnp_errors.ERROR_MAP ErrorsNone) as Hin.
  { apply (bool_decide_unpack _). vm_compute. exact I. }
  assert (occurs "50" (Str.of_rc (Some 150))) as H50 by (by exists "1", "").
  split; [reflexivity|]. split; [exact Hin|]. split; [exact H50|].
  apply (check_error_50 "ok" (Some 150) ErrorsNone); [reflexivity|exact Hin|by right].
Defined.

(** C10 as worded fails: with [50] in the output, an earlier kind wins. *)
Lemma check_error_50_not_always :
  occurs "50" "access denied, code 50"
  /\ pnp_errors.check_error "access denied, code 50" None ErrorsNone
     = Some DevicePermissionError.
Proof. split; [by exists "access denied, code ", ""|reflexivity]. Qed.

(** Return codes and output that have nothing to do with the device being
    in the requested state already. *)
Example check_error_rc_502 :
  pnp_errors.check_error "failed to enable device" (Some 502) ErrorsNone
  = Some DevicePropertyExistsError.
Proof. reflexivity. Qed.

Example check_error_unrelated_field :
  pnp_errors.check_error "instance id: hid\vid_04f3&pid_2507" None ErrorsNone
  = Some DevicePropertyExistsError.
Proof. reflexivity. Qed.

(** ** Stepping through a computation *)

Section Steps.
Context {World : Type}.
Implicit Types st : St World.

Lemma bind_return {A B} (m : M World A) (k : A -> M World B) st a st' :
  m st = (Return a, st') -> bind m k st = k a st'.
Proof. intros Hm. unfold bind. by rewrite Hm. Qed.

Lemma bind_raise {A B} (m : M World A) (k : A -> M World B) st e st' :
  m st = (Raise e, st') -> bind m k st = (Raise e, st').
Proof. intros Hm. unfold bind. by rewrite Hm. Qed.

Lemma try_return {A} (m : M World A) (h : Exn -> M World A) st a st' :
  m st = (Return a, st') -> try_except m h st = (Return a, st').
Proof. intros Hm. unfold try_except. by rewrite Hm. Qed.

Lemma try_raise {A} (m : M World A) (h : Exn -> M World A) st e st' :
  m st = (Raise e, st') -> try_except m h st = h e st'.
Proof. intros Hm. unfold try_except. by rewrite Hm. Qed.

Lemma yields_bind {A B} (m : M World A) (k : A -> M World B) a b :
  yields m a -> yields (k a) b -> yields (bind m k) b.
Proof.
  intros Hm Hk st. unfold bind. specialize (Hm st).
  destruct (m st) as [[a'|e] st']; simpl in Hm; [|done].
  injection Hm as ->. apply Hk.
Qed.

Lemma yields_ret {A} (a : A) : yields (World := World) (ret a) a.
Proof. by intros st. Qed.
End Steps.

(** ** Two levels of calls are all any call uses

    Every method calls itself only from a call that is not elevated, and
    then elevated: the depth bound of the model is never reached, and no
    result depends on it. *)

Section Depth.
Context {World : Type} `{Host World}.

Lemma run_ps_elevated_depth depth cmd auto_elevate propogate check :
  Run.run_ps_rec (S depth) cmd true auto_elevate propogate check
  = Run.run_ps_rec 1 cmd true auto_elevate propogate check.
Proof. cbn [Run.run_ps_rec]. rewrite andb_false_r. reflexivity. Qed.

Lemma run_ps_depth depth cmd elevate auto_elevate propogate check :
  Run.run_ps_rec (S (S depth)) cmd elevate auto_elevate propogate check
  = Run.run_ps cmd elevate auto_elevate propogate check.
Proof. unfold Run.run_ps. cbn [Run.run_ps_rec andb negb]. reflexivity. Qed.

Lemma get_reg_depth depth path name elevate auto_elevate :
  Reg.get_reg_rec (S (S depth)) path name elevate auto_elevate
  = Reg.get_reg path name elevate auto_elevate.
Proof. unfold Reg.get_reg. cbn [Reg.get_reg_rec andb negb]. reflexivity. Qed.

Lemma set_reg_depth depth path name value reg_type skip elevate auto_elevate :
  Reg.set_reg_rec (S (S depth)) path name value reg_type skip elevate auto_elevate
  = Reg.set_reg path name value reg_type skip elevate auto_elevate.
Proof.
  unfold Reg.set_reg. cbn [Reg.set_reg_rec Reg.after_mutation andb negb]. reflexivity.
Qed.

Lemma del_reg_depth depth path name elevate auto_elevate :
  Reg.del_reg_rec (S (S depth)) path name elevate auto_elevate
  = Reg.del_reg path name elevate auto_elevate.
Proof.
  unfold Reg.del_reg. cbn [Reg.del_reg_rec Reg.after_mutation andb negb]. reflexivity.
Qed.

Lemma get_device_depth depth self names get_all elevate auto_elevate :
  Model.get_device_rec (S (S depth)) self names get_all elevate auto_elevate
  = Model.get_device self names get_all elevate auto_elevate.
Proof. unfold Model.get_device. cbn [Model.get_device_rec andb negb]. reflexivity. Qed.

Lemma _toggle_depth depth self state mode elevate auto_elevate :
  Model._toggle_rec (S (S depth)) self state mode elevate auto_elevate
  = Model._toggle self state mode elevate auto_elevate.
Proof. unfold Model._toggle. cbn [Model._toggle_rec andb negb]. reflexivity. Qed.

End Depth.

(** ** The device model *)

(** C1: whatever the device state, the system-level value and the
    user-level value are, [user_active] is the entry of the precedence table:
    false for a disabled device; for an enabled one with the system value true
    or absent, false exactly when the user value is false; with the system
    value false, true exactly when the user value is true; and for the
    touchpad, which has no system key, false exactly when the user value is
    false. *)
Theorem user_active_precedence {World} `{Host World}
    (self : Device) (device : bool) (system user : option bool) :
  yields (Model.device_enabled self) device ->
  (device = true -> cls self <> Touchpad -> yields (Model.system_enabled self) system) ->
  (device = true -> yields (Model.user_enabled self) user) ->
  yields (Model.user_active self) (precedence_table (cls self) device system user).
Proof.
  intros Hdev Hsys Husr. unfold Model.user_active.
  eapply yields_bind; [exact Hdev|].
  destruct device; simpl; [|apply yields_ret].
  specialize (Husr eq_refl). specialize (Hsys eq_refl).
  intros st. unfold try_except, precedence_table. simpl.
  destruct self as [c observers]. simpl in *.
  destruct c.
  3:{ (* the touchpad: [system_enabled] raises *)
      unfold bind at 1. unfold Model.system_enabled at 1. simpl.
      unfold bind. specialize (Husr st).
      destruct (Model.user_enabled _ st) as [[u|e] st']; simpl in Husr; [|done].
      injection Husr as ->. by case_bool_decide. }
  all: specialize (Hsys ltac:(done)); unfold bind at 1; specialize (Hsys st);
    destruct (Model.system_enabled _ st) as [[s|e] st1]; simpl in Hsys; [|done];
    injection Hsys as ->;
    destruct system as [[]|]; simpl;
    unfold bind; specialize (Husr st1);
    (destruct (Model.user_enabled _ st1) as [[u|e] st']; simpl in Husr; [|done]);
    injection Husr as ->; destruct user as [[]|]; reflexivity.
Qed.

Lemma user_active_precedence_witness :
  yields (Model.device_enabled (H := Steady.host Demo.machine) Demo.touchscreen) true
  /\ yields (Model.system_enabled (H := Steady.host Demo.machine) Demo.touchscreen) (Some false)
  /\ yields (Model.user_enabled (H := Steady.host Demo.machine) Demo.touchscreen) (Some true)
  /\ yields (Model.user_active (H := Steady.host Demo.machine) Demo.touchscreen) true.
Proof.
  assert (yields (Model.device_enabled (H := Steady.host Demo.machine) Demo.touchscreen) true)
    as Hdev by (intros [w t]; vm_compute; reflexivity).
  assert (yields (Model.system_enabled (H := Steady.host Demo.machine) Demo.touchscreen)
            (Some false))
    as Hsys by (intros [w t]; vm_compute; reflexivity).
  assert (yields (Model.user_enabled (H := Steady.host Demo.machine) Demo.touchscreen)
            (Some true))
    as Husr by (intros [w t]; vm_compute; reflexivity).
  split; [exact Hdev|]. split; [exact Hsys|]. split; [exact Husr|].
  exact (user_active_precedence (H := Steady.host Demo.machine)
           Demo.touchscreen true (Some false) (Some true)
           Hdev (fun _ _ => Hsys) (fun _ => Husr)).
Defined.

(** The table, row by row. *)
Example precedence_rows :
  (forall c s u, precedence_table c false s u = false)
  /\ (forall u, precedence_table Touchscreen true (Some true) u
                = negb (bool_decide (u = Some false)))
  /\ (forall u, precedence_table Touchscreen true None u
                = negb (bool_decide (u = Some false)))
  /\ (forall u, precedence_table Touchscreen true (Some false) u
                = bool_decide (u = Some true))
  /\ (forall s u, precedence_table Touchpad true s u
                  = negb (bool_decide (u = Some false))).
Proof. repeat split; reflexivity. Qed.

(** C9: on a touchpad, [toggle] with mode [system] raises the
    invalid-operation error for every state, and leaves the state of the world
    and the trace as they were: no process is run, nobody is asked, nobody is
    notified. *)
Theorem toggle_touchpad_system {World} `{Host World}
    (observers : gset nat) (state : string) (elevate auto_elevate : bool) (st : St World) :
  Model.toggle {| cls := Touchpad; _observers := observers |} state Model.SYSTEM
    elevate auto_elevate st
  = (Raise DeviceInvalidOperationError, st).
Proof.
  set (self := {| cls := Touchpad; _observers := observers |}).
  assert (Model._check self state Model.SYSTEM = Raise AssertionError
          \/ Model._check self state Model.SYSTEM = Raise NotImplementedError) as Hcheck.
  { unfold Model._check, Model._check_base. simpl.
    repeat case_match; simplify_eq; auto. }
  unfold Model.toggle, Observable.observed, Model._toggle, Model._toggle_rec.
  unfold Model.handle_error, try_except, bind.
  destruct Hcheck as [-> | ->]; reflexivity.
Qed.

(** ** The command runner *)

Section RunFacts.
Context {World : Type} `{Host World}.

(** Running a process appends one event and moves the world. *)
Lemma run_process_eq cmd elevate propogate st reply w :
  subprocess_run (invocation cmd elevate propogate) (world st) = (reply, w) ->
  Run.run_process cmd elevate propogate st
  = (Return reply,
     {| world := w; trace := trace st ++ [EvRun (invocation cmd elevate propogate)] |}).
Proof.
  intros Hrun. unfold Run.run_process, call.
  fold (invocation cmd elevate propogate). by rewrite Hrun.
Qed.

Lemma ask_eq st granted w :
  Ask_elevate (world st) = (granted, w) ->
  Run.ask st = (Return granted, {| world := w; trace := trace st ++ [EvAsk granted] |}).
Proof. intros Hask. unfold Run.ask, call. by rewrite Hask. Qed.

(** An elevated call runs one process and nothing else. *)
Lemma run_ps_elevated_trace depth cmd auto_elevate propogate check st :
  trace (snd (Run.run_ps_rec (S depth) cmd true auto_elevate propogate check st))
  = trace st ++ [EvRun (invocation cmd true propogate)].
Proof.
  cbn [Run.run_ps_rec]. unfold bind at 1.
  destruct (subprocess_run (invocation cmd true propogate) (world st)) as [reply w] eqn:Hrun.
  rewrite (run_process_eq _ _ _ _ _ _ Hrun).
  unfold bind, lift, ret, raise. rewrite andb_false_r.
  repeat (case_match; simplify_eq/=; try done).
Qed.
End RunFacts.

(** C4: when the output of a run that is not elevated classifies as
    access-denied and [auto_elevate] is set, the consent dialog is shown once;
    if consent is given the command is run once more, elevated, and that is
    the result of the call (an elevated call never asks or retries); if it is
    declined the call raises [UserAbortedError] and no further process is
    run. *)
Theorem run_ps_elevates_once {World} `{Host World}
    (cmd : string) (propogate check : bool) (st : St World)
    (reply : Reply) (w1 : World) (granted : bool) (w2 : World) :
  let first := invocation cmd false propogate in
  let again := invocation cmd true true in
  subprocess_run first (world st) = (reply, w1) ->
  access_denied (res reply) ->
  Ask_elevate w1 = (granted, w2) ->
  let asked := {| world := w2; trace := trace st ++ [EvRun first; EvAsk granted] |} in
  let result := Run.run_ps cmd false true propogate check st in
  (if granted
   then result = Run.run_ps cmd true true true false asked
        /\ trace (snd result) = trace st ++ [EvRun first; EvAsk true; EvRun again]
   else result = (Raise UserAbortedError, asked)).
Proof.
  intros first again Hrun Hdenied Hask asked result.
  assert (result =
          (if granted then Run.run_ps_rec 1 cmd true true true false
           else raise UserAbortedError) asked) as ->.
  { unfold result, Run.run_ps. cbn [Run.run_ps_rec].
    unfold bind at 1. rewrite (run_process_eq _ _ _ _ _ _ Hrun).
    unfold bind at 1. unfold ret at 1.
    unfold access_denied in Hdenied. rewrite Hdenied.
    rewrite bool_decide_eq_true_2 by done. cbn [andb negb].
    unfold bind at 1.
    rewrite (ask_eq {| world := w1; trace := _ |} granted w2 Hask).
    cbn [world trace]. rewrite <- app_assoc. reflexivity. }
  destruct granted; [|reflexivity].
  split.
  - unfold Run.run_ps. by rewrite (run_ps_elevated_depth 1).
  - rewrite run_ps_elevated_trace. unfold asked. cbn [trace].
    by rewrite <- app_assoc.
Qed.

Lemma run_ps_elevates_once_witness :
  access_denied (res Scenario.denied)
  /\ trace (snd (Run.run_ps "whoami" false true true false Scenario.elevation))
     = [ EvRun (invocation "whoami" false true); EvAsk true;
         EvRun (invocation "whoami" true true) ].
Proof.
  split; [vm_compute; reflexivity|].
  pose proof (run_ps_elevates_once "whoami" true false Scenario.elevation
                Scenario.denied
                {| Scripted.script := [Scripted.says Scenario.silence];
                   Scripted.answers := [true]; Scripted.exchange := JBlank |}
                true
                {| Scripted.script := [Scripted.says Scenario.silence];
                   Scripted.answers := []; Scripted.exchange := JBlank |}) as Hw.
  cbv zeta in Hw.
  exact (proj2 (Hw ltac:(reflexivity) ltac:(vm_compute; reflexivity) ltac:(reflexivity))).
Defined.

(** Consent declined: [UserAbortedError], and the one process of the trace
    is the run that was denied. *)
Example run_ps_declined :
  let st := Scripted.start [Scripted.says Scenario.denied] [false] in
  fst (Run.run_ps "whoami" false true true false st) = Raise UserAbortedError
  /\ trace (snd (Run.run_ps "whoami" false true true false st))
     = [EvRun (invocation "whoami" false true); EvAsk false].
Proof. split; vm_compute; reflexivity. Qed.

(** ** The registry accessor *)

(** C2, at the failing case: when the key path does not exist (the lookup
    of the value finds nothing and both path tests answer false), [set_reg]
    with a named value raises the fatal error of its guard after the second
    test; it creates nothing. *)
Theorem set_reg_missing_path_raises {World} `{Host World}
    (path name : string) (value : RegData) (reg_type : RegType)
    (skip elevate auto_elevate : bool) (st0 st1 st2 st3 : St World) :
  (if skip
   then Reg.get_reg path name elevate auto_elevate st0
        = (Raise RegistryItemNotFoundError, st1)
   else st1 = st0) ->
  Reg.test_reg path None elevate auto_elevate st1 = (Return false, st2) ->
  Reg.test_reg path None elevate auto_elevate st2 = (Return false, st3) ->
  Reg.set_reg path (Some name) (Some value) (Some reg_type) skip elevate auto_elevate st0
  = (Raise RuntimeError, st3).
Proof.
  intros Hget Htest1 Htest2.
  unfold Reg.set_reg. cbn [Reg.set_reg_rec].
  unfold Reg.handle_error.
  match goal with |- try_except ?m _ _ = _ =>
    assert (m st0 = (Raise RuntimeError, st3)) as Hbody end;
    [|by rewrite (try_raise _ _ _ _ _ Hbody)].
  erewrite bind_return by reflexivity.
  erewrite bind_return.
  2:{ destruct skip.
      - erewrite try_raise by (erewrite bind_raise by exact Hget; reflexivity).
        reflexivity.
      - subst st1. reflexivity. }
  cbn beta iota.
  erewrite bind_return by exact Htest1. cbn beta iota.
  erewrite bind_return by exact Htest2. reflexivity.
Qed.

Lemma set_reg_missing_path_raises_witness :
  Reg.test_reg Scenario.path None false true
    (Scenario.after (Reg.get_reg Scenario.path Scenario.name false true) Scenario.fresh_path)
  = (Return false,
     Scenario.after (Reg.test_reg Scenario.path None false true)
       (Scenario.after (Reg.get_reg Scenario.path Scenario.name false true)
          Scenario.fresh_path))
  /\ fst (Reg.set_reg Scenario.path (Some Scenario.name) (Some (DInt 1)) (Some (TInt 4))
           true false true Scenario.fresh_path)
     = Raise RuntimeError.
Proof.
  set (st1 := Scenario.after (Reg.get_reg Scenario.path Scenario.name false true)
                Scenario.fresh_path).
  set (st2 := Scenario.after (Reg.test_reg Scenario.path None false true) st1).
  set (st3 := Scenario.after (Reg.test_reg Scenario.path None false true) st2).
  assert (Reg.test_reg Scenario.path None false true st1 = (Return false, st2)) as H1
    by (vm_compute; reflexivity).
  split; [exact H1|].
  rewrite (set_reg_missing_path_raises Scenario.path Scenario.name (DInt 1) (TInt 4)
             true false true Scenario.fresh_path st1 st2 st3);
    [reflexivity|vm_compute; reflexivity|exact H1|vm_compute; reflexivity].
Defined.

(** On a missing path the processes run are the lookup and the two path
    tests: no [New-Item]. *)
Example set_reg_missing_path_runs :
  runs (trace (snd (Reg.set_reg Scenario.path (Some Scenario.name) (Some (DInt 1))
                      (Some (TInt 4)) true false true Scenario.fresh_path)))
  = [ invocation (Reg.get_script Scenario.path Scenario.name "tmp0") false true;
      invocation (Reg.test_path_cmd Scenario.path) false true;
      invocation (Reg.test_path_cmd Scenario.path) false true ].
Proof. vm_compute. reflexivity. Qed.

(** The guard the wrong way round: [New-Item -Force] is issued exactly
    when the second test finds the key. *)
Example set_reg_guard_lets_existing_key_through :
  fst (Reg.set_reg Scenario.path (Some Scenario.name) (Some (DInt 1)) (Some (TInt 4))
         true false true Scenario.racing_path) = Return tt
  /\ last (runs (trace (snd (Reg.set_reg Scenario.path (Some Scenario.name) (Some (DInt 1))
                               (Some (TInt 4)) true false true Scenario.racing_path))))
     = Some (invocation
               (Reg.new_item_cmd Scenario.path (Some (Scenario.name, DInt 1, "DWORD")))
               false true).
Proof. split; vm_compute; reflexivity. Qed.

(** A retry of [set_reg] for a named value has lost value and type. *)
Lemma set_reg_retry_raises {World} `{Host World} depth path name (st : St World) :
  Reg.set_reg_rec (S depth) path (Some name) None None true true true st
  = (Raise ValueError, st).
Proof. reflexivity. Qed.

(** C5, at the failing case: when the elevated run is denied as well and
    consent is given again, the retry of [set_reg] is called without value and
    type, and raises [ValueError] before any process is run. *)
Theorem set_reg_retry_drops_value {World} `{Host World}
    (path name : string) (value : RegData) (reg_type : RegType) (tn : string)
    (skip : bool) (st0 st1 st2 st3 st4 : St World) (rc : Z) (out err : string) :
  RegTypes.get_name [reg_type] false = Return (One tn) ->
  (if skip
   then Reg.get_reg path name false true st0 = (Raise RegistryItemNotFoundError, st1)
   else st1 = st0) ->
  Reg.test_reg path None false true st1 = (Return true, st2) ->
  Run.run_ps (Reg.set_item_property_cmd path name value tn) false true true false st2
  = (Return (rc, out, err), st3) ->
  Reg.has_output out err = true ->
  reg_errors.check_error (out +:+ LF +:+ err) None ErrorsNone = Some RegistryPermissionError ->
  Run.ask st3 = (Return true, st4) ->
  Reg.set_reg path (Some name) (Some value) (Some reg_type) skip false true st0
  = (Raise ValueError, st4).
Proof.
  intros Hname Hget Htest Hrun Hout Hdenied Hask.
  unfold Reg.set_reg. cbn [Reg.set_reg_rec].
  unfold Reg.handle_error at 1.
  match goal with |- try_except ?m _ _ = _ =>
    assert (m st0 = (Raise ValueError, st4)) as Hbody end;
    [|by rewrite (try_raise _ _ _ _ _ Hbody)].
  erewrite bind_return by reflexivity.
  erewrite bind_return.
  2:{ destruct skip.
      - erewrite try_raise by (erewrite bind_raise by exact Hget; reflexivity).
        reflexivity.
      - subst st1. reflexivity. }
  cbn beta iota.
  erewrite bind_return by exact Htest. cbn beta iota.
  unfold Reg.type_name. rewrite Hname.
  erewrite bind_return by reflexivity.
  erewrite bind_return by exact Hrun. cbn beta iota.
  unfold Reg.after_mutation. rewrite Hout, Hdenied.
  rewrite bool_decide_eq_true_2 by done. cbn [andb negb].
  erewrite bind_return by exact Hask. cbn beta iota.
  reflexivity.
Qed.

Lemma set_reg_retry_drops_value_witness :
  fst (Reg.set_reg Scenario.path (Some Scenario.name) (Some (DInt 1)) (Some (TInt 4))
         true false true Scenario.locked_key)
  = Raise ValueError
  /\ trace (snd (Reg.set_reg Scenario.path (Some Scenario.name) (Some (DInt 1))
                   (Some (TInt 4)) true false true Scenario.locked_key))
     = [ EvRun (invocation (Reg.get_script Scenario.path Scenario.name "tmp0") false true);
         EvRun (invocation (Reg.test_path_cmd Scenario.path) false true);
         EvRun (invocation
                  (Reg.set_item_property_cmd Scenario.path Scenario.name (DInt 1) "DWORD")
                  false true);
         EvAsk true;
         EvRun (invocation
                  (Reg.set_item_property_cmd Scenario.path Scenario.name (DInt 1) "DWORD")
                  true true);
         EvAsk true ].
Proof.
  set (st1 := Scenario.after (Reg.get_reg Scenario.path Scenario.name false true)
                Scenario.locked_key).
  set (st2 := Scenario.after (Reg.test_reg Scenario.path None false true) st1).
  set (st3 := Scenario.after
                (Run.run_ps (Reg.set_item_property_cmd Scenario.path Scenario.name
                               (DInt 1) "DWORD") false true true false) st2).
  set (st4 := Scenario.after Run.ask st3).
  rewrite (set_reg_retry_drops_value Scenario.path Scenario.name (DInt 1) (TInt 4) "DWORD"
             true Scenario.locked_key st1 st2 st3 st4
             1 "" "Set-ItemProperty : Access is denied.");
    [split; [reflexivity|vm_compute; reflexivity] | try (vm_compute; reflexivity) ..].
Defined.

(** When the elevated run goes through, it is [Run.run_ps] that has run the
    same command again, and [set_reg] returns. *)
Example set_reg_elevated_by_run_ps :
  fst (Reg.set_reg Scenario.path (Some Scenario.name) (Some (DInt 1)) (Some (TInt 4))
         true false true Scenario.guarded_key) = Return tt
  /\ drop 2 (trace (snd (Reg.set_reg Scenario.path (Some Scenario.name) (Some (DInt 1))
                           (Some (TInt 4)) true false true Scenario.guarded_key)))
     = [ EvRun (invocation
                  (Reg.set_item_property_cmd Scenario.path Scenario.name (DInt 1) "DWORD")
                  false true);
         EvAsk true;
         EvRun (invocation
                  (Reg.set_item_property_cmd Scenario.path Scenario.name (DInt 1) "DWORD")
                  true true) ].
Proof. split; vm_compute; reflexivity. Qed.

(** ** Enumeration blocks *)

Section BlockFacts.

Lemma set_in_last_snoc k v blocks d :
  Model.set_in_last k v (blocks ++ [d]) = blocks ++ [<[Str.strip k := Str.strip v]> d].
Proof.
  unfold Model.set_in_last. rewrite length_app. simpl.
  replace (pred (length blocks + 1)) with (length blocks + 0)%nat by lia.
  rewrite alter_app_r. reflexivity.
Qed.

Lemma add_lines blocks d lines :
  fold_left
    (fun blocks l =>
       match Str.split1 ":" l with
       | Some (k, v) => Model.set_in_last k v blocks
       | None => blocks
       end) lines (blocks ++ [d])
  = blocks ++
    [fold_left (fun d kv => <[kv.1 := kv.2]> d)
       (omap (fun l =>
                match Str.split1 ":" l with
                | Some (k, v) => Some (Str.strip k, Str.strip v)
                | None => None
                end) lines) d].
Proof.
  revert d. induction lines as [|l lines IH]; intros d; [done|].
  simpl. destruct (Str.split1 ":" l) as [[k v]|]; simpl.
  - rewrite set_in_last_snoc. apply IH.
  - apply IH.
Qed.

Lemma add_fields_snoc b blocks :
  Model.add_fields b (blocks ++ [∅]) = blocks ++ [parse b].
Proof. apply add_lines. Qed.

Lemma collect_from names _blocks blocks :
  fold_left
    (fun blocks b =>
       if Model.wanted names b then Model.add_fields b (blocks ++ [∅]) else blocks)
    _blocks blocks
  = blocks ++ (parse <$> filter (fun b => Model.wanted names b = true) _blocks).
Proof.
  revert blocks. induction _blocks as [|b rest IH]; intros blocks.
  - simpl. by rewrite app_nil_r.
  - simpl. rewrite filter_cons. destruct (Model.wanted names b) eqn:Hw.
    + rewrite decide_True by done. rewrite add_fields_snoc, IH.
      rewrite fmap_cons. by rewrite <- app_assoc.
    + rewrite decide_False by done. apply IH.
Qed.

(** The loops of [get_device] keep the wanted blocks, in order, each as
    its field map. *)
Lemma collect_filter names _blocks :
  Model.collect names _blocks
  = parse <$> filter (fun b => Model.wanted names b = true) _blocks.
Proof. unfold Model.collect. by rewrite collect_from. Qed.

(** A block is wanted when one of the names occurs in it, letter case
    aside, and it has a colon. *)
Lemma wanted_spec names b :
  Model.wanted names b = true <->
  (exists n, n ∈ names /\ occurs (Str.lower n) (Str.lower b))
  /\ Str.has_char ":" b = true.
Proof.
  unfold Model.wanted. rewrite andb_true_iff, existsb_exists.
  setoid_rewrite <- list_elem_of_In. setoid_rewrite contains_spec. reflexivity.
Qed.

Lemma kept_spec names out b :
  b ∈ kept names out <->
  b ∈ Str.split (LF +:+ LF) out
  /\ (exists n, n ∈ names /\ occurs (Str.lower n) (Str.lower b))
  /\ Str.has_char ":" b = true.
Proof. unfold kept. rewrite list_elem_of_filter, wanted_spec. tauto. Qed.

End BlockFacts.

(** When the enumeration ran and the device error classifier finds
    nothing in its output, [get_device] without [get_all] splits the output at
    blank lines, keeps the blocks that contain one of the names
    (case-insensitively) and a colon, and returns the field map of the only
    block kept; with no block or several it raises [DeviceNotFoundError]. *)
Theorem get_device_one_block {World} `{Host World}
    (self : Device) (names : Names) (elevate auto_elevate : bool)
    (st st' : St World) (rc : Z) (out err : string) :
  Run.run_ps Model.enum_cmd elevate false true false st = (Return (rc, out, err), st') ->
  pnp_errors.check_error (Str.strip (Str.lower (out +:+ LF +:+ err))) None ErrorsNone = None ->
  Model.get_device self names false elevate auto_elevate st
  = (match kept (names_of self names) out with
     | [b] => Return (Dict (parse b))
     | _ => Raise DeviceNotFoundError
     end, st').
Proof.
  intros Hrun Hclass.
  unfold Model.get_device. cbn [Model.get_device_rec]. unfold Model.handle_error.
  fold (names_of self names).
  match goal with |- try_except ?m _ _ = (?r, _) =>
    assert (m st = (r, st')) as Hbody end.
  { erewrite bind_return by exact Hrun. cbn beta iota zeta.
    rewrite Hclass, collect_filter.
    fold (kept (names_of self names) out).
    destruct (kept _ out) as [|b [|b' rest]]; reflexivity. }
  destruct (kept _ out) as [|b [|b' rest]];
    first [ by rewrite (try_return _ _ _ _ _ Hbody)
          | by rewrite (try_raise _ _ _ _ _ Hbody) ].
Qed.

Lemma get_device_one_block_witness :
  kept (Model.DEVICE_NAMES Touchscreen) Demo.listing = [Demo.touchscreen_block]
  /\ (exists d,
        fst (Model.get_device Demo.touchscreen NamesNone false false true
               Scenario.already_enabled) = Return (Dict d)
        /\ d !! "Instance ID" = Some Demo.instance_id
        /\ d !! "Status" = Some "Started").
Proof.
  split; [vm_compute; reflexivity|].
  set (st' := Scenario.after (Run.run_ps Model.enum_cmd false false true false)
                Scenario.already_enabled).
  rewrite (get_device_one_block Demo.touchscreen NamesNone false true
             Scenario.already_enabled st' 0 Demo.listing "");
    [|vm_compute; reflexivity..].
  eexists. split; [vm_compute; reflexivity|]. split; vm_compute; reflexivity.
Defined.

(** A refused enumeration has no matching block, and [get_device] raises
    the permission error, not [DeviceNotFoundError]. *)
Example get_device_refused_not_device_not_found :
  kept (Model.DEVICE_NAMES Touchscreen) "" = []
  /\ fst (Model.get_device Demo.touchscreen NamesNone false false false Scenario.refused)
     = Raise DevicePermissionError
  /\ trace (snd (Model.get_device Demo.touchscreen NamesNone false false false
                   Scenario.refused))
     = [EvRun (invocation Model.enum_cmd false true)].
Proof. split; [|split]; vm_compute; reflexivity. Qed.

(** C8: [get_device] runs the classifier on the whole listing before it
    looks at any block, and the classifier's pattern [50], meant for an error
    code, matches those digits wherever they stand: a listing in which the
    classifier finds property-exists makes [get_device] raise
    [DevicePropertyExistsError], whatever its blocks are, also when exactly one
    block matches the device. *)
Theorem get_device_50_hides_block {World} `{Host World}
    (self : Device) (names : Names) (get_all elevate auto_elevate : bool)
    (st st' : St World) (rc : Z) (out err : string) :
  Run.run_ps Model.enum_cmd elevate false true false st = (Return (rc, out, err), st') ->
  pnp_errors.check_error (Str.strip (Str.lower (out +:+ LF +:+ err))) None ErrorsNone
  = Some DevicePropertyExistsError ->
  Model.get_device self names get_all elevate auto_elevate st
  = (Raise DevicePropertyExistsError, st').
Proof.
  intros Hrun Hclass.
  unfold Model.get_device. cbn [Model.get_device_rec]. unfold Model.handle_error.
  match goal with |- try_except ?m _ _ = _ =>
    assert (m st = (Raise DevicePropertyExistsError, st')) as Hbody end.
  { erewrite bind_return by exact Hrun. cbn beta iota zeta.
    rewrite Hclass. reflexivity. }
  by rewrite (try_raise _ _ _ _ _ Hbody).
Qed.

(** The touch screen is listed once, beside a keyboard whose vendor id is
    1050. *)
Lemma get_device_50_hides_block_witness :
  let listing :=
    Demo.listing +:+ LF +:+
    "Instance ID:                HID\VID_1050&PID_0407" +:+ LF +:+
    "Device Description:         HID Keyboard Device" +:+ LF +:+
    "Status:                     Started" +:+ LF in
  let st := Scripted.start [Scripted.says (plain 0 listing "")] [] in
  kept (Model.DEVICE_NAMES Touchscreen) listing = [Demo.touchscreen_block]
  /\ fst (Model.get_device Demo.touchscreen NamesNone false false true st)
     = Raise DevicePropertyExistsError.
Proof.
  intros listing st. split; [vm_compute; reflexivity|].
  rewrite (get_device_50_hides_block Demo.touchscreen NamesNone false false true st
             (Scenario.after (Run.run_ps Model.enum_cmd false false true false) st)
             0 listing "");
    [reflexivity|vm_compute; reflexivity..].
Defined.

(** The listing of the spec's scenario: one matching block with
    [Status: Started]. *)
Example device_properties_started :
  fst (Model.device_enabled Demo.touchscreen Scenario.already_enabled) = Return true
  /\ fst (Model.device_running Demo.touchscreen Scenario.already_enabled) = Return true
  /\ fst (Model.device_exists Demo.touchscreen Scenario.already_enabled) = Return true.
Proof. split; [|split]; vm_compute; reflexivity. Qed.

(** ** Notifications *)

Create HintDb quiet.

Section Quiet.
Context {World : Type} `{Host World}.

Lemma quiet_ret {A} (a : A) : quiet (World := World) (ret a).
Proof. intros st. exists []. by rewrite app_nil_r. Qed.

Lemma quiet_raise {A} e : quiet (World := World) (raise (A := A) e).
Proof. intros st. exists []. by rewrite app_nil_r. Qed.

Lemma quiet_lift {A} (o : Outcome A) : quiet (World := World) (lift o).
Proof. destruct o; [apply quiet_ret|apply quiet_raise]. Qed.

Lemma quiet_bind {A B} (m : M World A) (k : A -> M World B) :
  quiet m -> (forall a, quiet (k a)) -> quiet (bind m k).
Proof.
  intros Hm Hk st. unfold bind. destruct (Hm st) as (evs & Ht & Hs).
  destruct (m st) as [[a|e] st1]; simpl in *; [|by eauto].
  destruct (Hk a st1) as (evs' & Ht' & Hs').
  exists (evs ++ evs'). rewrite Ht', Ht, app_assoc. split; [done|].
  by apply Forall_app.
Qed.

Lemma quiet_try {A} (m : M World A) (h : Exn -> M World A) :
  quiet m -> (forall e, quiet (h e)) -> quiet (try_except m h).
Proof.
  intros Hm Hh st. unfold try_except. destruct (Hm st) as (evs & Ht & Hs).
  destruct (m st) as [[a|e] st1]; simpl in *; [by eauto|].
  destruct (Hh e st1) as (evs' & Ht' & Hs').
  exists (evs ++ evs'). rewrite Ht', Ht, app_assoc. split; [done|].
  by apply Forall_app.
Qed.

Lemma quiet_call {A} (f : World -> A * World) (log : A -> list Event) :
  (forall a, Forall silent (log a)) -> quiet (call f log).
Proof.
  intros Hlog st. unfold call. destruct (f (world st)) as [a w]. simpl. eauto.
Qed.

Lemma quiet_read {A} (f : St World -> A) : quiet (fun st => (Return (f st), st)).
Proof. intros st. exists []. by rewrite app_nil_r. Qed.

Ltac quiet_step :=
  lazymatch goal with
  | |- quiet (ret _) => apply quiet_ret
  | |- quiet (raise _) => apply quiet_raise
  | |- quiet (lift _) => apply quiet_lift
  | |- quiet (bind _ _) => apply quiet_bind; [|intros ?]
  | |- quiet (try_except _ _) => apply quiet_try; [|intros ?]
  | |- quiet (call _ _) => apply quiet_call; intros ?; repeat constructor
  | |- quiet (fun st => (Return _, st)) => apply quiet_read
  | |- quiet (if ?b then _ else _) => destruct b
  | |- quiet (match ?x with _ => _ end) => destruct x
  | |- quiet _ => first [solve [auto with quiet] | case_match]
  end.
Ltac quiet_auto := repeat quiet_step.

Lemma quiet_run_process cmd elevate propogate :
  quiet (Run.run_process cmd elevate propogate).
Proof. unfold Run.run_process. quiet_auto. Qed.

Lemma quiet_ask : quiet Run.ask.
Proof. unfold Run.ask. quiet_auto. Qed.
#[local] Hint Resolve quiet_run_process quiet_ask : quiet.

Lemma quiet_run_ps_rec depth cmd elevate auto_elevate propogate check :
  quiet (Run.run_ps_rec depth cmd elevate auto_elevate propogate check).
Proof.
  revert elevate auto_elevate propogate check.
  induction depth as [|depth IH]; intros; cbn [Run.run_ps_rec]; [apply quiet_raise|].
  quiet_auto.
Qed.
#[local] Hint Resolve quiet_run_ps_rec : quiet.

Lemma quiet_get_reg_rec depth path name elevate auto_elevate :
  quiet (Reg.get_reg_rec depth path name elevate auto_elevate).
Proof.
  revert elevate auto_elevate.
  induction depth as [|depth IH]; intros; cbn [Reg.get_reg_rec]; [apply quiet_raise|].
  unfold Reg.handle_error, Run.run_ps. quiet_auto.
Qed.
#[local] Hint Resolve quiet_get_reg_rec : quiet.

Lemma quiet_test_reg path name elevate auto_elevate :
  quiet (Reg.test_reg path name elevate auto_elevate).
Proof. unfold Reg.test_reg, Reg.handle_error, Reg.get_reg, Run.run_ps. quiet_auto. Qed.
#[local] Hint Resolve quiet_test_reg : quiet.

Lemma quiet_after_mutation out err elevate auto_elevate retry :
  quiet retry -> quiet (Reg.after_mutation out err elevate auto_elevate retry).
Proof. intros Hretry. unfold Reg.after_mutation. quiet_auto. Qed.
#[local] Hint Resolve quiet_after_mutation : quiet.

Lemma quiet_set_reg_rec depth path name value reg_type skip elevate auto_elevate :
  quiet (Reg.set_reg_rec depth path name value reg_type skip elevate auto_elevate).
Proof.
  revert name value reg_type skip elevate auto_elevate.
  induction depth as [|depth IH]; intros; cbn [Reg.set_reg_rec]; [apply quiet_raise|].
  unfold Reg.handle_error, Reg.type_name, Reg.get_reg, Run.run_ps. quiet_auto.
Qed.
#[local] Hint Resolve quiet_set_reg_rec : quiet.

Lemma quiet_del_reg_rec depth path name elevate auto_elevate :
  quiet (Reg.del_reg_rec depth path name elevate auto_elevate).
Proof.
  revert elevate auto_elevate.
  induction depth as [|depth IH]; intros; cbn [Reg.del_reg_rec]; [apply quiet_raise|].
  unfold Reg.handle_error, Run.run_ps. quiet_auto.
Qed.
#[local] Hint Resolve quiet_del_reg_rec : quiet.

Lemma quiet_get_device_rec depth self names get_all elevate auto_elevate :
  quiet (Model.get_device_rec depth self names get_all elevate auto_elevate).
Proof.
  revert names elevate auto_elevate.
  induction depth as [|depth IH]; intros; cbn [Model.get_device_rec]; [apply quiet_raise|].
  unfold Model.handle_error, Run.run_ps. quiet_auto.
Qed.
#[local] Hint Resolve quiet_get_device_rec : quiet.





(** [observed]: [notify] follows a normal return and nothing else; what
    [notify] raises is raised by the decorated method. *)
Lemma observed_trace {A} self (f : M World A) st :
  match fst (f st) with
  | Return a =>
      Observable.observed self f st
      = (match fst (Observable.notify self (snd (f st))) with
         | Return _ => Return a
         | Raise e => Raise e
         end, snd (Observable.notify self (snd (f st))))
  | Raise e => Observable.observed self f st = f st
  end.
Proof.
  unfold Observable.observed, bind.
  destruct (f st) as [[a|e] st1]; [|reflexivity]. cbn [fst snd].
  by destruct (Observable.notify self st1) as [[[]|e] st2].
Qed.
End Quiet.



Lemma notifications_notification self : notifications (notification self) = 1%nat.
Proof.
  unfold notification, notifications. rewrite filter_cons, decide_True by done.
  simpl. f_equal. induction (elements (_observers self)) as [|o l IH]; [done|].
  rewrite fmap_cons, filter_cons, decide_False by done. exact IH.
Qed.







(** An elevated retry inside [_toggle]: still one notification, at the
    end. *)
Example toggle_retry_notifies_once :
  let st := Scripted.start
              [ Scripted.says (plain 0 Demo.listing "");
                Scripted.says (plain 5 "" "Access is denied.");
                Scripted.says (plain 0 Demo.listing "");
                Scripted.says (captured "0" "Device disabled successfully." "") ]
              [true] in
  let outer := Model.toggle Demo.touchscreen Model.DISABLE Model.DEVICE false true st in
  fst outer = Return tt
  /\ notifications (trace (snd outer)) = 1%nat
  /\ last (trace (snd outer)) = Some (EvUpdate 1)
  /\ length (runs (trace (snd outer))) = 4%nat.
Proof. split; [|split; [|split]]; vm_compute; reflexivity. Qed.

(** ** Escaping and classification *)

(** X1: escaping is reversible.  Reading the result of [safe_path] as the
    body of a single-quoted literal, two quotes for one, gives the path back:
    no quote of the path is left on its own to end the literal. *)
Theorem safe_path_round_trip (path : string) :
  unescape (Run.safe_path path) = Some path.
Proof.
  unfold Run.safe_path. induction path as [|c path IH]; [done|].
  cbn [Run.replace_apos]. case_bool_decide as Hc.
  - subst c. cbn [unescape]. rewrite !bool_decide_eq_true_2 by done.
    by rewrite IH.
  - cbn [unescape]. rewrite bool_decide_eq_false_2 by done. by rewrite IH.
Qed.

Module CaseFacts.

Ltac each_char c := destruct c as [[] [] [] [] [] [] [] []]; reflexivity.

Lemma lower_char_idem c : Str.lower_char (Str.lower_char c) = Str.lower_char c.
Proof. each_char c. Qed.

Lemma is_space_lower c : Str.is_space (Str.lower_char c) = Str.is_space c.
Proof. each_char c. Qed.

Lemma is_word_lower c : Str.is_word (Str.lower_char c) = Str.is_word c.
Proof. each_char c. Qed.

Lemma is_lf_lower c :
  Nat.eqb (Str.code (Str.lower_char c)) 10 = Nat.eqb (Str.code c) 10.
Proof. each_char c. Qed.

Lemma existsb_ext {A} (f g : A -> bool) l :
  (forall a, f a = g a) -> existsb f l = existsb g l.
Proof. intros Hfg. induction l as [|a l IH]; [done|]. simpl. by rewrite Hfg, IH. Qed.

Lemma char_eq_lower p c : Re.char_eq true p (Str.lower_char c) = Re.char_eq true p c.
Proof. unfold Re.char_eq. by rewrite lower_char_idem. Qed.

Lemma length_lower s : String.length (Str.lower s) = String.length s.
Proof. unfold Str.lower. induction s as [|c s IH]; [done|]. simpl. by rewrite IH. Qed.

Lemma word_opt_lower p : Re.word_opt (Str.lower_char <$> p) = Re.word_opt p.
Proof. destruct p as [c|]; [apply is_word_lower|done]. Qed.

Lemma head_lower s : Re.head (Str.lower s) = Str.lower_char <$> Re.head s.
Proof. by destruct s. Qed.

Lemma step_lower f f' s k k' :
  (forall c, f' (Str.lower_char c) = f c) -> agree k' k ->
  Re.step f' (Str.lower s) k' = Re.step f s k.
Proof.
  intros Hf Hk. destruct s as [|c s]; [done|]. simpl. rewrite Hf.
  destruct (f c); [|done]. apply (Hk (Some c)).
Qed.

Lemma matches_lower r : forall prev s k k',
  agree k' k ->
  Re.matches true r (Str.lower_char <$> prev) (Str.lower s) k' = Re.matches true r prev s k.
Proof.
  induction r as [p| | |cs| | |r1 IH1 r2 IH2|r1 IH1|r1 IH1|r1 IH1]; intros prev s k k' Hk.
  - apply step_lower; [apply char_eq_lower|done].
  - apply step_lower; [|done]. intros c. by rewrite is_lf_lower.
  - apply step_lower; [apply is_space_lower|done].
  - apply step_lower; [|done]. intros c. apply existsb_ext. intros p. apply char_eq_lower.
  - cbn [Re.matches]. rewrite word_opt_lower, head_lower, word_opt_lower, Hk. reflexivity.
  - apply Hk.
  - cbn [Re.matches]. apply IH1. intros p t. by apply IH2.
  - cbn [Re.matches]. rewrite (IH1 prev s k k' Hk), Hk. reflexivity.
  - cbn [Re.matches]. rewrite length_lower. generalize (String.length s) as fuel.
    intros fuel. revert prev s. induction fuel as [|fuel IHf]; intros prev s.
    + rewrite Hk. reflexivity.
    + rewrite Hk. destruct (k prev s); [done|].
      apply IH1. intros p t. rewrite !length_lower, IHf. reflexivity.
  - cbn [Re.matches]. apply IH1. intros p0 s0. rewrite length_lower.
    generalize (String.length s0) as fuel.
    intros fuel. revert p0 s0. induction fuel as [|fuel IHf]; intros p0 s0.
    + rewrite Hk. reflexivity.
    + rewrite Hk. destruct (k p0 s0); [done|].
      apply IH1. intros p t. rewrite !length_lower, IHf. reflexivity.
Qed.

Lemma search_from_lower r prev s :
  Re.search_from true r (Str.lower_char <$> prev) (Str.lower s) = Re.search_from true r prev s.
Proof.
  revert prev. induction s as [|c s IH]; intros prev.
  - cbn [Re.search_from Str.lower Str.map].
    change EmptyString with (Str.lower EmptyString) at 1.
    rewrite (matches_lower r prev "" Re.accept Re.accept); [done|by intros ? ?].
  - change (Str.lower (String c s)) with (String (Str.lower_char c) (Str.lower s)).
    cbn [Re.search_from].
    change (String (Str.lower_char c) (Str.lower s)) with (Str.lower (String c s)).
    rewrite (matches_lower r prev (String c s) Re.accept Re.accept) by (by intros ? ?).
    destruct (Re.matches true r prev (String c s) Re.accept); [done|].
    apply (IH (Some c)).
Qed.

(** A case-insensitive search does not see the letter case of the text. *)
Lemma search_lower r s : Re.search true r (Str.lower s) = Re.search true r s.
Proof. apply (search_from_lower r None). Qed.

Lemma scan_ext hit hit' errors m :
  (forall r, hit r = hit' r) -> scan hit errors m = scan hit' errors m.
Proof.
  intros Hh. induction m as [|[e ps] m IH]; [done|]. simpl.
  rewrite IH, (existsb_ext _ _ ps Hh). reflexivity.
Qed.

End CaseFacts.

(** X2: the three classifiers do not see the letter case of the output:
    lower-casing it first, as [get_device] and [_toggle] do, never changes
    which error is raised. *)
Theorem check_error_ignores_case (output : string) (rc : option Z) (errors : Errors) :
  cmd_errors.check_error (Str.lower output) rc errors = cmd_errors.check_error output rc errors
  /\ reg_errors.check_error (Str.lower output) rc errors = reg_errors.check_error output rc errors
  /\ pnp_errors.check_error (Str.lower output) rc errors = pnp_errors.check_error output rc errors.
Proof.
  unfold cmd_errors.check_error, reg_errors.check_error, pnp_errors.check_error.
  split; [|split]; apply CaseFacts.scan_ext; intros r;
    by rewrite CaseFacts.search_lower.
Qed.

(** Membership in a list that is written out, and the cases of such a
    membership. *)
Ltac listed := apply (bool_decide_unpack _); vm_compute; exact I.

Ltac members H :=
  cbv [run_errors reg_layer_errors reg_body_errors model_errors model_body_errors
       translated app] in H;
  repeat (apply elem_of_cons in H as [H|H]; [subst|]); [..|by apply elem_of_nil in H].

Ltac sublist :=
  let x := fresh in let Hx := fresh in intros x Hx; members Hx; listed.

(** X3: the command classifier and the registry classifier agree on
    permission failures: a text is access-denied for [Run.run_ps] exactly when
    the registry accessor's check raises the registry permission error on
    it. *)
Theorem permission_classified_alike (output : string) (rc rc' : option Z) :
  cmd_errors.check_error output rc (ErrorsOne AccessDeniedError) = Some AccessDeniedError
  <-> reg_errors.check_error output rc' ErrorsNone = Some RegistryPermissionError.
Proof.
  unfold cmd_errors.check_error, reg_errors.check_error.
  set (hit := fun regex => Re.search true regex output).
  unfold cmd_errors.ERROR_MAP, reg_errors.ERROR_MAP.
  cbn [scan asked keys fmap list_fmap fst].
  rewrite !(bool_decide_eq_true_2 (_ ∈ _)) by listed.
  match goal with |- context [existsb hit ?ps] => destruct (existsb hit ps) eqn:Hps end.
  - done.
  - split.
    + repeat (rewrite bool_decide_eq_false_2 by (intros Hx; members Hx; done)). done.
    + repeat match goal with |- context [existsb hit ?ps] => destruct (existsb hit ps) end;
        done.
Qed.

(** ** Registry types, every spelling and any number of arguments *)

Module RegTypesMore.
Import RegTypes RegTypesFacts.

Lemma low_level_prefixed k : k ∈ low_level_names -> Str.startswith "REG_" k = true.
Proof. unfold low_level_names. intros Hk. each_member Hk; subst k; reflexivity. Qed.

Lemma kind_not_prefixed k : k ∈ kind_names -> Str.startswith "REG_" k = false.
Proof. unfold kind_names. intros Hk. each_member Hk; subst k; reflexivity. Qed.

Lemma prefixed_twice k :
  ("REG_" +:+ k) ∈ low_level_names -> Str.startswith "REG_" k = false.
Proof.
  unfold low_level_names. intros Hk.
  each_member Hk; vm_compute in Hk; injection Hk as ->; reflexivity.
Qed.

Lemma supported_cases i :
  i ∈ SUPPORTED_REG_TYPES ->
  i = -1 \/ i = 0 \/ i = 1 \/ i = 2 \/ i = 3 \/ i = 4 \/ i = 7 \/ i = 11.
Proof. unfold SUPPORTED_REG_TYPES. set_unfold. lia. Qed.

(** Every supported code has a name, and every name a friendly name. *)
Lemma supported_named i :
  i ∈ SUPPORTED_REG_TYPES ->
  exists n f, REG_VALUE_KIND_NAMES !! i = Some n /\ REG_FRIENDLY_NAMES !! n = Some f.
Proof.
  intros Hi. apply supported_cases in Hi.
  repeat (destruct Hi as [->|Hi]; [do 2 eexists; split; vm_compute; reflexivity|]).
  subst i. do 2 eexists; split; vm_compute; reflexivity.
Qed.

Lemma normalise_item_supported t i : normalise_item t = Return i -> i ∈ SUPPORTED_REG_TYPES.
Proof. intros Hn. apply normalise_item_clamped in Hn as [j ->]. apply clamp_supported. Qed.

Lemma normalise_item_fixed i :
  i ∈ SUPPORTED_REG_TYPES -> normalise_item (TInt i) = Return i.
Proof. intros Hi. unfold normalise_item. by rewrite bool_decide_eq_true_2. Qed.

Lemma normalise_item_raises t e : normalise_item t = Raise e -> e ∈ [ValueError; TypeError].
Proof.
  unfold normalise_item. destruct t as [i|s|]; [done| |intros [= <-]; listed].
  generalize (Str.upper (Str.strip s)). intros k.
  destruct (Str.startswith "REG_" k).
  - destruct (WINAPI_REG_TYPES !! k); [done|]. intros [= <-]. listed.
  - destruct (WINAPI_REG_TYPES !! ("REG_" +:+ k)); [done|].
    destruct (REG_VALUE_KINDS !! k); [done|]. intros [= <-]. listed.
Qed.

Lemma normalise_raises t e : normalise [t] = Raise e -> e ∈ [ValueError; TypeError].
Proof.
  unfold normalise. cbn [normalise_loop].
  destruct (normalise_item t) as [i|e'] eqn:Ht; [done|].
  intros [= <-]. by eapply normalise_item_raises.
Qed.

Lemma normalise1_raises t e : normalise1 t = Raise e -> e ∈ [ValueError; TypeError].
Proof.
  unfold normalise1.
  destruct (normalise [t]) as [[i|l]|e'] eqn:Ht; [done| |].
  - intros [= <-]. listed.
  - intros [= <-]. by eapply normalise_raises.
Qed.

Lemma normalise1_supported t i : normalise1 t = Return i -> i ∈ SUPPORTED_REG_TYPES.
Proof.
  unfold normalise1.
  destruct (normalise [t]) as [[j|l]|e] eqn:Hn; [|done..].
  intros [= <-]. apply normalise_one_inv in Hn. by eapply normalise_item_supported.
Qed.

Lemma get_name_raises t pretty e :
  get_name [t] pretty = Raise e -> e ∈ [ValueError; TypeError].
Proof.
  unfold get_name. cbn [get_name_loop]. unfold get_name_item.
  destruct (normalise [t]) as [[i|l]|e'] eqn:Ht.
  - destruct (REG_VALUE_KIND_NAMES !! i) as [n|]; [|intros [= <-]; listed].
    destruct pretty; [|done].
    destruct (REG_FRIENDLY_NAMES !! n); [done|]. intros [= <-]. listed.
  - intros [= <-]. listed.
  - intros [= <-]. by eapply normalise_raises.
Qed.

Lemma normalise_loop_inv types : forall acc l,
  normalise_loop types acc = Return l ->
  exists l', l = acc ++ l' /\ Forall2 (fun t i => normalise_item t = Return i) types l'.
Proof.
  induction types as [|t types IH]; intros acc l; simpl.
  - intros [= <-]. exists []. by rewrite app_nil_r.
  - destruct (normalise_item t) as [i|e] eqn:Ht; [|done]. intros Hl.
    apply IH in Hl as (l' & -> & Hl'). exists (i :: l').
    rewrite <- app_assoc. split; [done|]. by constructor.
Qed.

Lemma normalise_loop_ok types : forall acc l',
  Forall2 (fun t i => normalise_item t = Return i) types l' ->
  normalise_loop types acc = Return (acc ++ l').
Proof.
  induction types as [|t types IH]; intros acc l' Hl; inversion Hl as [|? i ? l'' Hi Hl'];
    subst; simpl.
  - by rewrite app_nil_r.
  - rewrite Hi. rewrite (IH _ _ Hl'), <- app_assoc. reflexivity.
Qed.

Lemma normalise_loop_acc types : forall acc,
  normalise_loop types acc =
    match normalise_loop types [] with
    | Return l => Return (acc ++ l)
    | Raise e => Raise e
    end.
Proof.
  induction types as [|t types IH]; intros acc; simpl.
  - by rewrite app_nil_r.
  - destruct (normalise_item t) as [i|e]; [|done].
    rewrite (IH (acc ++ [i])), (IH [i]).
    destruct (normalise_loop types []); [|done]. by rewrite <- app_assoc.
Qed.

Lemma get_name_item_ok pretty t i :
  normalise_item t = Return i -> exists n, get_name_item pretty t = Return n.
Proof.
  intros Ht. unfold get_name_item, normalise. cbn [normalise_loop]. rewrite Ht.
  cbn [one_or_many app].
  destruct (supported_named i (normalise_item_supported _ _ Ht)) as (n & f & -> & Hf).
  destruct pretty; [rewrite Hf|]; eauto.
Qed.

Lemma get_name_item_raise pretty t e :
  normalise_item t = Raise e -> get_name_item pretty t = Raise e.
Proof. intros Ht. unfold get_name_item, normalise. cbn [normalise_loop]. by rewrite Ht. Qed.

Lemma get_name_item_int pretty t i :
  normalise_item t = Return i -> get_name_item pretty t = get_name_item pretty (TInt i).
Proof.
  intros Ht. unfold get_name_item, normalise. cbn [normalise_loop].
  rewrite Ht, (normalise_item_fixed i (normalise_item_supported _ _ Ht)). reflexivity.
Qed.

Lemma get_name_loop_spec pretty types : forall acc,
  match normalise_loop types [] with
  | Return l =>
      exists names,
        get_name_loop pretty types acc = Return (acc ++ names)
        /\ Forall2 (fun i n => get_name_item pretty (TInt i) = Return n) l names
  | Raise e => get_name_loop pretty types acc = Raise e
  end.
Proof.
  induction types as [|t types IH]; intros acc.
  - simpl. exists []. by rewrite app_nil_r.
  - cbn [normalise_loop get_name_loop].
    destruct (normalise_item t) as [i|e] eqn:Ht.
    2:{ by rewrite (get_name_item_raise _ _ _ Ht). }
    destruct (get_name_item_ok pretty t i Ht) as [n Hn]. rewrite Hn.
    specialize (IH (acc ++ [n])). rewrite (normalise_loop_acc types ([] ++ [i])).
    destruct (normalise_loop types []) as [l|e]; [|done].
    destruct IH as (names & -> & Hnames). exists (n :: names).
    rewrite <- app_assoc. split; [done|]. constructor; [|done].
    by rewrite <- (get_name_item_int _ _ _ Ht).
Qed.

Lemma items_one_or_many {A} (l : list A) : items (one_or_many l) = l.
Proof. by destruct l as [|a [|b l]]. Qed.

End RegTypesMore.

(** X4: the names [normalise] accepts are exactly the spellings (a
    low-level name with or without its prefix, or a kind name, in any letter
    case and with blanks around it); for every other string it raises
    [ValueError]. *)
Theorem normalise_accepts_spelled (s : string) :
  (spelled s <-> raised (RegTypes.normalise [TStr s]) = false)
  /\ (~ spelled s <-> RegTypes.normalise [TStr s] = Raise ValueError).
Proof.
  assert (spelled s /\ raised (RegTypes.normalise [TStr s]) = false
          \/ ~ spelled s /\ RegTypes.normalise [TStr s] = Raise ValueError) as Hcases.
  { unfold spelled, RegTypes.normalise, RegTypes.normalise_loop, RegTypes.normalise_item.
    generalize (Str.upper (Str.strip s)). intros k. cbv zeta.
    destruct (Str.startswith "REG_" k) eqn:Hpre.
    - destruct (RegTypes.WINAPI_REG_TYPES !! k) as [i|] eqn:Hk.
      + left. split; [|done]. left. apply RegTypesFacts.low_level_names_keys. eauto.
      + right. split; [|done]. intros [Hl|[Hl|Hl]].
        * apply RegTypesFacts.low_level_names_keys in Hl as [i Hi]. congruence.
        * apply RegTypesMore.prefixed_twice in Hl. congruence.
        * apply RegTypesMore.kind_not_prefixed in Hl. congruence.
    - destruct (RegTypes.WINAPI_REG_TYPES !! ("REG_" +:+ k)) as [i|] eqn:Hk.
      + left. split; [|done]. right. left. apply RegTypesFacts.low_level_names_keys. eauto.
      + destruct (RegTypes.REG_VALUE_KINDS !! k) as [i|] eqn:Hk'.
        * left. split; [|done]. right. right. apply RegTypesFacts.kind_names_keys. eauto.
        * right. split; [|done]. intros [Hl|[Hl|Hl]].
          -- apply RegTypesMore.low_level_prefixed in Hl. congruence.
          -- apply RegTypesFacts.low_level_names_keys in Hl as [i Hi]. congruence.
          -- apply RegTypesFacts.kind_names_keys in Hl as [i Hi]. congruence. }
  destruct Hcases as [[Hs Hr]|[Hs Hr]].
  - split; [tauto|]. split; [tauto|]. intros Hv. rewrite Hv in Hr. done.
  - split; [|tauto]. split; [tauto|]. intros Hv. rewrite Hr in Hv. done.
Qed.

Lemma normalise_accepts_spelled_witness :
  RegTypes.normalise [TStr "REG_DWORD_"] = Raise ValueError /\ ~ spelled "REG_DWORD_".
Proof.
  assert (RegTypes.normalise [TStr "REG_DWORD_"] = Raise ValueError) as Hn by reflexivity.
  split; [exact Hn|].
  exact (proj2 (proj2 (normalise_accepts_spelled "REG_DWORD_")) Hn).
Defined.

(** X5: [normalise] called with any number of arguments: when it returns,
    there is one code per argument, in order: the code at each position is
    what [normalise] gives for the argument at that position on its own (the
    bare code when there was exactly one argument, a list otherwise); every
    code is a supported one, and normalising the codes again gives the same
    result. *)
Theorem normalise_variadic (types : list RegType) (r : OneOrMany Z) :
  RegTypes.normalise types = Return r ->
  r = one_or_many (items r)
  /\ length (items r) = length types
  /\ Forall2 (fun t i => RegTypes.normalise [t] = Return (One i)) types (items r)
  /\ Forall (fun i => i ∈ RegTypes.SUPPORTED_REG_TYPES) (items r)
  /\ RegTypes.normalise (TInt <$> items r) = Return r.
Proof.
  unfold RegTypes.normalise at 1.
  destruct (RegTypes.normalise_loop types []) as [l|e] eqn:Hl; [|done].
  intros [= <-]. rewrite RegTypesMore.items_one_or_many.
  apply RegTypesMore.normalise_loop_inv in Hl as (l' & -> & Hl'). simpl.
  split; [done|]. split; [symmetry; by eapply Forall2_length|].
  split.
  { eapply Forall2_impl; [exact Hl'|]. intros t i Hi.
    unfold RegTypes.normalise. cbn [RegTypes.normalise_loop]. by rewrite Hi. }
  unfold RegTypes.normalise.
  assert (Forall (fun i => i ∈ RegTypes.SUPPORTED_REG_TYPES) l') as Hs.
  { induction Hl' as [|t i types l' Hi _ IH]; constructor; [|done].
    by eapply RegTypesMore.normalise_item_supported. }
  split; [done|].
  rewrite (RegTypesMore.normalise_loop_ok (TInt <$> l') [] l'); [done|].
  clear Hl'. induction Hs as [|i l' Hi _ IH]; constructor; [|done].
  by apply RegTypesMore.normalise_item_fixed.
Qed.

Lemma normalise_variadic_witness :
  RegTypes.normalise [TStr "dword"; TInt 5; TStr " REG_SZ"] = Return (Many [4; 0; 1])
  /\ RegTypes.normalise (TInt <$> [4; 0; 1]) = Return (Many [4; 0; 1]).
Proof.
  assert (RegTypes.normalise [TStr "dword"; TInt 5; TStr " REG_SZ"] = Return (Many [4; 0; 1]))
    as Hn by reflexivity.
  split; [exact Hn|].
  exact (proj2 (proj2 (proj2 (proj2 (normalise_variadic _ _ Hn))))).
Defined.

(** X6: [get_name] fails exactly when [normalise] does, and with the same
    exception: every supported code has a name and every name a friendly
    name, so the [ValueError] branches of [get_name] are never taken.  When
    it returns, the names are those of the normalised codes, in order. *)
Theorem get_name_defined (types : list RegType) (pretty : bool) :
  match RegTypes.normalise types with
  | Return r =>
      exists names,
        RegTypes.get_name types pretty = Return (one_or_many names)
        /\ Forall2 (fun i n => RegTypes.get_name [TInt i] pretty = Return (One n))
             (items r) names
  | Raise e => RegTypes.get_name types pretty = Raise e
  end.
Proof.
  unfold RegTypes.normalise, RegTypes.get_name.
  pose proof (RegTypesMore.get_name_loop_spec pretty types []) as Hspec.
  destruct (RegTypes.normalise_loop types []) as [l|e]; [|by rewrite Hspec].
  destruct Hspec as (names & -> & Hnames). exists names. split; [done|].
  rewrite RegTypesMore.items_one_or_many.
  eapply Forall2_impl; [exact Hnames|]. intros i n Hn. simpl. by rewrite Hn.
Qed.

(** X7: the name of a code reads back as that code, with one exception:
    code -1 has the name [NONE], which [normalise] reads as the low-level
    [REG_NONE], code 0. *)
Theorem get_name_round_trip (i : Z) (pretty : bool) :
  exists n,
    RegTypes.get_name [TInt i] pretty = Return (One n)
    /\ RegTypes.normalise [TStr n]
       = Return (One (if bool_decide (clamp i = -1) then 0 else clamp i)).
Proof.
  rewrite RegTypesFacts.get_name_int.
  pose proof (RegTypesMore.supported_cases _ (RegTypesFacts.clamp_supported i)) as Hi.
  revert Hi. generalize (clamp i). intros c Hc.
  repeat (destruct Hc as [->|Hc];
          [destruct pretty; eexists;
           (split; [vm_compute; reflexivity | vm_compute; reflexivity])|]).
  subst c. destruct pretty; eexists;
    (split; [vm_compute; reflexivity | vm_compute; reflexivity]).
Qed.

(** ** The command runner, call by call *)

Section RunMore.
Context {World : Type} `{Host World}.

(** With access-denied the one kind asked for, that kind or nothing is
    raised. *)
Lemma check_error_one output rc :
  cmd_errors.check_error output rc (ErrorsOne AccessDeniedError) = Some AccessDeniedError
  \/ cmd_errors.check_error output rc (ErrorsOne AccessDeniedError) = None.
Proof.
  destruct (cmd_errors.check_error output rc (ErrorsOne AccessDeniedError)) as [e|] eqn:He;
    [|by right].
  apply ClassifierFacts.scan_asked in He as [He _].
  apply list_elem_of_singleton in He as ->. by left.
Qed.

Lemma run_ps_plain_eq cmd propogate check st reply w :
  subprocess_run (invocation cmd false propogate) (world st) = (reply, w) ->
  Run.run_ps cmd false false propogate check st
  = (match cmd_errors.check_error (stdout (res reply) +:+ LF +:+ stderr (res reply))
             (Some (returncode (res reply))) (ErrorsOne AccessDeniedError) with
     | Some _ => if check then Raise AccessDeniedError else Return (triple (res reply))
     | None => Return (triple (res reply))
     end,
     {| world := w; trace := trace st ++ [EvRun (invocation cmd false propogate)] |}).
Proof.
  intros Hrun. unfold Run.run_ps. cbn [Run.run_ps_rec].
  unfold bind at 1. rewrite (run_process_eq _ _ _ _ _ _ Hrun).
  unfold bind at 1. unfold ret at 1. unfold triple.
  destruct (check_error_one (stdout (res reply) +:+ LF +:+ stderr (res reply))
              (Some (returncode (res reply)))) as [-> | ->]; [|reflexivity].
  rewrite bool_decide_eq_true_2 by done. cbn [andb negb].
  by destruct check.
Qed.

(** A call that is elevated, or may not elevate, runs one process and
    shows no dialog. *)
Lemma run_ps_once cmd elevate auto_elevate propogate check st :
  elevate = true \/ auto_elevate = false ->
  trace (snd (Run.run_ps cmd elevate auto_elevate propogate check st))
  = trace st ++ [EvRun (invocation cmd elevate propogate)].
Proof.
  intros Hone. destruct elevate; [apply run_ps_elevated_trace|].
  destruct Hone as [Hone| ->]; [done|].
  destruct (subprocess_run (invocation cmd false propogate) (world st)) as [reply w] eqn:Hrun.
  by rewrite (run_ps_plain_eq _ _ _ _ _ _ Hrun).
Qed.

End RunMore.

(** X8: a call of [run_ps] that is not elevated and may not elevate
    returns the exit code and the two streams of its one process, whatever
    they say.  With [check] it raises [AccessDeniedError] when they classify
    as access-denied; no other kind is looked for, so a command that is not
    recognised or is blocked by policy is returned, not raised. *)
Theorem run_ps_plain {World} `{Host World}
    (cmd : string) (propogate check : bool) (st : St World) (reply : Reply) (w : World) :
  subprocess_run (invocation cmd false propogate) (world st) = (reply, w) ->
  Run.run_ps cmd false false propogate check st
  = (match cmd_errors.check_error (stdout (res reply) +:+ LF +:+ stderr (res reply))
             (Some (returncode (res reply))) (ErrorsOne AccessDeniedError) with
     | Some _ => if check then Raise AccessDeniedError else Return (triple (res reply))
     | None => Return (triple (res reply))
     end,
     {| world := w; trace := trace st ++ [EvRun (invocation cmd false propogate)] |}).
Proof. apply run_ps_plain_eq. Qed.

Lemma run_ps_plain_witness :
  cmd_errors.check_error
    (LF +:+ "The term 'frobnicate' is not recognized as the name of a cmdlet.")
    None ErrorsNone = Some CommandNotFoundError
  /\ fst (Run.run_ps "frobnicate" false false true true Scenario.unknown_command)
     = Return (1, "", "The term 'frobnicate' is not recognized as the name of a cmdlet.").
Proof.
  split; [vm_compute; reflexivity|].
  rewrite (run_ps_plain "frobnicate" true true Scenario.unknown_command
             (plain 1 "" "The term 'frobnicate' is not recognized as the name of a cmdlet.")
             {| Scripted.script := []; Scripted.answers := []; Scripted.exchange := JBlank |});
    [vm_compute; reflexivity|reflexivity].
Defined.

(** X9: once the process has been launched and has replied, [test_ps]
    answers true whatever the reply says, also when it says that the program is
    blocked by group policy: the call of [run_ps] it makes looks for
    access-denied only and never raises [PowershellDisabledError], so the
    branch that answers false is never taken.  The process is run once. *)
Theorem test_ps_true {World} `{Host World} (st : St World) (reply : Reply) (w : World) :
  subprocess_run (invocation "echo hello" false true) (world st) = (reply, w) ->
  Run.test_ps st
  = (Return true,
     {| world := w; trace := trace st ++ [EvRun (invocation "echo hello" false true)] |}).
Proof.
  intros Hrun. unfold Run.test_ps, try_except, bind.
  rewrite (run_ps_plain_eq _ _ _ _ _ _ Hrun).
  by destruct (cmd_errors.check_error _ _ _).
Qed.

Lemma test_ps_true_witness :
  let said := "This program is blocked by group policy. For more information, contact your system administrator." in
  cmd_errors.check_error (LF +:+ said) (Some 1) ErrorsNone = Some PowershellDisabledError
  /\ fst (Run.test_ps (Scripted.start [Scripted.says (plain 1 "" said)] [])) = Return true.
Proof.
  intros said. split; [vm_compute; reflexivity|].
  rewrite (test_ps_true (Scripted.start [Scripted.says (plain 1 "" said)] [])
             (plain 1 "" said)
             {| Scripted.script := []; Scripted.answers := []; Scripted.exchange := JBlank |});
    reflexivity.
Defined.

(** X10: the events of one call of [run_ps]: the command is run once; if
    the call was not elevated and may elevate, it may be followed by one
    consent dialog, and after consent by one elevated run of the same command;
    after a refusal the call raises [UserAbortedError].  Nothing else is run or
    asked. *)
Theorem run_ps_trace_shape {World} `{Host World}
    (cmd : string) (elevate auto_elevate propogate check : bool) (st : St World) :
  let first := EvRun (invocation cmd elevate propogate) in
  let again := EvRun (invocation cmd true true) in
  let result := Run.run_ps cmd elevate auto_elevate propogate check st in
  exists evs,
    trace (snd result) = trace st ++ evs
    /\ (evs = [first]
        \/ (elevate = false /\ auto_elevate = true
            /\ (evs = [first; EvAsk false] /\ fst result = Raise UserAbortedError
                \/ evs = [first; EvAsk true; again]))).
Proof.
  intros first again result. subst result.
  destruct elevate.
  { exists [first]. split; [apply run_ps_elevated_trace|by left]. }
  destruct auto_elevate.
  2:{ exists [first]. split; [|by left]. apply run_ps_once. by right. }
  destruct (subprocess_run (invocation cmd false propogate) (world st)) as [reply w] eqn:Hrun.
  destruct (check_error_one (stdout (res reply) +:+ LF +:+ stderr (res reply))
              (Some (returncode (res reply)))) as [Hdenied | Hfine].
  2:{ exists [first]. split; [|by left].
      unfold Run.run_ps. cbn [Run.run_ps_rec].
      unfold bind at 1. rewrite (run_process_eq _ _ _ _ _ _ Hrun).
      unfold bind at 1. unfold ret at 1. by rewrite Hfine. }
  destruct (Ask_elevate w) as [granted w'] eqn:Hask.
  set (asked := {| world := w';
                   trace := trace st ++ [EvRun (invocation cmd false propogate);
                                         EvAsk granted] |}).
  assert (Run.run_ps cmd false true propogate check st =
          (if granted then Run.run_ps_rec 1 cmd true true true false
           else raise UserAbortedError) asked) as ->.
  { unfold Run.run_ps. cbn [Run.run_ps_rec].
    unfold bind at 1. rewrite (run_process_eq _ _ _ _ _ _ Hrun).
    unfold bind at 1. unfold ret at 1. rewrite Hdenied.
    rewrite bool_decide_eq_true_2 by done. cbn [andb negb].
    unfold bind at 1.
    rewrite (ask_eq {| world := w; trace := _ |} granted w' Hask).
    cbn [world trace]. rewrite <- app_assoc. reflexivity. }
  destruct granted.
  - exists [first; EvAsk true; again].
    split; [|right; split; [done|split; [done|by right]]].
    rewrite run_ps_elevated_trace. unfold asked. cbn [trace]. by rewrite <- !app_assoc.
  - exists [first; EvAsk false].
    split; [|right; split; [done|split; [done|left; split; reflexivity]]].
    reflexivity.
Qed.

(** X11: an elevated call of [run_ps] (with [check] off).  If the wrapper
    itself printed anything, the call raises what the classifier makes of it,
    or [RuntimeError], and the capture files are not looked at.  Otherwise it
    returns the contents of the capture files, the exit code read as an
    integer ([RuntimeError] if it is not one), also when the captured output
    says access-denied. *)
Theorem run_ps_elevated {World} `{Host World}
    (cmd : string) (auto_elevate propogate : bool) (st : St World)
    (reply : Reply) (w : World) :
  subprocess_run (invocation cmd true propogate) (world st) = (reply, w) ->
  let resout := Str.strip (stdout (res reply)) in
  let reserr := Str.strip (stderr (res reply)) in
  Run.run_ps cmd true auto_elevate propogate false st
  = (if Str.nonempty resout || Str.nonempty reserr then
       Raise (default RuntimeError
                (cmd_errors.check_error (resout +:+ LF +:+ reserr)
                   (Some (returncode (res reply))) ErrorsNone))
     else
       match Str.to_int (Str.strip (retcode_file reply)) with
       | Some rc => Return (rc, stdout_file reply, stderr_file reply)
       | None => Raise RuntimeError
       end,
     {| world := w; trace := trace st ++ [EvRun (invocation cmd true propogate)] |}).
Proof.
  intros Hrun resout reserr. unfold Run.run_ps. cbn [Run.run_ps_rec].
  unfold bind at 1. rewrite (run_process_eq _ _ _ _ _ _ Hrun).
  fold resout reserr. rewrite andb_false_r.
  destruct (Str.nonempty resout || Str.nonempty reserr).
  - unfold bind, lift. by destruct (cmd_errors.check_error _ _ ErrorsNone).
  - unfold bind at 1. unfold bind at 1. unfold ret at 1.
    destruct (Str.to_int _) as [rc|]; [|reflexivity].
    unfold ret at 1.
    destruct (check_error_one (stdout_file reply +:+ LF +:+ stderr_file reply) (Some rc))
      as [-> | ->]; [|reflexivity].
    by rewrite bool_decide_eq_true_2.
Qed.

Lemma run_ps_elevated_witness :
  access_denied (completed 5 "" "Access is denied.")
  /\ fst (Run.run_ps "whoami" true true true false Scenario.denied_elevated)
     = Return (5, "", "Access is denied.").
Proof.
  split; [vm_compute; reflexivity|].
  rewrite (run_ps_elevated "whoami" true true Scenario.denied_elevated
             (captured "5" "" "Access is denied.")
             {| Scripted.script := []; Scripted.answers := []; Scripted.exchange := JBlank |});
    [vm_compute; reflexivity|reflexivity].
Defined.

(** ** The exceptions that escape a call *)

Create HintDb raises.

Section RaisesOnly.
Context {World : Type}.
Implicit Types allowed : list Exn.

Lemma raises_only_ret {A} allowed (a : A) : raises_only (World := World) allowed (ret a).
Proof. by intros st e. Qed.

Lemma raises_only_raise {A} allowed e :
  e ∈ allowed -> raises_only (World := World) allowed (raise (A := A) e).
Proof. by intros He st e' [= <-]. Qed.

Lemma raises_only_bind {A B} allowed (m : M World A) (k : A -> M World B) :
  raises_only allowed m -> (forall a, raises_only allowed (k a)) ->
  raises_only allowed (bind m k).
Proof.
  intros Hm Hk st e. unfold bind. specialize (Hm st).
  destruct (m st) as [[a|e'] st1]; simpl in *; [apply Hk|].
  intros [= <-]. by apply Hm.
Qed.

Lemma raises_only_bind_ret {A B} allowed (a : A) (k : A -> M World B) :
  raises_only allowed (k a) -> raises_only allowed (bind (ret a) k).
Proof. intros Hk st. exact (Hk st). Qed.

Lemma raises_only_try {A} inner allowed (m : M World A) (h : Exn -> M World A) :
  raises_only inner m -> (forall e, e ∈ inner -> raises_only allowed (h e)) ->
  raises_only allowed (try_except m h).
Proof.
  intros Hm Hh st e. unfold try_except. specialize (Hm st).
  destruct (m st) as [[a|e'] st1]; simpl in *; [done|].
  apply Hh. by apply Hm.
Qed.

Lemma raises_only_call {A} allowed (f : World -> A * World) log :
  raises_only allowed (call f log).
Proof. intros st e. unfold call. by destruct (f (world st)). Qed.

Lemma raises_only_read {A} allowed (f : St World -> A) :
  raises_only (World := World) allowed (fun st => (Return (f st), st)).
Proof. by intros st e. Qed.

Lemma raises_only_weaken {A} inner allowed (m : M World A) :
  inner ⊆ allowed -> raises_only inner m -> raises_only allowed m.
Proof. intros Hsub Hm st e He. apply Hsub. by eapply Hm. Qed.

Lemma raises_only_lift {A} allowed (o : Outcome A) :
  (forall e, o = Raise e -> e ∈ allowed) -> raises_only (World := World) allowed (lift o).
Proof.
  intros Ho st e. destruct o as [a|e']; simpl; [done|]. intros [= <-]. by apply Ho.
Qed.

End RaisesOnly.

(** The kinds each classifier knows. *)
Lemma cmd_kinds output rc errors e :
  cmd_errors.check_error output rc errors = Some e ->
  e ∈ [AccessDeniedError; UserAbortedError; CommandNotFoundError; PowershellDisabledError].
Proof. intros He. by apply ClassifierFacts.scan_asked in He as [_ He]. Qed.

Lemma reg_kinds output rc errors e :
  reg_errors.check_error output rc errors = Some e ->
  e ∈ [RegistryPermissionError; RegistryItemNotFoundError; RegistryItemExistsError].
Proof. intros He. by apply ClassifierFacts.scan_asked in He as [_ He]. Qed.

Lemma pnp_kinds output rc errors e :
  pnp_errors.check_error output rc errors = Some e ->
  e ∈ [DevicePermissionError; DeviceOperationAbortedError; DeviceNotFoundError;
       DevicePropertyExistsError].
Proof. intros He. by apply ClassifierFacts.scan_asked in He as [_ He]. Qed.

Ltac split_kind c :=
  let He := fresh "He" in
  destruct c as [?|] eqn:He;
  [first [apply cmd_kinds in He | apply reg_kinds in He | apply pnp_kinds in He];
   members He|].

Ltac raises_step :=
  lazymatch goal with
  | |- raises_only ?l (try_except _ _) =>
      apply (raises_only_try l);
      [|let He := fresh "He" in intros ? He; members He; cbn beta iota]
  | |- raises_only _ (ret _) => apply raises_only_ret
  | |- raises_only _ (raise _) => apply raises_only_raise; listed
  | |- raises_only _ (bind (ret _) _) => apply raises_only_bind_ret
  | |- raises_only _ (bind _ _) => apply raises_only_bind; [|intros ?]
  | |- raises_only _ (call _ _) => apply raises_only_call
  | |- raises_only _ (fun st => (Return _, st)) => apply raises_only_read
  | |- raises_only _ (lift (RegTypes.normalise1 _)) =>
      let He := fresh "He" in
      apply raises_only_lift; intros ? He;
      apply RegTypesMore.normalise1_raises in He; members He; listed
  | |- raises_only _ (lift (match ?c with Some _ => _ | None => _ end)) =>
      split_kind c; cbn [lift]
  | |- raises_only _ (lift (Return _)) => apply raises_only_ret
  | |- raises_only _ (match cmd_errors.check_error ?o ?rc ?errs with _ => _ end) =>
      split_kind (cmd_errors.check_error o rc errs)
  | |- raises_only _ (match reg_errors.check_error ?o ?rc ?errs with _ => _ end) =>
      split_kind (reg_errors.check_error o rc errs)
  | |- raises_only _ (match pnp_errors.check_error ?o ?rc ?errs with _ => _ end) =>
      split_kind (pnp_errors.check_error o rc errs)
  | |- raises_only _ (if ?b then _ else _) => destruct b
  | |- raises_only _ (match ?x with _ => _ end) => destruct x
  | |- raises_only _ _ => first [solve [eauto with raises] | case_match]
  end.
Ltac raises_auto := repeat raises_step.

Section RaisesCode.
Context {World : Type} `{Host World}.

Lemma raises_run_ps_elevated depth cmd auto_elevate propogate check :
  raises_only run_errors (Run.run_ps_rec (S depth) cmd true auto_elevate propogate check).
Proof.
  cbn [Run.run_ps_rec]. rewrite andb_false_r. unfold Run.run_process. raises_auto.
Qed.

(** [run_ps] raises kinds of [CommandError] and [RuntimeError]; the depth
    of the model is never exhausted. *)
Lemma raises_run_ps cmd elevate auto_elevate propogate check :
  raises_only run_errors (Run.run_ps cmd elevate auto_elevate propogate check).
Proof.
  unfold Run.run_ps. destruct elevate; [apply raises_run_ps_elevated|].
  remember 1%nat as depth eqn:Hdepth.
  assert (raises_only run_errors (Run.run_ps_rec depth cmd true true true false)) as Hel
    by (subst depth; apply raises_run_ps_elevated).
  clear Hdepth. cbn [Run.run_ps_rec]. unfold Run.run_process, Run.ask. raises_auto.
Qed.

#[local] Hint Extern 1 (raises_only _ (Run.run_ps _ _ _ _ _)) =>
  (eapply raises_only_weaken; [|apply raises_run_ps]; sublist) : raises.

Lemma raises_reg_handle_error {A} (func : M World A) :
  raises_only reg_body_errors func -> raises_only reg_layer_errors (Reg.handle_error func).
Proof.
  intros Hf. unfold Reg.handle_error. apply (raises_only_try reg_body_errors); [done|].
  intros e He. members He; cbn beta iota; apply raises_only_raise; listed.
Qed.

Lemma raises_get_reg_elevated depth path name auto_elevate :
  raises_only reg_layer_errors (Reg.get_reg_rec (S depth) path name true auto_elevate).
Proof.
  cbn [Reg.get_reg_rec]. rewrite andb_false_r. apply raises_reg_handle_error.
  raises_auto.
Qed.

Lemma raises_get_reg path name elevate auto_elevate :
  raises_only reg_layer_errors (Reg.get_reg path name elevate auto_elevate).
Proof.
  unfold Reg.get_reg. destruct elevate; [apply raises_get_reg_elevated|].
  remember 1%nat as depth eqn:Hdepth.
  assert (raises_only reg_body_errors (Reg.get_reg_rec depth path name true true)) as Hel.
  { subst depth. eapply raises_only_weaken; [|apply raises_get_reg_elevated]. sublist. }
  clear Hdepth. cbn [Reg.get_reg_rec]. apply raises_reg_handle_error.
  unfold Run.ask. raises_auto.
Qed.

#[local] Hint Extern 1 (raises_only _ (Reg.get_reg _ _ _ _)) =>
  (eapply raises_only_weaken; [|apply raises_get_reg]; sublist) : raises.

Lemma raises_test_reg path name elevate auto_elevate :
  raises_only reg_layer_errors (Reg.test_reg path name elevate auto_elevate).
Proof. unfold Reg.test_reg. apply raises_reg_handle_error. raises_auto. Qed.

#[local] Hint Extern 1 (raises_only _ (Reg.test_reg _ _ _ _)) =>
  (eapply raises_only_weaken; [|apply raises_test_reg]; sublist) : raises.

Lemma raises_type_name allowed t :
  ValueError ∈ allowed -> TypeError ∈ allowed ->
  raises_only allowed (Reg.type_name (World := World) t).
Proof.
  intros Hv Ht. unfold Reg.type_name.
  destruct (RegTypes.get_name [t] false) as [[n|l]|e] eqn:Hn.
  - apply raises_only_ret.
  - by apply raises_only_raise.
  - apply RegTypesMore.get_name_raises in Hn. apply raises_only_raise. members Hn; done.
Qed.

Lemma raises_after_mutation allowed out err elevate auto_elevate retry :
  [RegistryPermissionError; RegistryItemNotFoundError; RegistryItemExistsError; RuntimeError]
    ⊆ allowed ->
  raises_only allowed retry ->
  raises_only allowed (Reg.after_mutation out err elevate auto_elevate retry).
Proof.
  intros Hsub Hretry. unfold Reg.after_mutation, Run.ask.
  assert (forall e A, e ∈ [RegistryPermissionError; RegistryItemNotFoundError;
                          RegistryItemExistsError; RuntimeError] ->
                      raises_only (World := World) allowed (raise (A := A) e)) as Hraise.
  { intros e A He. apply raises_only_raise. by apply Hsub. }
  destruct (Reg.has_output out err); [|apply raises_only_ret].
  destruct (reg_errors.check_error _ _ _) as [e|] eqn:He.
  - apply reg_kinds in He.
    assert (raises_only (World := World) allowed (raise (A := unit) e)) as Hre.
    { apply Hraise. members He; listed. }
    repeat (case_match; try done);
      apply raises_only_bind; try apply raises_only_call; intros []; done.
  - apply Hraise. listed.
Qed.

End RaisesCode.

Section RaisesModel.
Context {World : Type} `{Host World}.

#[local] Hint Extern 1 (raises_only _ (Run.run_ps _ _ _ _ _)) =>
  (eapply raises_only_weaken; [|apply raises_run_ps]; sublist) : raises.
#[local] Hint Extern 1 (raises_only _ (Reg.get_reg _ _ _ _)) =>
  (eapply raises_only_weaken; [|apply raises_get_reg]; sublist) : raises.
#[local] Hint Extern 1 (raises_only _ (Reg.test_reg _ _ _ _)) =>
  (eapply raises_only_weaken; [|apply raises_test_reg]; sublist) : raises.

Lemma raises_set_reg_elevated depth path name value reg_type skip auto_elevate :
  raises_only reg_layer_errors
    (Reg.set_reg_rec (S depth) path name value reg_type skip true auto_elevate).
Proof.
  cbn [Reg.set_reg_rec]. apply raises_reg_handle_error.
  assert (forall out err retry,
            raises_only reg_body_errors (Reg.after_mutation out err true auto_elevate retry))
    as Haft.
  { intros. unfold Reg.after_mutation. rewrite andb_false_r. raises_auto. }
  assert (forall t, raises_only reg_body_errors (Reg.type_name (World := World) t)) as Htn
    by (intros; apply raises_type_name; listed).
  raises_auto.
Qed.

Lemma raises_set_reg path name value reg_type skip elevate auto_elevate :
  raises_only reg_layer_errors
    (Reg.set_reg path name value reg_type skip elevate auto_elevate).
Proof.
  unfold Reg.set_reg. destruct elevate; [apply raises_set_reg_elevated|].
  remember 1%nat as depth eqn:Hdepth.
  assert (forall v t,
            raises_only reg_body_errors (Reg.set_reg_rec depth path name v t true true true))
    as Hel.
  { intros. subst depth. eapply raises_only_weaken; [|apply raises_set_reg_elevated].
    sublist. }
  clear Hdepth. cbn [Reg.set_reg_rec]. apply raises_reg_handle_error.
  assert (forall out err retry, raises_only reg_body_errors retry ->
            raises_only reg_body_errors
              (Reg.after_mutation out err false auto_elevate retry)) as Haft.
  { intros. apply raises_after_mutation; [sublist|done]. }
  assert (forall t, raises_only reg_body_errors (Reg.type_name (World := World) t)) as Htn
    by (intros; apply raises_type_name; listed).
  raises_auto.
Qed.

Lemma raises_del_reg_elevated depth path name auto_elevate :
  raises_only reg_layer_errors (Reg.del_reg_rec (S depth) path name true auto_elevate).
Proof.
  cbn [Reg.del_reg_rec]. apply raises_reg_handle_error.
  assert (forall out err retry,
            raises_only reg_body_errors (Reg.after_mutation out err true auto_elevate retry))
    as Haft.
  { intros. unfold Reg.after_mutation. rewrite andb_false_r. raises_auto. }
  raises_auto.
Qed.

Lemma raises_del_reg path name elevate auto_elevate :
  raises_only reg_layer_errors (Reg.del_reg path name elevate auto_elevate).
Proof.
  unfold Reg.del_reg. destruct elevate; [apply raises_del_reg_elevated|].
  remember 1%nat as depth eqn:Hdepth.
  assert (raises_only reg_body_errors (Reg.del_reg_rec depth path name true true)) as Hel.
  { subst depth. eapply raises_only_weaken; [|apply raises_del_reg_elevated]. sublist. }
  clear Hdepth. cbn [Reg.del_reg_rec]. apply raises_reg_handle_error.
  assert (forall out err retry, raises_only reg_body_errors retry ->
            raises_only reg_body_errors
              (Reg.after_mutation out err false auto_elevate retry)) as Haft.
  { intros. apply raises_after_mutation; [sublist|done]. }
  raises_auto.
Qed.

#[local] Hint Extern 1 (raises_only _ (Reg.set_reg _ _ _ _ _ _ _)) =>
  (eapply raises_only_weaken; [|apply raises_set_reg]; sublist) : raises.
#[local] Hint Extern 1 (raises_only _ (Reg.del_reg _ _ _ _)) =>
  (eapply raises_only_weaken; [|apply raises_del_reg]; sublist) : raises.

Lemma raises_model_handle_error {A} (func : M World A) :
  raises_only model_body_errors func -> raises_only model_errors (Model.handle_error func).
Proof.
  intros Hf. unfold Model.handle_error. apply (raises_only_try model_body_errors); [done|].
  intros e He. members He; cbn beta iota; apply raises_only_raise; listed.
Qed.

Lemma raises_get_device_elevated depth self names get_all auto_elevate :
  raises_only model_errors
    (Model.get_device_rec (S depth) self names get_all true auto_elevate).
Proof.
  cbn [Model.get_device_rec]. rewrite andb_false_r. apply raises_model_handle_error.
  raises_auto.
Qed.

Lemma raises_get_device self names get_all elevate auto_elevate :
  raises_only model_errors (Model.get_device self names get_all elevate auto_elevate).
Proof.
  unfold Model.get_device. destruct elevate; [apply raises_get_device_elevated|].
  remember 1%nat as depth eqn:Hdepth.
  assert (forall n,
            raises_only model_body_errors (Model.get_device_rec depth self n get_all true true))
    as Hel.
  { intros. subst depth. eapply raises_only_weaken; [|apply raises_get_device_elevated].
    sublist. }
  clear Hdepth. cbn [Model.get_device_rec]. apply raises_model_handle_error.
  unfold Run.ask. raises_auto.
Qed.

#[local] Hint Extern 1 (raises_only _ (Model.get_device _ _ _ _ _)) =>
  (eapply raises_only_weaken; [|apply raises_get_device]; sublist) : raises.

Lemma raises__check_key key : raises_only model_errors (Model._check_key key).
Proof.
  unfold Model._check_key, Model.unpack. apply raises_model_handle_error.
  destruct key as [[[path name] t]|]; raises_auto.
Qed.

Lemma raises_item allowed device key :
  KeyError ∈ allowed -> TypeError ∈ allowed ->
  raises_only allowed (Model.item (World := World) device key).
Proof.
  intros Hk Ht. unfold Model.item.
  repeat case_match; by first [apply raises_only_ret|apply raises_only_raise].
Qed.

Lemma raises__toggle_elevated depth self state mode auto_elevate :
  Model._check self state mode = Return tt ->
  raises_only model_errors (Model._toggle_rec (S depth) self state mode true auto_elevate).
Proof.
  intros Hcheck. cbn [Model._toggle_rec]. rewrite Hcheck, andb_false_r.
  apply raises_model_handle_error. unfold Model.unpack.
  assert (forall d k, raises_only model_body_errors (Model.item (World := World) d k))
    as Hitem by (intros; apply raises_item; listed).
  apply raises_only_bind;
    [apply (raises_only_try []); [apply raises_only_ret|by intros e He%elem_of_nil]|].
  intros _. raises_auto.
Qed.

(** Once [_check] has let the arguments through, what [_toggle] raises
    does not include the invalid-operation error. *)
Lemma raises__toggle self state mode elevate auto_elevate :
  Model._check self state mode = Return tt ->
  raises_only model_errors (Model._toggle self state mode elevate auto_elevate).
Proof.
  intros Hcheck. unfold Model._toggle.
  destruct elevate; [by apply raises__toggle_elevated|].
  remember 1%nat as depth eqn:Hdepth.
  assert (raises_only model_body_errors (Model._toggle_rec depth self state mode true true))
    as Hel.
  { subst depth. eapply raises_only_weaken; [|by apply raises__toggle_elevated]. sublist. }
  clear Hdepth. cbn [Model._toggle_rec]. rewrite Hcheck.
  apply raises_model_handle_error. unfold Model.unpack, Run.ask.
  assert (forall d k, raises_only model_body_errors (Model.item (World := World) d k))
    as Hitem by (intros; apply raises_item; listed).
  apply raises_only_bind;
    [apply (raises_only_try []); [apply raises_only_ret|by intros e He%elem_of_nil]|].
  intros _. raises_auto.
Qed.

Lemma _check_accepted self state mode :
  Model._check self state mode = Return tt <-> accepted self state mode.
Proof.
  unfold accepted, Model._check, Model._check_base, Model.STATES, Model.MODES, Str.eqb.
  destruct self as [c observers]. cbn [cls].
  assert (state ∈ [Model.ENABLE; Model.DISABLE; Model.NONE]
          <-> state ∈ [Model.DISABLE; Model.ENABLE; Model.NONE]) as Hperm.
  { rewrite !elem_of_cons. tauto. }
  destruct c; repeat (case_bool_decide; cbn [negb andb]);
    (split; [intros Hx|intros (Hs & Hm & Hd & Hp)]); try done;
    intuition congruence.
Qed.

Lemma _toggle_rejected self state mode elevate auto_elevate st :
  Model._check self state mode <> Return tt ->
  Model._toggle self state mode elevate auto_elevate st
  = (Raise DeviceInvalidOperationError, st).
Proof.
  intros Hcheck.
  assert (Model._check self state mode = Raise AssertionError
          \/ Model._check self state mode = Raise NotImplementedError) as Hraise.
  { revert Hcheck. unfold Model._check, Model._check_base.
    repeat case_match; simplify_eq; auto; by intros []. }
  unfold Model._toggle. cbn [Model._toggle_rec].
  unfold Model.handle_error, try_except, bind.
  destruct Hraise as [-> | ->]; reflexivity.
Qed.

(** [toggle] raises what [_toggle] raises, or what the notification raises
    once [_toggle] has returned. *)
Lemma toggle_raises self state mode elevate auto_elevate st e :
  fst (Model.toggle self state mode elevate auto_elevate st) = Raise e ->
  fst (Model._toggle self state mode elevate auto_elevate st) = Raise e
  \/ fst (Model._toggle self state mode elevate auto_elevate st) = Return tt
     /\ fst (Observable.notify self
               (snd (Model._toggle self state mode elevate auto_elevate st))) = Raise e.
Proof.
  pose proof (observed_trace self (Model._toggle self state mode elevate auto_elevate) st)
    as Hobs.
  unfold Model.toggle.
  destruct (fst (Model._toggle self state mode elevate auto_elevate st)) as [[]|e'] eqn:Hin.
  - rewrite Hobs. cbn [fst]. intros Hraise. right. split; [done|].
    by destruct (fst (Observable.notify self _)).
  - rewrite Hobs, Hin. by left.
Qed.

Lemma raises_status self : raises_only model_errors (Model.status self).
Proof. unfold Model.status, Model.get_field, Model.get. raises_auto. Qed.

Lemma raises_user_active self : raises_only model_errors (Model.user_active self).
Proof.
  unfold Model.user_active, Model.device_enabled, Model.system_enabled, Model.user_enabled.
  pose proof (raises_status self) as Hstatus.
  apply raises_only_bind; [raises_auto|]. intros enabled.
  destruct (negb enabled); [apply raises_only_ret|].
  apply (raises_only_try (NotImplementedError :: model_errors)).
  - assert (forall key, raises_only (NotImplementedError :: model_errors)
                          (Model._check_key key)) as Hkey.
    { intros. eapply raises_only_weaken; [|apply raises__check_key]. sublist. }
    raises_auto.
  - pose proof raises__check_key as Hkey. intros e He.
    members He; cbn beta iota;
      first [rewrite bool_decide_eq_true_2 by done | rewrite bool_decide_eq_false_2 by done];
      raises_auto.
Qed.

End RaisesModel.

(** X16: [_toggle] raises the invalid-operation error exactly when
    [_check] rejects the arguments: a state or a mode it does not know, the
    state [none] in device mode, or system mode on a touchpad.  [toggle] then
    raises it too and leaves the world and the trace as they were: nothing is
    run, nobody is asked or notified. *)
Theorem toggle_invalid_operation {World} `{Host World}
    (self : Device) (state mode : string) (elevate auto_elevate : bool) (st : St World) :
  (fst (Model._toggle self state mode elevate auto_elevate st)
   = Raise DeviceInvalidOperationError <-> ~ accepted self state mode)
  /\ (~ accepted self state mode ->
      Model.toggle self state mode elevate auto_elevate st
      = (Raise DeviceInvalidOperationError, st)).
Proof.
  assert (~ accepted self state mode ->
          Model._toggle self state mode elevate auto_elevate st
          = (Raise DeviceInvalidOperationError, st)) as Hrej.
  { intros Hno. rewrite <- _check_accepted in Hno. by apply _toggle_rejected. }
  split; [split|].
  - intros Hraise Hacc. apply _check_accepted in Hacc.
    pose proof (raises__toggle self state mode elevate auto_elevate Hacc st _ Hraise) as Hin.
    members Hin; discriminate.
  - intros Hno. by rewrite (Hrej Hno).
  - intros Hno.
    pose proof (observed_trace self (Model._toggle self state mode elevate auto_elevate) st)
      as Hobs.
    rewrite (Hrej Hno) in Hobs. cbn [fst] in Hobs. exact Hobs.
Qed.

Lemma toggle_invalid_operation_witness :
  ~ accepted Demo.touchscreen Model.NONE Model.DEVICE
  /\ Model.clear Demo.touchscreen Model.DEVICE Scenario.already_enabled
     = (Raise DeviceInvalidOperationError, Scenario.already_enabled).
Proof.
  assert (~ accepted Demo.touchscreen Model.NONE Model.DEVICE) as Hno.
  { intros (_ & _ & Hd & _). by apply Hd. }
  split; [exact Hno|].
  exact (proj2 (toggle_invalid_operation Demo.touchscreen Model.NONE Model.DEVICE
                  false true Scenario.already_enabled) Hno).
Defined.

(** X17: no error of the layers below escapes the device model
    untranslated: whatever [_toggle] or [user_active] raises, it is not the
    access-denied or user-aborted error of the command runner, not the
    permission or aborted error of the registry accessor, and not the
    [NotImplementedError] that stands for a missing key.  If [toggle] raises
    one of them, the operation itself had returned and the error is that of
    the notification: an observer raised it. *)
Theorem model_errors_translated {World} `{Host World}
    (self : Device) (state mode : string) (elevate auto_elevate : bool)
    (st : St World) (e : Exn) :
  (fst (Model._toggle self state mode elevate auto_elevate st) = Raise e
   \/ fst (Model.user_active self st) = Raise e ->
   e ∉ translated)
  /\ (fst (Model.toggle self state mode elevate auto_elevate st) = Raise e ->
      e ∈ translated ->
      fst (Model._toggle self state mode elevate auto_elevate st) = Return tt
      /\ fst (Observable.notify self
                (snd (Model._toggle self state mode elevate auto_elevate st))) = Raise e).
Proof.
  assert (fst (Model._toggle self state mode elevate auto_elevate st) = Raise e ->
          e ∉ translated) as Hinner.
  { intros Hraise Hbad.
    destruct (Model._check self state mode) as [[]|e'] eqn:Hcheck.
    + pose proof (raises__toggle self state mode elevate auto_elevate Hcheck st _ Hraise)
        as Hin.
      members Hin; members Hbad; discriminate.
    + rewrite _toggle_rejected in Hraise by (by rewrite Hcheck).
      injection Hraise as <-. members Hbad; discriminate. }
  split.
  - intros [Hraise|Hraise]; [by apply Hinner|]. intros Hbad.
    pose proof (raises_user_active self st _ Hraise) as Hin.
    members Hin; members Hbad; discriminate.
  - intros Hraise Hbad. apply toggle_raises in Hraise as [Hraise|Hraise]; [|exact Hraise].
    by destruct (Hinner Hraise).
Qed.

Lemma model_errors_translated_witness :
  fst (Model._toggle Demo.touchscreen Model.ENABLE Model.DEVICE false true Scenario.refused)
  = Raise DeviceOperationAbortedError
  /\ DeviceOperationAbortedError ∉ translated.
Proof.
  assert (fst (Model._toggle Demo.touchscreen Model.ENABLE Model.DEVICE false true
                 Scenario.refused) = Raise DeviceOperationAbortedError) as Hraise
    by (vm_compute; reflexivity).
  split; [exact Hraise|].
  exact (proj1 (model_errors_translated Demo.touchscreen Model.ENABLE Model.DEVICE false true
                  Scenario.refused DeviceOperationAbortedError) (or_introl Hraise)).
Defined.

(** ** The commands that are run *)

Create HintDb conf.

Section Confined.
Context {World : Type} `{Host World}.
Variable P : string -> Prop.

Lemma confined_ret {A} (a : A) : confined (World := World) (runs_only P) (ret a).
Proof. intros st. exists []. by rewrite app_nil_r. Qed.

Lemma confined_raise {A} e : confined (World := World) (runs_only P) (raise (A := A) e).
Proof. intros st. exists []. by rewrite app_nil_r. Qed.

Lemma confined_lift {A} (o : Outcome A) : confined (World := World) (runs_only P) (lift o).
Proof. destruct o; [apply confined_ret|apply confined_raise]. Qed.

Lemma confined_bind {A B} (m : M World A) (k : A -> M World B) :
  confined (runs_only P) m -> (forall a, confined (runs_only P) (k a)) ->
  confined (runs_only P) (bind m k).
Proof.
  intros Hm Hk st. unfold bind. destruct (Hm st) as (evs & Ht & Hs).
  destruct (m st) as [[a|e] st1]; simpl in *; [|by eauto].
  destruct (Hk a st1) as (evs' & Ht' & Hs').
  exists (evs ++ evs'). rewrite Ht', Ht, app_assoc. split; [done|].
  by apply Forall_app.
Qed.

Lemma confined_bind_ret {A B} (a : A) (k : A -> M World B) :
  confined (runs_only P) (k a) -> confined (runs_only P) (bind (ret a) k).
Proof. intros Hk st. exact (Hk st). Qed.

Lemma confined_bind_raise {A B} e (k : A -> M World B) :
  confined (runs_only P) (bind (raise e) k).
Proof. intros st. exists []. by rewrite app_nil_r. Qed.

Lemma confined_try {A} (m : M World A) (h : Exn -> M World A) :
  confined (runs_only P) m -> (forall e, confined (runs_only P) (h e)) ->
  confined (runs_only P) (try_except m h).
Proof.
  intros Hm Hh st. unfold try_except. destruct (Hm st) as (evs & Ht & Hs).
  destruct (m st) as [[a|e] st1]; simpl in *; [by eauto|].
  destruct (Hh e st1) as (evs' & Ht' & Hs').
  exists (evs ++ evs'). rewrite Ht', Ht, app_assoc. split; [done|].
  by apply Forall_app.
Qed.

Lemma confined_read {A} (f : St World -> A) :
  confined (runs_only P) (fun st => (Return (f st), st)).
Proof. intros st. exists []. by rewrite app_nil_r. Qed.

Lemma confined_silent_call {A} (f : World -> A * World) :
  confined (runs_only P) (call f (fun _ => [])).
Proof.
  intros st. unfold call. destruct (f (world st)) as [a w]. simpl.
  exists []. by split.
Qed.

Lemma confined_run_process cmd elevate propogate :
  P cmd -> confined (runs_only P) (Run.run_process cmd elevate propogate).
Proof.
  intros Hc st. unfold Run.run_process, call.
  destruct (subprocess_run _ (world st)) as [a w]. simpl.
  eexists. split; [done|]. by repeat constructor.
Qed.

Lemma confined_ask : confined (runs_only P) Run.ask.
Proof.
  intros st. unfold Run.ask, call. destruct (Ask_elevate (world st)) as [a w]. simpl.
  eexists. split; [done|]. by repeat constructor.
Qed.

End Confined.

Ltac conf_step :=
  lazymatch goal with
  | |- confined _ (ret _) => apply confined_ret
  | |- confined _ (raise _) => apply confined_raise
  | |- confined _ (lift _) => apply confined_lift
  | |- confined _ (bind (ret _) _) => apply confined_bind_ret
  | |- confined _ (bind (raise _) _) => apply confined_bind_raise
  | |- confined _ (bind _ _) => apply confined_bind; [|intros ?]
  | |- confined _ (try_except _ _) => apply confined_try; [|intros ?]
  | |- confined _ (call _ (fun _ => [])) => apply confined_silent_call
  | |- confined _ (Run.run_process _ _ _) => apply confined_run_process
  | |- confined _ Run.ask => apply confined_ask
  | |- confined _ (fun st => (Return _, st)) => apply confined_read
  | |- confined _ (if ?b then _ else _) => destruct b
  | |- confined _ (match ?x with _ => _ end) => destruct x
  | |- confined _ _ => first [solve [auto with conf] | case_match]
  end.
Ltac conf_auto := repeat conf_step.

Section ConfinedCode.
Context {World : Type} `{Host World}.
Variable P : string -> Prop.

Lemma confined_run_ps_rec depth cmd elevate auto_elevate propogate check :
  P cmd ->
  confined (runs_only P) (Run.run_ps_rec depth cmd elevate auto_elevate propogate check).
Proof.
  intros Hc. revert elevate auto_elevate propogate check.
  induction depth as [|depth IH]; intros; cbn [Run.run_ps_rec]; [apply confined_raise|].
  conf_auto; done.
Qed.

Lemma confined_run_ps cmd elevate auto_elevate propogate check :
  P cmd -> confined (runs_only P) (Run.run_ps cmd elevate auto_elevate propogate check).
Proof. apply confined_run_ps_rec. Qed.

Lemma confined_get_reg_rec depth path name elevate auto_elevate :
  (forall json_file, P (Reg.get_script path name json_file)) ->
  confined (runs_only P) (Reg.get_reg_rec depth path name elevate auto_elevate).
Proof.
  intros Hc. revert elevate auto_elevate.
  induction depth as [|depth IH]; intros; cbn [Reg.get_reg_rec]; [apply confined_raise|].
  unfold Reg.handle_error. conf_auto; try done; by apply confined_run_ps.
Qed.

Lemma confined_test_reg path name elevate auto_elevate :
  match name with
  | None => P (Reg.test_path_cmd path)
  | Some n => forall json_file, P (Reg.get_script path n json_file)
  end ->
  confined (runs_only P) (Reg.test_reg path name elevate auto_elevate).
Proof.
  intros Hc. unfold Reg.test_reg, Reg.handle_error, Reg.get_reg.
  destruct name; conf_auto; try done;
    first [by apply confined_run_ps | by apply confined_get_reg_rec].
Qed.

Lemma confined_after_mutation out err elevate auto_elevate retry :
  confined (runs_only P) retry ->
  confined (runs_only P) (Reg.after_mutation out err elevate auto_elevate retry).
Proof. intros Hretry. unfold Reg.after_mutation. conf_auto; done. Qed.

Lemma confined_set_reg_rec depth path name value reg_type skip elevate auto_elevate :
  (forall n, name = Some n -> forall json_file, P (Reg.get_script path n json_file)) ->
  P (Reg.test_path_cmd path) ->
  (forall n v tn, name = Some n -> P (Reg.set_item_property_cmd path n v tn)) ->
  (forall property, P (Reg.new_item_cmd path property)) ->
  confined (runs_only P)
    (Reg.set_reg_rec depth path name value reg_type skip elevate auto_elevate).
Proof.
  intros Hget Htest Hset Hnew. revert value reg_type skip elevate auto_elevate.
  induction depth as [|depth IH]; intros; cbn [Reg.set_reg_rec]; [apply confined_raise|].
  unfold Reg.handle_error, Reg.type_name, Reg.get_reg.
  conf_auto; try done;
    first [ by apply confined_run_ps; auto
          | by apply confined_get_reg_rec; auto
          | by apply confined_test_reg
          | by apply confined_after_mutation ].
Qed.

Lemma confined_del_reg_rec depth path name elevate auto_elevate :
  (forall n, name = Some n -> forall json_file, P (Reg.get_script path n json_file)) ->
  P (Reg.test_path_cmd path) ->
  P (Reg.remove_cmd path name) ->
  confined (runs_only P) (Reg.del_reg_rec depth path name elevate auto_elevate).
Proof.
  intros Hget Htest Hdel. revert elevate auto_elevate.
  induction depth as [|depth IH]; intros; cbn [Reg.del_reg_rec]; [apply confined_raise|].
  unfold Reg.handle_error.
  conf_auto; try done;
    first [ by apply confined_run_ps
          | by apply confined_after_mutation
          | apply confined_test_reg; destruct name; auto ].
Qed.

Lemma confined_get_device_rec depth self names get_all elevate auto_elevate :
  P Model.enum_cmd ->
  confined (runs_only P)
    (Model.get_device_rec depth self names get_all elevate auto_elevate).
Proof.
  intros Hc. revert names elevate auto_elevate.
  induction depth as [|depth IH]; intros; cbn [Model.get_device_rec]; [apply confined_raise|].
  unfold Model.handle_error. conf_auto; try done; by apply confined_run_ps.
Qed.

Lemma confined__check_key key :
  (forall path name t json_file, key = Some (path, name, t) ->
     P (Reg.get_script path name json_file)) ->
  confined (runs_only P) (Model._check_key key).
Proof.
  intros HP. unfold Model._check_key, Model.handle_error, Model.unpack, Reg.get_reg.
  destruct key as [[[path name] t]|]; conf_auto; try done.
  all: apply confined_get_reg_rec; intros f; by eapply HP.
Qed.

End ConfinedCode.

Section Separation.
Context {World : Type} `{Host World}.

Lemma confined_status self : confined (runs_only reads) (Model.status self).
Proof.
  unfold Model.status, Model.get_field, Model.get, Model.get_device.
  conf_auto; try done. apply confined_get_device_rec. by left.
Qed.

Lemma confined_user_active self : confined (runs_only reads) (Model.user_active self).
Proof.
  assert (forall key, confined (runs_only reads) (Model._check_key key)) as Hkey.
  { intros key. apply confined__check_key. intros path name t f _. right. eauto. }
  unfold Model.user_active, Model.device_enabled, Model.system_enabled, Model.user_enabled.
  pose proof (confined_status self).
  conf_auto; done.
Qed.

Lemma confined__toggle_device depth self state elevate auto_elevate :
  confined (runs_only (device_cmd state))
    (Model._toggle_rec depth self state Model.DEVICE elevate auto_elevate).
Proof.
  revert elevate auto_elevate.
  induction depth as [|depth IH]; intros; cbn [Model._toggle_rec]; [apply confined_raise|].
  unfold Str.eqb at 1. rewrite bool_decide_eq_true_2 by done.
  unfold Model.handle_error, Model.get_device, Model.item.
  conf_auto; try done.
  - apply confined_get_device_rec. by left.
  - apply confined_run_ps. right. eauto.
Qed.

Lemma bind_ret_l {A B} (a : A) (k : A -> M World B) : bind (ret a) k = k a.
Proof. reflexivity. Qed.

Lemma bind_raise_l {A B} e (k : A -> M World B) : bind (raise e) k = raise e.
Proof. reflexivity. Qed.

(** The retry of [set_reg] for a value: the bad parameter set is refused
    before anything is run. *)
Lemma confined_set_reg_retry P depth path n skip elevate auto_elevate :
  confined (runs_only P)
    (Reg.set_reg_rec depth path (Some n) None None skip elevate auto_elevate).
Proof.
  destruct depth as [|depth]; cbn [Reg.set_reg_rec]; [apply confined_raise|].
  unfold Reg.handle_error. conf_auto.
Qed.

(** [set_reg] for a value: the commands name that value, its data and the
    name of its type. *)
Lemma confined_set_reg_value P depth path n v t skip elevate auto_elevate :
  (forall json_file, P (Reg.get_script path n json_file)) ->
  P (Reg.test_path_cmd path) ->
  (forall tn, RegTypes.get_name [t] false = Return (One tn) ->
     P (Reg.set_item_property_cmd path n v tn)) ->
  (forall tn, RegTypes.get_name [t] false = Return (One tn) ->
     P (Reg.new_item_cmd path (Some (n, v, tn)))) ->
  confined (runs_only P)
    (Reg.set_reg_rec depth path (Some n) (Some v) (Some t) skip elevate auto_elevate).
Proof.
  intros Hget Htest Hset Hnew.
  destruct depth as [|depth]; cbn [Reg.set_reg_rec]; [apply confined_raise|].
  pose proof (confined_set_reg_retry P depth path n true true true) as Hretry.
  assert (forall el au, confined (runs_only P) (Reg.test_reg path None el au)) as Hpath
    by (intros; by apply confined_test_reg).
  assert (forall el au, confined (runs_only P) (Reg.get_reg path n el au)) as Hread
    by (intros; by apply confined_get_reg_rec).
  unfold Reg.handle_error. apply confined_try; [|intros e; conf_auto].
  rewrite bind_ret_l.
  apply confined_bind; [destruct skip; conf_auto; done|]. intros already_set.
  destruct already_set; [apply confined_ret|].
  apply confined_bind; [apply Hpath|]. intros path_exists.
  unfold Reg.type_name.
  destruct (RegTypes.get_name [t] false) as [[tn|l]|e] eqn:Hn;
    destruct path_exists; rewrite ?bind_ret_l, ?bind_raise_l;
    try (apply confined_bind; [apply Hpath|]; intros path_exists';
         destruct (negb path_exists'); [apply confined_raise|];
         rewrite ?bind_ret_l, ?bind_raise_l);
    try apply confined_raise.
  - apply confined_bind; [apply confined_run_ps; by apply Hset|].
    intros [[rc out] err]. by apply confined_after_mutation.
  - apply confined_bind; [apply confined_run_ps; by apply Hnew|].
    intros [[rc out] err]. by apply confined_after_mutation.
Qed.

Lemma confined__toggle_registry depth self state mode elevate auto_elevate path name t :
  mode = Model.SYSTEM /\ Model.SYSTEM_KEY (cls self) = Some (path, name, t)
  \/ mode = Model.USER /\ Model.USER_KEY (cls self) = Some (path, name, t) ->
  confined (runs_only (registry_cmd path name (written state) (TInt t)))
    (Model._toggle_rec depth self state mode elevate auto_elevate).
Proof.
  intros Hmode.
  set (P := registry_cmd path name (written state) (TInt t)).
  assert (forall f, P (Reg.get_script path name f)) as Hget
    by (intros f; left; eauto).
  assert (P (Reg.test_path_cmd path)) as Htest by (right; by left).
  assert (forall tn, RegTypes.get_name [TInt t] false = Return (One tn) ->
            P (Reg.set_item_property_cmd path name (written state) tn))
    as Hset by (intros tn Hn; right; right; left; eauto).
  assert (forall tn, RegTypes.get_name [TInt t] false = Return (One tn) ->
            P (Reg.new_item_cmd path (Some (name, written state, tn))))
    as Hnew by (intros tn Hn; right; right; right; left; eauto).
  assert (P (Reg.remove_cmd path (Some name))) as Hdel by (do 4 right; done).
  assert (confined (runs_only P)
            (Reg.set_reg path (Some name) (Some (written state)) (Some (TInt t))
               true false true))
    as Hsetreg by (by apply confined_set_reg_value).
  assert (confined (runs_only P) (Reg.test_reg path (Some name) false true)) as Htestreg
    by (by apply confined_test_reg).
  assert (confined (runs_only P) (Reg.del_reg path (Some name) false true)) as Hdelreg.
  { apply confined_del_reg_rec; [by intros n [= <-]|done|done]. }
  destruct depth as [|depth]; cbn [Model._toggle_rec]; [apply confined_raise|].
  unfold Model.handle_error.
  apply confined_try; [|intros e; conf_auto].
  apply confined_bind; [conf_auto|intros _].
  destruct Hmode as [[-> Hkey]|[-> Hkey]]; rewrite Hkey.
  1: change (Str.eqb Model.SYSTEM Model.DEVICE) with false;
     change (Str.eqb Model.SYSTEM Model.SYSTEM) with true.
  2: change (Str.eqb Model.USER Model.DEVICE) with false;
     change (Str.eqb Model.USER Model.SYSTEM) with false;
     change (Str.eqb Model.USER Model.USER) with true.
  all: cbn iota; unfold Model.unpack; rewrite bind_ret_l; cbn beta iota;
    revert Hsetreg; unfold written;
    destruct (Str.eqb state Model.DISABLE); intros Hsetreg; [exact Hsetreg|];
    destruct (Str.eqb state Model.ENABLE); [exact Hsetreg|];
    conf_auto; done.
Qed.

End Separation.

(** X12: looking at the state changes nothing.  Every process that a
    query of the model runs ([user_active], [device_exists], the three status
    properties, the two key properties, [get_field], [get_problem]) is the
    enumeration of devices or the read script of [Reg.get_reg]; nobody is
    notified. *)
Theorem queries_only_read {World} `{Host World} (self : Device) :
  confined (runs_only reads) (Model.user_active self)
  /\ confined (runs_only reads) (Model.device_exists self)
  /\ confined (runs_only reads) (Model.device_enabled self)
  /\ confined (runs_only reads) (Model.device_running self)
  /\ confined (runs_only reads) (Model.device_working self)
  /\ confined (runs_only reads) (Model.system_enabled self)
  /\ confined (runs_only reads) (Model.user_enabled self)
  /\ (forall field strict names,
        confined (runs_only reads) (Model.get_field self field strict names))
  /\ confined (runs_only reads) (Model.get_problem self).
Proof.
  assert (forall key, confined (runs_only reads) (Model._check_key key)) as Hkey.
  { intros key. apply confined__check_key. intros path name t f _. right. eauto. }
  assert (forall names, confined (runs_only reads)
                          (Model.get_device self names false false true)) as Hdev.
  { intros names. apply confined_get_device_rec. by left. }
  assert (forall field strict names,
            confined (runs_only reads) (Model.get_field self field strict names)) as Hfield.
  { intros. unfold Model.get_field, Model.get. conf_auto; done. }
  pose proof (confined_status self) as Hstatus.
  split; [apply confined_user_active|].
  split; [unfold Model.device_exists; conf_auto; done|].
  split; [unfold Model.device_enabled; conf_auto; done|].
  split; [unfold Model.device_running; conf_auto; done|].
  split; [unfold Model.device_working; conf_auto; done|].
  split; [unfold Model.system_enabled; conf_auto; done|].
  split; [unfold Model.user_enabled; conf_auto; done|].
  split; [exact Hfield|].
  unfold Model.get_problem. conf_auto; done.
Qed.

(** X14: in system or user mode the operation [_toggle] runs registry
    commands only, and only on the key and the value of that mode: the read
    script and the path test, the command that sets or creates that value with
    the data of the state (0 to disable, 1 to enable) and the name of the key's
    type, and the one that removes that value.  None of them is a pnputil
    line, and nobody is notified. *)
Theorem toggle_registry_commands {World} `{Host World}
    (self : Device) (state mode : string) (elevate auto_elevate : bool)
    (path name : string) (t : Z) :
  mode = Model.SYSTEM /\ Model.SYSTEM_KEY (cls self) = Some (path, name, t)
  \/ mode = Model.USER /\ Model.USER_KEY (cls self) = Some (path, name, t) ->
  confined (runs_only (registry_cmd path name (written state) (TInt t)))
    (Model._toggle self state mode elevate auto_elevate)
  /\ (forall c, registry_cmd path name (written state) (TInt t) c ->
        Str.startswith "pnputil /" c = false).
Proof.
  intros Hmode. split; [by eapply confined__toggle_registry|].
  intros c [[f ->]|[->|[(tn & _ & ->)|[(tn & _ & ->)| ->]]]]; reflexivity.
Qed.

Lemma toggle_registry_commands_witness :
  Model.USER_KEY Touchscreen = Some ("HKCU:\SOFTWARE\Microsoft\Wisp\Touch", "TouchGate", 4)
  /\ confined (runs_only (registry_cmd "HKCU:\SOFTWARE\Microsoft\Wisp\Touch" "TouchGate"
                           (DInt 0) (TInt 4)))
       (Model._toggle (H := Scripted.host) Demo.touchscreen Model.DISABLE Model.USER
          false true).
Proof.
  split; [reflexivity|].
  apply (toggle_registry_commands (H := Scripted.host) Demo.touchscreen Model.DISABLE
           Model.USER false true "HKCU:\SOFTWARE\Microsoft\Wisp\Touch" "TouchGate" 4).
  right. split; reflexivity.
Defined.

(** A user-mode toggle on a machine where the value is set already: the
    one command is the read script. *)
Example toggle_user_value_set :
  let outer := Model.toggle Demo.touchscreen Model.ENABLE Model.USER false true
                 Scenario.value_set in
  fst outer = Return tt
  /\ runs (trace (snd outer))
     = [invocation (Reg.get_script "HKCU:\SOFTWARE\Microsoft\Wisp\Touch" "TouchGate" "tmp0")
          false true].
Proof. split; vm_compute; reflexivity. Qed.

(** ** Enumeration and status *)

Section ModelMore.
Context {World : Type} `{Host World}.

(** What [get_device] does with an enumeration output in which the
    classifier finds nothing. *)
Lemma get_device_parsed self names get_all elevate auto_elevate st st' rc out err :
  Run.run_ps Model.enum_cmd elevate false true false st = (Return (rc, out, err), st') ->
  pnp_errors.check_error (Str.strip (Str.lower (out +:+ LF +:+ err))) None ErrorsNone = None ->
  Model.get_device self names get_all elevate auto_elevate st
  = (if get_all then Return (DictList (parse <$> kept (names_of self names) out))
     else match kept (names_of self names) out with
          | [b] => Return (Dict (parse b))
          | _ => Raise DeviceNotFoundError
          end, st').
Proof.
  intros Hrun Hclass.
  unfold Model.get_device. cbn [Model.get_device_rec]. unfold Model.handle_error.
  fold (names_of self names).
  match goal with |- try_except ?m _ _ = (?r, _) =>
    assert (m st = (r, st')) as Hbody end.
  { erewrite bind_return by exact Hrun. cbn beta iota zeta.
    rewrite Hclass, collect_filter.
    fold (kept (names_of self names) out).
    destruct get_all; [reflexivity|].
    destruct (kept _ out) as [|b [|b' rest]]; reflexivity. }
  destruct get_all; [by rewrite (try_return _ _ _ _ _ Hbody)|].
  destruct (kept _ out) as [|b [|b' rest]];
    first [ by rewrite (try_return _ _ _ _ _ Hbody)
          | by rewrite (try_raise _ _ _ _ _ Hbody) ].
Qed.

Lemma get_field_parsed self field strict names st st' rc out err :
  Run.run_ps Model.enum_cmd false false true false st = (Return (rc, out, err), st') ->
  pnp_errors.check_error (Str.strip (Str.lower (out +:+ LF +:+ err))) None ErrorsNone = None ->
  Model.get_field self field strict names st
  = (match kept (names_of self names) out with
     | [b] =>
         match parse b !! Str.capitalize field with
         | Some v => Return (Some v)
         | None => if strict then Raise DevicePropertyNotFoundError else Return None
         end
     | _ => Raise DeviceNotFoundError
     end, st').
Proof.
  intros Hrun Hclass. unfold Model.get_field.
  pose proof (get_device_parsed self names false false true st st' rc out err Hrun Hclass)
    as Hdev. cbn beta iota in Hdev.
  destruct (kept _ out) as [|b [|b' rest]].
  - by erewrite bind_raise by exact Hdev.
  - erewrite bind_return by exact Hdev. unfold Model.get, bind, ret.
    destruct (parse b !! Str.capitalize field); [done|]. by destruct strict.
  - by erewrite bind_raise by exact Hdev.
Qed.

(** [Device.handle_error] changes the exception, not the state. *)
Lemma model_handle_error_state {A} (func : M World A) st :
  snd (Model.handle_error func st) = snd (func st).
Proof.
  unfold Model.handle_error, try_except.
  destruct (func st) as [[a|e] st']; [done|]. by destruct e.
Qed.

Lemma get_device_elevated_trace depth self names get_all auto_elevate st :
  trace (snd (Model.get_device_rec (S depth) self names get_all true auto_elevate st))
  = trace st ++ [EvRun (invocation Model.enum_cmd true true)].
Proof.
  cbn [Model.get_device_rec]. rewrite model_handle_error_state, andb_false_r.
  pose proof (run_ps_once Model.enum_cmd true false true false st (or_introl eq_refl))
    as Hrun.
  unfold bind. destruct (Run.run_ps _ _ _ _ _ st) as [[[[rc out] err]|e] st1];
    cbn [snd] in *; [|done].
  repeat (case_match; simplify_eq/=; try done).
Qed.

Lemma _check_device self state :
  state = Model.ENABLE \/ state = Model.DISABLE ->
  Model._check self state Model.DEVICE = Return tt.
Proof. intros Hstate. destruct self as [[] observers], Hstate as [-> | ->]; reflexivity. Qed.

End ModelMore.

(** X13: in device mode the operation [_toggle] runs pnputil lines only:
    every command is the enumeration of devices or the line that enables or
    disables an instance, and nobody is notified.  The line that follows the
    first enumeration names the instance id which that enumeration gave for
    the device, between double quotes and as listed; when the enumeration
    fails or the block has no instance id, nothing more is run. *)
Theorem toggle_device_commands {World} `{Host World}
    (self : Device) (state : string) (elevate auto_elevate : bool) :
  confined (runs_only (device_cmd state))
    (Model._toggle self state Model.DEVICE elevate auto_elevate)
  /\ (forall c, device_cmd state c -> Str.startswith "pnputil /" c = true)
  /\ (forall st,
        state = Model.ENABLE \/ state = Model.DISABLE ->
        let found := Model.get_device self NamesNone false false true st in
        let inner := Model._toggle self state Model.DEVICE elevate auto_elevate st in
        match fst found with
        | Return (Dict d) =>
            match d !! "Instance ID" with
            | Some instance_id =>
                exists rest,
                  trace (snd inner)
                  = trace (snd found)
                    ++ EvRun (invocation (Model.toggle_cmd state instance_id) elevate true)
                       :: rest
            | None => snd inner = snd found
            end
        | _ => snd inner = snd found
        end).
Proof.
  split; [apply confined__toggle_device|]. split.
  { intros c [->|[id ->]]; reflexivity. }
  intros st Hstate found inner. subst found inner. unfold Model._toggle.
  remember 1%nat as depth eqn:Hdepth.
  assert (forall st', exists evs,
            trace (snd (Model._toggle_rec depth self state Model.DEVICE true true st'))
            = trace st' ++ evs) as Hretry.
  { intros st'.
    destruct (confined__toggle_device depth self state true true st') as (evs & Ht & _).
    eauto. }
  clear Hdepth.
  destruct (Model.get_device self NamesNone false false true st) as [[[d|l]|e] s] eqn:Hdev;
    cbn [fst snd].
  1: destruct (d !! "Instance ID") as [instance_id|] eqn:Hid.
  all: cbn [Model._toggle_rec]; rewrite model_handle_error_state;
    erewrite bind_return by (rewrite (_check_device self state Hstate); reflexivity);
    unfold Str.eqb at 1; rewrite bool_decide_eq_true_2 by done.
  2: { erewrite bind_return by exact Hdev.
       by erewrite bind_raise by (unfold Model.item; rewrite Hid; reflexivity). }
  2: by erewrite bind_return by exact Hdev.
  2: by erewrite bind_raise by exact Hdev.
  erewrite bind_return by exact Hdev.
  erewrite bind_return by (unfold Model.item; rewrite Hid; reflexivity).
  pose proof (run_ps_once (Model.toggle_cmd state instance_id) elevate false true false s
                (or_intror eq_refl)) as Hrun.
  unfold bind at 1.
  destruct (Run.run_ps _ _ _ _ _ s) as [[[[rc out] err]|e] st2]; cbn [snd] in Hrun;
    cbn beta iota zeta; [|exists []; exact Hrun].
  assert (forall e' : Exn, exists rest,
            trace (snd (raise (A := unit) e' st2))
            = trace s ++ EvRun (invocation (Model.toggle_cmd state instance_id) elevate true)
                        :: rest) as Hraise by (intros; by exists []).
  assert (exists rest,
            trace (snd (ret tt st2))
            = trace s ++ EvRun (invocation (Model.toggle_cmd state instance_id) elevate true)
                        :: rest) as Hret by (by exists []).
  assert (exists rest,
            trace (snd ((if Str.contains "success"
                              (Str.strip (Str.lower out) +:+ LF +:+ Str.strip (Str.lower err))
                         then ret tt else raise PnpError) st2))
            = trace s ++ EvRun (invocation (Model.toggle_cmd state instance_id) elevate true)
                        :: rest) as Hfinish by (by destruct (Str.contains _ _)).
  destruct (Str.nonempty _ || Str.nonempty _); [|exact Hfinish].
  destruct (pnp_errors.check_error _ _ _) as [e|]; [|exact Hfinish].
  destruct (bool_decide (e = DevicePermissionError)).
  2: by destruct (bool_decide (e = DevicePropertyExistsError)).
  destruct (auto_elevate && negb elevate); [|apply Hraise].
  unfold bind. destruct (Ask_elevate (world st2)) as [granted w] eqn:Hask.
  rewrite (ask_eq st2 granted w Hask). destruct granted.
  - match goal with |- exists rest, trace (snd (?m ?s3)) = _ =>
      destruct (Hretry s3) as (evs & Hevs) end.
    exists (EvAsk true :: evs). rewrite Hevs. cbn [trace]. rewrite Hrun, <- !app_assoc.
    reflexivity.
  - exists [EvAsk false]. cbn [snd raise trace]. rewrite Hrun, <- app_assoc. reflexivity.
Qed.

Lemma toggle_device_commands_witness :
  let found := Model.get_device Demo.touchscreen NamesNone false false true
                 Scenario.already_enabled in
  let inner := Model._toggle Demo.touchscreen Model.ENABLE Model.DEVICE false true
                 Scenario.already_enabled in
  fst found = Return (Dict (parse Demo.touchscreen_block))
  /\ exists rest,
       trace (snd inner)
       = trace (snd found)
         ++ EvRun (invocation (Model.toggle_cmd Model.ENABLE Demo.instance_id) false true)
            :: rest.
Proof.
  intros found inner.
  assert (fst found = Return (Dict (parse Demo.touchscreen_block))) as Hfound
    by (vm_compute; reflexivity).
  split; [exact Hfound|].
  pose proof (proj2 (proj2 (toggle_device_commands (H := Scripted.host) Demo.touchscreen
                              Model.ENABLE false true))
                Scenario.already_enabled (or_introl eq_refl)) as Hpin.
  cbv zeta in Hpin. fold found inner in Hpin. rewrite Hfound in Hpin.
  change (parse Demo.touchscreen_block !! "Instance ID") with (Some Demo.instance_id) in Hpin.
  exact Hpin.
Defined.

(** X15: the events of one call of [get_device]: the enumeration is run
    once; if the call was not elevated and may elevate, it may be followed by
    one consent dialog, and after consent by one elevated enumeration; after a
    refusal the call raises [DeviceOperationAbortedError].  Nothing else is run
    or asked. *)
Theorem get_device_trace_shape {World} `{Host World}
    (self : Device) (names : Names) (get_all elevate auto_elevate : bool) (st : St World) :
  let first := EvRun (invocation Model.enum_cmd elevate true) in
  let again := EvRun (invocation Model.enum_cmd true true) in
  let result := Model.get_device self names get_all elevate auto_elevate st in
  exists evs,
    trace (snd result) = trace st ++ evs
    /\ (evs = [first]
        \/ (elevate = false /\ auto_elevate = true
            /\ (evs = [first; EvAsk false] /\ fst result = Raise DeviceOperationAbortedError
                \/ evs = [first; EvAsk true; again]))).
Proof.
  intros first again result. subst result.
  destruct elevate.
  { exists [first]. split; [apply get_device_elevated_trace|by left]. }
  unfold Model.get_device.
  remember 1%nat as depth eqn:Hdepth.
  assert (forall n st', trace (snd (Model.get_device_rec depth self n get_all true true st'))
                        = trace st' ++ [again]) as Hel.
  { intros. subst depth. apply get_device_elevated_trace. }
  clear Hdepth. cbn [Model.get_device_rec]. fold (names_of self names).
  pose proof (run_ps_once Model.enum_cmd false false true false st (or_intror eq_refl))
    as Hrun.
  unfold Model.handle_error, try_except, bind.
  destruct (Run.run_ps _ _ _ _ _ st) as [[[[rc out] err]|e] st1]; cbn [snd] in Hrun;
    cbn beta iota.
  2:{ exists [first]. split; [|by left]. by destruct e. }
  destruct (pnp_errors.check_error _ _ _) as [e|].
  2:{ exists [first]. split; [|by left].
      destruct get_all; [exact Hrun|].
      destruct (Model.collect _ _) as [|d [|d' l]]; exact Hrun. }
  destruct (bool_decide (e = DevicePermissionError)).
  2:{ exists [first]. split; [|by left]. by destruct e. }
  destruct auto_elevate; cbn [andb negb].
  2:{ exists [first]. split; [|by left]. by destruct e. }
  destruct (Ask_elevate (world st1)) as [granted w2] eqn:Hask.
  rewrite (ask_eq st1 granted w2 Hask).
  destruct granted.
  - exists [first; EvAsk true; again].
    split; [|right; split; [done|split; [done|by right]]].
    match goal with |- trace (snd (match ?m ?s with _ => _ end)) = _ =>
      specialize (Hel (NamesList (names_of self names)) s);
      destruct (m s) as [[a|e'] st3] end; cbn [snd] in *;
      [|destruct e']; cbn [snd raise]; rewrite Hel; cbn [trace];
      rewrite Hrun, <- !app_assoc; reflexivity.
  - exists [first; EvAsk false].
    split; [|right; split; [done|split; [done|left; split; reflexivity]]].
    cbn [snd trace raise]. by rewrite Hrun, <- app_assoc.
Qed.

(** X18: with [get_all], [get_device] returns the
    field maps of the blocks that contain one of the names and a colon, in the
    order of the listing.  The names still filter the blocks, and an empty
    list is returned rather than [DeviceNotFoundError] raised. *)
Theorem get_device_all {World} `{Host World}
    (self : Device) (names : Names) (elevate auto_elevate : bool)
    (st st' : St World) (rc : Z) (out err : string) :
  Run.run_ps Model.enum_cmd elevate false true false st = (Return (rc, out, err), st') ->
  pnp_errors.check_error (Str.strip (Str.lower (out +:+ LF +:+ err))) None ErrorsNone = None ->
  Model.get_device self names true elevate auto_elevate st
  = (Return (DictList (parse <$> kept (names_of self names) out)), st').
Proof. intros Hrun Hclass. by rewrite (get_device_parsed _ _ _ _ _ _ _ _ _ _ Hrun Hclass). Qed.

Lemma get_device_all_witness :
  length (Str.split (LF +:+ LF) Demo.listing) = 3%nat
  /\ fst (Model.get_device Demo.touchscreen (NamesStr "Touch") true false true
            Scenario.already_enabled)
     = Return (DictList [parse Demo.touchscreen_block])
  /\ fst (Model.get_device Demo.touchscreen (NamesStr "stylus") true false true
            Scenario.already_enabled)
     = Return (DictList []).
Proof.
  set (st' := Scenario.after (Run.run_ps Model.enum_cmd false false true false)
                Scenario.already_enabled).
  split; [reflexivity|]. split.
  - rewrite (get_device_all Demo.touchscreen (NamesStr "Touch") false true
               Scenario.already_enabled st' 0 Demo.listing "");
      [vm_compute; reflexivity|vm_compute; reflexivity..].
  - rewrite (get_device_all Demo.touchscreen (NamesStr "stylus") false true
               Scenario.already_enabled st' 0 Demo.listing "");
      [vm_compute; reflexivity|vm_compute; reflexivity..].
Defined.

(** X19: [get_field] looks a field up under its capitalised name: the
    first character in upper case, all the others in lower case.  A field
    that the listing spells with another capital, such as [Instance ID], is
    not found under that spelling: with [strict] the call raises
    [DevicePropertyNotFoundError], without it the result is [None]. *)
Theorem get_field_capitalized {World} `{Host World}
    (self : Device) (field : string) (strict : bool) (names : Names)
    (st st' : St World) (rc : Z) (out err : string) :
  Run.run_ps Model.enum_cmd false false true false st = (Return (rc, out, err), st') ->
  pnp_errors.check_error (Str.strip (Str.lower (out +:+ LF +:+ err))) None ErrorsNone = None ->
  Model.get_field self field strict names st
  = (match kept (names_of self names) out with
     | [b] =>
         match parse b !! Str.capitalize field with
         | Some v => Return (Some v)
         | None => if strict then Raise DevicePropertyNotFoundError else Return None
         end
     | _ => Raise DeviceNotFoundError
     end, st').
Proof. apply get_field_parsed. Qed.

Lemma get_field_capitalized_witness :
  parse Demo.touchscreen_block !! "Instance ID" = Some Demo.instance_id
  /\ Str.capitalize "Instance ID" = "Instance id"
  /\ fst (Model.get_field Demo.touchscreen "Instance ID" true NamesNone
            Scenario.already_enabled)
     = Raise DevicePropertyNotFoundError.
Proof.
  set (st' := Scenario.after (Run.run_ps Model.enum_cmd false false true false)
                Scenario.already_enabled).
  split; [vm_compute; reflexivity|]. split; [reflexivity|].
  rewrite (get_field_capitalized Demo.touchscreen "Instance ID" true NamesNone
             Scenario.already_enabled st' 0 Demo.listing "");
    [vm_compute; reflexivity|vm_compute; reflexivity..].
Defined.

(** X20: [get_problem] enumerates the devices twice and looks up the
    fields [Problem code] and [Problem status]: capitalising lower-cases the
    second word, so the fields [Problem Code] and [Problem Status] of a
    listing are not the ones it reads. *)
Theorem get_problem_fields {World} `{Host World}
    (self : Device) (st st1 st2 : St World)
    (rc1 rc2 : Z) (out1 err1 out2 err2 b1 b2 : string) :
  Run.run_ps Model.enum_cmd false false true false st = (Return (rc1, out1, err1), st1) ->
  pnp_errors.check_error (Str.strip (Str.lower (out1 +:+ LF +:+ err1))) None ErrorsNone = None ->
  kept (Model.DEVICE_NAMES (cls self)) out1 = [b1] ->
  Run.run_ps Model.enum_cmd false false true false st1 = (Return (rc2, out2, err2), st2) ->
  pnp_errors.check_error (Str.strip (Str.lower (out2 +:+ LF +:+ err2))) None ErrorsNone = None ->
  kept (Model.DEVICE_NAMES (cls self)) out2 = [b2] ->
  Model.get_problem self st
  = (Return (parse b1 !! "Problem code", parse b2 !! "Problem status"), st2).
Proof.
  intros Hrun1 Hclass1 Hkept1 Hrun2 Hclass2 Hkept2.
  pose proof (get_field_parsed self "Problem Code" false NamesNone _ _ _ _ _ Hrun1 Hclass1)
    as Hcode.
  pose proof (get_field_parsed self "Problem Status" false NamesNone _ _ _ _ _ Hrun2 Hclass2)
    as Hstatus.
  cbn [names_of] in Hcode, Hstatus. rewrite Hkept1 in Hcode. rewrite Hkept2 in Hstatus.
  change (Str.capitalize "Problem Code") with "Problem code" in Hcode.
  change (Str.capitalize "Problem Status") with "Problem status" in Hstatus.
  unfold Model.get_problem, bind. rewrite Hcode.
  destruct (parse b1 !! "Problem code"); rewrite Hstatus;
    by destruct (parse b2 !! "Problem status").
Qed.

Lemma get_problem_fields_witness :
  parse (Demo.problem_block +:+ LF) !! "Problem Code"
  = Some "28 (0x1C) [CM_PROB_FAILED_INSTALL]"
  /\ fst (Model.get_problem Demo.touchscreen Scenario.troubled) = Return (None, None).
Proof.
  set (st1 := Scenario.after (Run.run_ps Model.enum_cmd false false true false)
                Scenario.troubled).
  set (st2 := Scenario.after (Run.run_ps Model.enum_cmd false false true false) st1).
  split; [vm_compute; reflexivity|].
  rewrite (get_problem_fields Demo.touchscreen Scenario.troubled st1 st2
             0 0 Demo.problem_listing "" Demo.problem_listing ""
             (Demo.problem_block +:+ LF) (Demo.problem_block +:+ LF));
    [vm_compute; reflexivity|vm_compute; reflexivity..].
Defined.

(** X21: the three status properties read the same field, so a device
    that is running is enabled and works: when [device_running] answers true,
    [device_enabled] and [device_working], asked in the same state, answer
    true as well. *)
Theorem device_running_enabled_working {World} `{Host World}
    (self : Device) (st : St World) :
  fst (Model.device_running self st) = Return true ->
  fst (Model.device_enabled self st) = Return true
  /\ fst (Model.device_working self st) = Return true.
Proof.
  unfold Model.device_enabled, Model.device_running, Model.device_working, bind, Str.eqb.
  destruct (Model.status self st) as [[s|e] st']; cbn [fst]; [|done].
  case_bool_decide as Hs; [|done]. intros _. rewrite Hs. split; reflexivity.
Qed.

Lemma device_running_enabled_working_witness :
  fst (Model.device_running Demo.touchscreen Scenario.already_enabled) = Return true
  /\ fst (Model.device_enabled Demo.touchscreen Scenario.already_enabled) = Return true
  /\ fst (Model.device_working Demo.touchscreen Scenario.already_enabled) = Return true.
Proof.
  assert (fst (Model.device_running Demo.touchscreen Scenario.already_enabled) = Return true)
    as Hrun by (vm_compute; reflexivity).
  split; [exact Hrun|].
  exact (device_running_enabled_working Demo.touchscreen Scenario.already_enabled Hrun).
Defined.

(** X22: a toggle in device mode reports success only on evidence: when
    the classifier finds nothing in what pnputil printed, [_toggle] returns
    if the text contains [success], and raises [PnpError] otherwise, as for
    the banner alone that pnputil prints for an instance id it does not
    know. *)
Theorem toggle_device_needs_success {World} `{Host World}
    (self : Device) (state : string) (elevate auto_elevate : bool)
    (st st1 st2 : St World) (d : gmap string string) (instance_id : string)
    (rc : Z) (out err : string) :
  state = Model.ENABLE \/ state = Model.DISABLE ->
  Model.get_device self NamesNone false false true st = (Return (Dict d), st1) ->
  d !! "Instance ID" = Some instance_id ->
  Run.run_ps (Model.toggle_cmd state instance_id) elevate false true false st1
  = (Return (rc, out, err), st2) ->
  pnp_errors.check_error
    (Str.strip (Str.lower out) +:+ LF +:+ Str.strip (Str.lower err)) None ErrorsNone
  = None ->
  Model._toggle self state Model.DEVICE elevate auto_elevate st
  = (if Str.contains "success" (Str.strip (Str.lower out) +:+ LF +:+ Str.strip (Str.lower err))
     then Return tt else Raise PnpError, st2).
Proof.
  intros Hstate Hdev Hid Hrun Hclass.
  unfold Model._toggle. cbn [Model._toggle_rec]. unfold Model.handle_error.
  match goal with |- try_except ?m _ _ = (?r, _) =>
    assert (m st = (r, st2)) as Hbody end.
  { erewrite bind_return by (rewrite (_check_device self state Hstate); reflexivity).
    unfold Str.eqb at 1. rewrite bool_decide_eq_true_2 by done.
    erewrite bind_return by exact Hdev.
    erewrite bind_return by (unfold Model.item; rewrite Hid; reflexivity).
    erewrite bind_return by exact Hrun. cbn beta iota zeta.
    rewrite Hclass.
    destruct (Str.nonempty _ || Str.nonempty _);
      by destruct (Str.contains "success" _). }
  destruct (Str.contains "success" _);
    first [ by rewrite (try_return _ _ _ _ _ Hbody)
          | by rewrite (try_raise _ _ _ _ _ Hbody) ].
Qed.

Lemma toggle_device_needs_success_witness :
  fst (Model._toggle Demo.touchscreen Model.DISABLE Model.DEVICE false true
         Scenario.silent_failure) = Raise PnpError
  /\ fst (Model.toggle Demo.touchscreen Model.DISABLE Model.DEVICE false true
            Scenario.silent_failure) = Raise PnpError.
Proof.
  set (st1 := Scenario.after (Model.get_device Demo.touchscreen NamesNone false false true)
                Scenario.silent_failure).
  set (st2 := Scenario.after
                (Run.run_ps (Model.toggle_cmd Model.DISABLE Demo.instance_id)
                   false false true false) st1).
  split; [|vm_compute; reflexivity].
  rewrite (toggle_device_needs_success Demo.touchscreen Model.DISABLE false true
             Scenario.silent_failure st1 st2 (parse Demo.touchscreen_block)
             Demo.instance_id 0 ("Microsoft PnP Utility" +:+ LF +:+ LF) "");
    [vm_compute; reflexivity|by right|vm_compute; reflexivity..].
Defined.

(** X23: when the block of the device has no [Instance ID] field, a toggle
    in device mode raises [KeyError], the error of the dictionary lookup,
    after the enumeration; no device command is run. *)
Theorem toggle_device_no_instance_id {World} `{Host World}
    (self : Device) (state : string) (elevate auto_elevate : bool)
    (st st1 : St World) (d : gmap string string) :
  state = Model.ENABLE \/ state = Model.DISABLE ->
  Model.get_device self NamesNone false false true st = (Return (Dict d), st1) ->
  d !! "Instance ID" = None ->
  Model._toggle self state Model.DEVICE elevate auto_elevate st = (Raise KeyError, st1).
Proof.
  intros Hstate Hdev Hid.
  unfold Model._toggle. cbn [Model._toggle_rec]. unfold Model.handle_error.
  match goal with |- try_except ?m _ _ = (?r, _) =>
    assert (m st = (r, st1)) as Hbody end.
  { erewrite bind_return by (rewrite (_check_device self state Hstate); reflexivity).
    unfold Str.eqb at 1. rewrite bool_decide_eq_true_2 by done.
    erewrite bind_return by exact Hdev.
    erewrite bind_raise by (unfold Model.item; rewrite Hid; reflexivity).
    reflexivity. }
  by rewrite (try_raise _ _ _ _ _ Hbody).
Qed.

Lemma toggle_device_no_instance_id_witness :
  Model._toggle Demo.touchscreen Model.ENABLE Model.DEVICE false true Scenario.anonymous
  = (Raise KeyError,
     Scenario.after (Model.get_device Demo.touchscreen NamesNone false false true)
       Scenario.anonymous)
  /\ runs (trace (Scenario.after
                    (Model._toggle Demo.touchscreen Model.ENABLE Model.DEVICE false true)
                    Scenario.anonymous))
     = [invocation Model.enum_cmd false true].
Proof.
  split; [|vm_compute; reflexivity].
  apply (toggle_device_no_instance_id Demo.touchscreen Model.ENABLE false true
           Scenario.anonymous _ (parse (Demo.anonymous_block +:+ LF)));
    [by left|vm_compute; reflexivity|vm_compute; reflexivity].
Defined.

(** ** Registry values, written and read *)

Section Returns.
Context {World : Type}.

Lemma returns_raise {A} (Q : A -> Prop) e : returns (World := World) Q (raise e).
Proof. by intros st a. Qed.

Lemma returns_bind {A B} (Q : B -> Prop) (m : M World A) (k : A -> M World B) :
  (forall a, returns Q (k a)) -> returns Q (bind m k).
Proof.
  intros Hk st b. unfold bind. destruct (m st) as [[a|e] st1]; [apply Hk|done].
Qed.

Lemma returns_try {A} (Q : A -> Prop) (m : M World A) (h : Exn -> M World A) :
  returns Q m -> (forall e, returns Q (h e)) -> returns Q (try_except m h).
Proof.
  intros Hm Hh st a. unfold try_except. specialize (Hm st).
  destruct (m st) as [[a'|e] st1]; [apply Hm|apply Hh].
Qed.
End Returns.

Section RegMore.
Context {World : Type} `{Host World}.

Lemma get_reg_rec_supported depth path name elevate auto_elevate :
  returns (fun r => r.2 ∈ RegTypes.SUPPORTED_REG_TYPES)
    (Reg.get_reg_rec depth path name elevate auto_elevate).
Proof.
  revert elevate auto_elevate.
  induction depth as [|depth IH]; intros; cbn [Reg.get_reg_rec]; [apply returns_raise|].
  unfold Reg.handle_error. apply returns_try.
  2:{ intros e. destruct e; apply returns_raise. }
  apply returns_bind. intros json_file. apply returns_bind. intros [[rc out] err].
  destruct (Reg.has_output out err).
  - destruct (reg_errors.check_error _ _ _) as [e|]; [|apply returns_raise].
    destruct (bool_decide _); [|apply returns_raise].
    destruct (auto_elevate && negb elevate); [|apply returns_raise].
    apply returns_bind. intros granted. destruct granted; [apply IH|apply returns_raise].
  - apply returns_bind. intros output.
    destruct output as [| |data type]; try apply returns_raise.
    intros st a. unfold bind, lift.
    destruct (RegTypes.normalise1 type) as [t|e] eqn:Ht; [|done].
    cbn. intros [= <-]. by eapply RegTypesMore.normalise1_supported.
Qed.

End RegMore.

(** X24: [set_reg] takes the name, the value and the type of a property
    together or not at all: with some of the three given and some omitted it
    raises [ValueError] before anything is run. *)
Theorem set_reg_bad_parameters {World} `{Host World}
    (path : string) (name : option string) (value : option RegData)
    (reg_type : option RegType) (skip elevate auto_elevate : bool) (st : St World) :
  ~ (is_Some name /\ is_Some value /\ is_Some reg_type) ->
  ~ (name = None /\ value = None /\ reg_type = None) ->
  Reg.set_reg path name value reg_type skip elevate auto_elevate st = (Raise ValueError, st).
Proof.
  intros Hall Hnone. unfold Reg.set_reg. cbn [Reg.set_reg_rec].
  destruct name, value, reg_type; try reflexivity.
  - exfalso. apply Hall. eauto.
  - exfalso. by apply Hnone.
Qed.

Lemma set_reg_bad_parameters_witness :
  Reg.set_reg "HKCU:\Software\Touch" (Some "TouchGate") None None true false true
    Scenario.value_set
  = (Raise ValueError, Scenario.value_set).
Proof.
  apply (set_reg_bad_parameters (World := Scripted.tape)).
  - intros (_ & Hvalue & _). by destruct Hvalue.
  - by intros (Hname & _).
Defined.

(** X25: with [skip], [set_reg] first reads the value; when the data read
    is the data to write and both types normalise to the same code, it
    returns at once, in the state the read left: the path is not tested and
    no writing command is run. *)
Theorem set_reg_skips {World} `{Host World}
    (path name : string) (value : RegData) (reg_type : RegType)
    (elevate auto_elevate : bool) (st st' : St World) (t t' : Z) :
  Reg.get_reg path name elevate auto_elevate st = (Return (value, t), st') ->
  RegTypes.normalise [TInt t] = Return (One t') ->
  RegTypes.normalise [reg_type] = Return (One t') ->
  Reg.set_reg path (Some name) (Some value) (Some reg_type) true elevate auto_elevate st
  = (Return tt, st').
Proof.
  intros Hget Hhave Hwant. unfold Reg.set_reg. cbn [Reg.set_reg_rec].
  unfold Reg.handle_error. apply try_return.
  erewrite bind_return by reflexivity.
  erewrite bind_return.
  2:{ apply try_return. erewrite bind_return by exact Hget. cbn beta iota.
      unfold RegTypes.normalise1. rewrite Hhave, Hwant.
      erewrite bind_return by reflexivity. erewrite bind_return by reflexivity.
      reflexivity. }
  cbn beta iota. by rewrite bool_decide_eq_true_2.
Qed.

Lemma set_reg_skips_witness :
  Reg.set_reg "HKCU:\Software\Touch" (Some "TouchGate") (Some (DInt 1)) (Some (TStr "dword"))
    true false true Scenario.value_set
  = (Return tt,
     Scenario.after (Reg.get_reg "HKCU:\Software\Touch" "TouchGate" false true)
       Scenario.value_set)
  /\ length (runs (trace (Scenario.after
                            (Reg.set_reg "HKCU:\Software\Touch" (Some "TouchGate")
                               (Some (DInt 1)) (Some (TStr "dword")) true false true)
                            Scenario.value_set))) = 1%nat.
Proof.
  split; [|vm_compute; reflexivity].
  apply (set_reg_skips (World := Scripted.tape) _ _ _ _ _ _ _ _ 4 4);
    [vm_compute; reflexivity|vm_compute; reflexivity|vm_compute; reflexivity].
Defined.

(** X26: the type that [get_reg] returns is a supported code, whatever the
    type the script wrote to the file: a name, a code, or something that is
    neither. *)
Theorem get_reg_type_supported {World} `{Host World}
    (path name : string) (elevate auto_elevate : bool) (st : St World)
    (data : RegData) (t : Z) :
  fst (Reg.get_reg path name elevate auto_elevate st) = Return (data, t) ->
  t ∈ RegTypes.SUPPORTED_REG_TYPES.
Proof.
  intros Hget.
  exact (get_reg_rec_supported 2 path name elevate auto_elevate st (data, t) Hget).
Qed.

Lemma get_reg_type_supported_witness :
  fst (Reg.get_reg "HKCU:\Software\Touch" "TouchGate" false true Scenario.value_set)
  = Return (DInt 1, 4)
  /\ 4 ∈ RegTypes.SUPPORTED_REG_TYPES.
Proof.
  assert (fst (Reg.get_reg "HKCU:\Software\Touch" "TouchGate" false true Scenario.value_set)
          = Return (DInt 1, 4)) as Hget by (vm_compute; reflexivity).
  split; [exact Hget|].
  exact (get_reg_type_supported "HKCU:\Software\Touch" "TouchGate" false true
           Scenario.value_set (DInt 1) 4 Hget).
Defined.

(** X27: how [_check_key] reads a registry value.  A value of the expected
    type is true for the data 1, false for the data 0 and [None] for any
    other data; a value of another type, or no value at all, is [None]; any
    other error of the read goes through [Device.handle_error]. *)
Theorem check_key_reads {World} `{Host World}
    (path name : string) (type_ : Z) (st st' : St World) (r : Outcome (RegData * Z)) :
  Reg.get_reg path name false true st = (r, st') ->
  Model._check_key (Some (path, name, type_)) st
  = match r with
    | Return (data, t) =>
        (Return (if bool_decide (clamp t = clamp type_) then flag data else None), st')
    | Raise e =>
        if bool_decide (e = RegistryItemNotFoundError) then (Return None, st')
        else Model.handle_error (raise e) st'
    end.
Proof.
  intros Hget. unfold Model._check_key.
  destruct r as [[data t]|e].
  - unfold Model.handle_error. apply try_return.
    unfold Model.unpack. erewrite bind_return by reflexivity. cbn beta iota.
    erewrite bind_return.
    2:{ apply try_return. erewrite bind_return by exact Hget. reflexivity. }
    cbn beta iota. unfold RegTypes.normalise1. rewrite !RegTypesFacts.normalise_int.
    erewrite bind_return by reflexivity. erewrite bind_return by reflexivity.
    case_bool_decide; cbn [negb]; [|reflexivity].
    unfold flag. destruct data as [[|[]|]| |]; reflexivity.
  - case_bool_decide as He.
    + subst e. unfold Model.handle_error. apply try_return.
      unfold Model.unpack. erewrite bind_return by reflexivity. cbn beta iota.
      erewrite bind_return.
      2:{ erewrite try_raise by (erewrite bind_raise by exact Hget; reflexivity).
          reflexivity. }
      reflexivity.
    + unfold Model.handle_error at 1. erewrite try_raise.
      2:{ unfold Model.unpack. erewrite bind_return by reflexivity. cbn beta iota.
          erewrite bind_raise; [reflexivity|].
          erewrite try_raise by (erewrite bind_raise by exact Hget; reflexivity).
          by rewrite bool_decide_eq_false_2. }
      unfold Model.handle_error, try_except, raise. reflexivity.
Qed.

Lemma check_key_reads_witness :
  Model._check_key (Some ("HKCU:\Software\Touch", "TouchGate", 4)) Scenario.value_set
  = (Return (Some true),
     Scenario.after (Reg.get_reg "HKCU:\Software\Touch" "TouchGate" false true)
       Scenario.value_set).
Proof.
  rewrite (check_key_reads "HKCU:\Software\Touch" "TouchGate" 4 Scenario.value_set
             (Scenario.after (Reg.get_reg "HKCU:\Software\Touch" "TouchGate" false true)
                Scenario.value_set)
             (Return (DInt 1, 4)));
    [reflexivity|vm_compute; reflexivity].
Defined.

(** ** Observers *)










